(** * rvault: the vault lifecycle of [src/core/rvault.c]

    A shallow embedding of the vault metadata codec and of the vault
    object ([rvault_init], [rvault_open], [rvault_open_ekey],
    [rvault_close], [rvault_iter_dir]) together with the layout macros of
    [src/core/storage.h].

    Conventions.
    - A byte is a [Z] in [0, 256); a buffer or a file is a [list Z].
    - A [uint16_t] or [uint8_t] store truncates with [Z.land]; [size_t]
      values are lengths of buffers held in memory and never wrap.  The
      length macros of a file object add a [uint64_t] read from the
      file and are taken modulo [2^64].
    - A C function that returns [-1] or [NULL] yields [Fail]; a violated
      [ASSERT] or an access outside the bounds of an object yields
      [Fault] (the C program has no defined behaviour from there on).
    - The cryptographic library, the key server, the recovery parser and
      the name resolver are not part of these two files: they are the
      fields of the class [Platform]. *)

From stdpp Require Import base numbers option list strings gmap.
From Stdlib Require Import ZArith Lia Ascii.

Local Open Scope Z_scope.

(** ** Integers and byte order *)

Inductive endianness : Type := LittleEndian | BigEndian.

Definition UINT8_MAX : Z := 255.
Definition UINT16_MAX : Z := 65535.

Definition u8 (v : Z) : Z := Z.land v UINT8_MAX.
Definition u16 (v : Z) : Z := Z.land v UINT16_MAX.

(** The two bytes of a 16-bit value, least significant first. *)
Definition lo8 (v : Z) : Z := Z.land v 255.
Definition hi8 (v : Z) : Z := Z.land (Z.shiftr v 8) 255.

Definition bswap16 (v : Z) : Z := Z.lor (Z.shiftl (lo8 v) 8) (hi8 v).

(** [htobe16] and [be16toh] of <endian.h>: a byte swap on a little-endian
    host, the identity on a big-endian one. *)
Definition htobe16 (e : endianness) (v : Z) : Z :=
  match e with
  | LittleEndian => bswap16 (u16 v)
  | BigEndian => u16 v
  end.

Definition be16toh (e : endianness) (v : Z) : Z := htobe16 e v.

(** A [uint16_t] object in memory, as the host lays it out. *)
Definition store16 (e : endianness) (v : Z) : list Z :=
  match e with
  | LittleEndian => [lo8 v; hi8 v]
  | BigEndian => [hi8 v; lo8 v]
  end.

Definition load16 (e : endianness) (b0 b1 : Z) : Z :=
  match e with
  | LittleEndian => Z.lor (Z.shiftl (u8 b1) 8) (u8 b0)
  | BigEndian => Z.lor (Z.shiftl (u8 b0) 8) (u8 b1)
  end.

(** The big-endian wire encoding of a 16-bit value, on any host. *)
Definition be16_bytes (v : Z) : list Z := [hi8 v; lo8 v].

(** A [uint64_t]: truncation, and its eight bytes in memory. *)
Definition UINT64_MAX : Z := 18446744073709551615.

Definition u64 (v : Z) : Z := Z.land v UINT64_MAX.

(** The value of a sequence of bytes read least significant first. *)
Definition of_le_bytes (bs : list Z) : Z :=
  foldr (λ b acc, Z.lor (Z.shiftl acc 8) (u8 b)) 0 bs.

(** The [n] low bytes of a value, least significant first. *)
Fixpoint le_bytes (n : nat) (v : Z) : list Z :=
  match n with
  | O => []
  | S n' => lo8 v :: le_bytes n' (Z.shiftr v 8)
  end.

Definition bswap64 (v : Z) : Z := of_le_bytes (reverse (le_bytes 8 v)).

(** [be64toh] of <endian.h>. *)
Definition be64toh (e : endianness) (v : Z) : Z :=
  match e with
  | LittleEndian => bswap64 (u64 v)
  | BigEndian => u64 v
  end.

(** A [uint64_t] object in memory, as the host reads it. *)
Definition load64 (e : endianness) (bs : list Z) : Z :=
  match e with
  | LittleEndian => of_le_bytes bs
  | BigEndian => of_le_bytes (reverse bs)
  end.

(** ** Results of C calls *)

Inductive res (A : Type) : Type :=
  | Ok (a : A)
  | Fail
  | Fault.
Arguments Ok {A} a.
Arguments Fail {A}.
Arguments Fault {A}.

Definition res_bind {A B : Type} (r : res A) (k : A → res B) : res B :=
  match r with
  | Ok a => k a
  | Fail => Fail
  | Fault => Fault
  end.

#[export] Instance res_ret : MRet res := λ A a, Ok a.
#[export] Instance res_mbind : MBind res := λ A B k r, res_bind r k.

Definition of_option {A : Type} (o : option A) : res A :=
  match o with
  | Some a => Ok a
  | None => Fail
  end.

Definition ASSERT (b : bool) : res unit := if b then Ok tt else Fault.

(** ** Buffers: bounds-checked reads and writes *)

Definition blen (buf : list Z) : Z := Z.of_nat (length buf).

(** Read [len] bytes at offset [off]. *)
Definition peek (off len : Z) (buf : list Z) : res (list Z) :=
  if bool_decide (0 ≤ off ∧ 0 ≤ len ∧ off + len ≤ blen buf)
  then Ok (take (Z.to_nat len) (drop (Z.to_nat off) buf))
  else Fault.

(** [memcpy(buf + off, src, length src)]. *)
Definition poke (off : Z) (src buf : list Z) : res (list Z) :=
  if bool_decide (0 ≤ off ∧ off + blen src ≤ blen buf)
  then Ok (take (Z.to_nat off) buf ++ src ++ drop (Z.to_nat off + length src) buf)
  else Fault.

Definition peek8 (off : Z) (buf : list Z) : res Z :=
  res_bind (peek off 1 buf) (λ bs, Ok (u8 (default 0 (head bs)))).

Definition peek16 (e : endianness) (off : Z) (buf : list Z) : res Z :=
  res_bind (peek off 2 buf) (λ bs,
    Ok (load16 e (default 0 (bs !! 0%nat)) (default 0 (bs !! 1%nat)))).

Definition peek64 (e : endianness) (off : Z) (buf : list Z) : res Z :=
  res_bind (peek off 8 buf) (λ bs, Ok (load64 e bs)).

(** [calloc(1, n)]: a zeroed buffer. *)
Definition calloc (n : Z) : list Z := replicate (Z.to_nat n) 0.

(** [memcmp(a, b, n) == 0] for two [n]-byte regions. *)
Definition memcmp_eq (a b : list Z) : bool := bool_decide (a = b).

(** ** storage.h: the layout of the metadata record *)

Definition STORAGE_ALIGNMENT : Z := 64.

Definition roundup2 (x m : Z) : Z := Z.land (x + (m - 1)) (Z.lnot (m - 1)).

Definition STORAGE_ALIGN (x : Z) : Z := roundup2 x STORAGE_ALIGNMENT.

(** Offsets of the members of [rvault_hdr_t] declared in storage.h
    (packed): [ver], [cipher], [iv_len], [kp_len]. *)
Definition OFF_VER : Z := 0.
Definition OFF_CIPHER : Z := 1.
Definition OFF_IV_LEN : Z := 2.
Definition OFF_KP_LEN : Z := 4.

(** Modelled from the spec: the members [uid] and [flags] that rvault.c
    reads and writes are missing from the declaration of [rvault_hdr_t]
    in storage.h; the layout table of the metadata file places the
    16-byte [uid] and the one-byte [flags] after [kp_len], inside the
    packed prefix. *)
Definition UID_LEN : Z := 16.
Definition OFF_UID : Z := 6.
Definition OFF_FLAGS : Z := 22.
Definition SIZEOF_RVAULT_HDR : Z := 23.

Definition RVAULT_HDR_LEN : Z := Eval cbv in STORAGE_ALIGN SIZEOF_RVAULT_HDR.

(** Modelled from the spec: [HMAC_SHA3_256_BUFLEN] (crypto.h) is the
    length of the 32-byte tag; [RVAULT_FLAG_NOAUTH] is bit 1 of the flags
    byte. *)
Definition HMAC_SHA3_256_BUFLEN : Z := 32.
Definition RVAULT_FLAG_NOAUTH : Z := 1.

Section Layout.
Variable e : endianness.

Definition hdr_ver (h : list Z) : res Z := peek8 OFF_VER h.
Definition hdr_cipher (h : list Z) : res Z := peek8 OFF_CIPHER h.
Definition hdr_flags (h : list Z) : res Z := peek8 OFF_FLAGS h.
Definition hdr_uid (h : list Z) : res (list Z) := peek OFF_UID UID_LEN h.
(** The raw (host-order) values of the two length members. *)
Definition hdr_iv_len (h : list Z) : res Z := peek16 e OFF_IV_LEN h.
Definition hdr_kp_len (h : list Z) : res Z := peek16 e OFF_KP_LEN h.

(** [RVAULT_HDR_TO_IV(h)], as an offset into the record. *)
Definition RVAULT_HDR_TO_IV : Z := RVAULT_HDR_LEN.

(** [RVAULT_HDR_TO_KP(h)] *)
Definition RVAULT_HDR_TO_KP (h : list Z) : res Z :=
  res_bind (hdr_iv_len h) (λ iv_len, Ok (RVAULT_HDR_TO_IV + be16toh e iv_len)).

(** [RVAULT_HDR_TO_HMAC(h)] *)
Definition RVAULT_HDR_TO_HMAC (h : list Z) : res Z :=
  res_bind (RVAULT_HDR_TO_KP h) (λ kp,
  res_bind (hdr_kp_len h) (λ kp_len, Ok (kp + be16toh e kp_len))).

(** [RVAULT_HMAC_DATALEN(h)] *)
Definition RVAULT_HMAC_DATALEN (h : list Z) : res Z :=
  res_bind (hdr_iv_len h) (λ iv_len,
  res_bind (hdr_kp_len h) (λ kp_len,
    Ok (RVAULT_HDR_LEN + be16toh e iv_len + be16toh e kp_len))).

(** [RVAULT_FILE_LEN(h)] *)
Definition RVAULT_FILE_LEN (h : list Z) : res Z :=
  res_bind (RVAULT_HMAC_DATALEN h) (λ n, Ok (n + HMAC_SHA3_256_BUFLEN)).

(** The regions a callee is handed: a pointer into the record and a
    length. *)

(** [iv_len = be16toh(hdr->iv_len); iv = RVAULT_HDR_TO_IV(hdr)] *)
Definition hdr_iv (h : list Z) : res (list Z) :=
  res_bind (hdr_iv_len h) (λ iv_len, peek RVAULT_HDR_TO_IV (be16toh e iv_len) h).

(** [kp_len = hdr->kp_len; kp = RVAULT_HDR_TO_KP(hdr)]: the pointer and
    the raw length that rvault.c hands on.  Only the two members of the
    header are read; the pointer stands for the bytes of the record from
    that offset on, of which a callee given [kp_len] can read the first
    [kp_len], or all that are left when the record is shorter. *)
Definition hdr_kp (h : list Z) : res (list Z * Z) :=
  res_bind (hdr_kp_len h) (λ kp_len,
  res_bind (RVAULT_HDR_TO_KP h) (λ off,
    Ok (take (Z.to_nat kp_len) (drop (Z.to_nat off) h), kp_len))).

(** [RVAULT_HDR_TO_HMAC(hdr)], [HMAC_SHA3_256_BUFLEN] bytes. *)
Definition hdr_hmac (h : list Z) : res (list Z) :=
  res_bind (RVAULT_HDR_TO_HMAC h) (λ off, peek off HMAC_SHA3_256_BUFLEN h).

(** The first [RVAULT_HMAC_DATALEN(hdr)] bytes of the record. *)
Definition hdr_hmac_data (h : list Z) : res (list Z) :=
  res_bind (RVAULT_HMAC_DATALEN h) (λ n, peek 0 n h).
End Layout.

(** ** storage.h: the layout of an encrypted file object *)

(** Offsets of the members of [fileobj_hdr_t] (packed): [ver], [_pad0],
    [hmac_len], [edata_len]. *)
Definition FOFF_VER : Z := 0.
Definition FOFF_PAD0 : Z := 1.
Definition FOFF_HMAC_LEN : Z := 2.
Definition FOFF_EDATA_LEN : Z := 4.
Definition SIZEOF_FILEOBJ_HDR : Z := 12.

Definition FILEOBJ_HDR_LEN : Z := Eval cbv in STORAGE_ALIGN SIZEOF_FILEOBJ_HDR.

(** The sums of these macros have an operand of type [uint64_t], the
    value of [be64toh], and so are taken modulo [2^64]; the pointer of
    [FILEOBJ_HDR_TO_HMAC] is an offset from the header, on a host with
    64-bit pointers. *)
Section FileobjLayout.
Variable e : endianness.

(** [FILEOBJ_HDR_TO_DATA(h)], as an offset into the file. *)
Definition FILEOBJ_HDR_TO_DATA : Z := FILEOBJ_HDR_LEN.

(** [FILEOBJ_EDATA_LEN(h)] *)
Definition FILEOBJ_EDATA_LEN (h : list Z) : res Z :=
  res_bind (peek64 e FOFF_EDATA_LEN h) (λ raw, Ok (be64toh e raw)).

(** [FILEOBJ_HDR_TO_HMAC(h)] *)
Definition FILEOBJ_HDR_TO_HMAC (h : list Z) : res Z :=
  res_bind (FILEOBJ_EDATA_LEN h) (λ n, Ok (u64 (FILEOBJ_HDR_TO_DATA + n))).

(** [FILEOBJ_HMAC_DATALEN(h)] *)
Definition FILEOBJ_HMAC_DATALEN (h : list Z) : res Z :=
  res_bind (FILEOBJ_EDATA_LEN h) (λ n, Ok (u64 (FILEOBJ_HDR_LEN + n))).

(** [FILEOBJ_FILE_LEN(h)] *)
Definition FILEOBJ_FILE_LEN (h : list Z) : res Z :=
  res_bind (FILEOBJ_HMAC_DATALEN h) (λ n,
  res_bind (peek16 e FOFF_HMAC_LEN h) (λ hmac_len,
    Ok (u64 (n + be16toh e hmac_len)))).
End FileobjLayout.

(** ** The vault object and the external interfaces *)

(** [rvault_t] (rvault.h), over the type [C] of crypto states.  A file
    object on [file_list] is identified by a handle. *)
Record rvault_t (C : Type) : Type := mk_rvault {
  v_base_path : option string;
  v_uid : list Z;
  v_cipher : Z;
  v_crypto : option C;
  v_server_url : option string;
  v_file_list : list nat;
  v_file_count : Z;
}.
Arguments mk_rvault {C}.
Arguments v_base_path {C}.
Arguments v_uid {C}.
Arguments v_cipher {C}.
Arguments v_crypto {C}.
Arguments v_server_url {C}.
Arguments v_file_list {C}.
Arguments v_file_count {C}.

Definition set_base_path {C} (p : option string) (v : rvault_t C) : rvault_t C :=
  mk_rvault p (v_uid v) (v_cipher v) (v_crypto v) (v_server_url v)
            (v_file_list v) (v_file_count v).

Definition set_crypto {C} (c : option C) (v : rvault_t C) : rvault_t C :=
  mk_rvault (v_base_path v) (v_uid v) (v_cipher v) c (v_server_url v)
            (v_file_list v) (v_file_count v).

(** The parsed recovery file (recovery.h): the two sections used here. *)
Record rsections : Type := mk_rsections {
  RECOVERY_METADATA : list Z;
  RECOVERY_EKEY : list Z;
}.

(** Modelled from the spec: cipher identifier zero is reserved for
    "none" ([CIPHER_NONE], crypto.h). *)
Definition CIPHER_NONE : Z := 0.

(** Everything rvault.c calls but does not define.  Random draws
    ([crypto_gen_iv], [kdf_create_params]) are fixed by the platform: a
    theorem over every platform covers every draw.
    [crypto_set_passphrasekey] takes the KDF parameters as the bytes at
    its pointer argument together with its length argument [kp_len].
    [dir_st_size] is the [st_size] that [fstat] reports for a directory
    with the given entries, which depends on the file system. *)
Class Platform : Type := {
  host_endian : endianness;
  crypto_t : Type;
  server_t : Type;
  RVAULT_ABI_VER : Z;
  CRYPTO_CIPHER_PRIMARY : Z;
  RVAULT_META_PREF : string;
  RVAULT_META_FILE : string;
  crypto_cipher_id : string → Z;
  crypto_create : Z → option crypto_t;
  crypto_gen_iv : crypto_t → option (list Z);
  crypto_set_iv : crypto_t → list Z → option crypto_t;
  kdf_create_params : option (list Z);
  crypto_set_passphrasekey : crypto_t → string → list Z → Z → option crypto_t;
  crypto_set_key : crypto_t → list Z → option crypto_t;
  crypto_get_key : crypto_t → option (list Z);
  crypto_encrypt : crypto_t → list Z → option (list Z);
  crypto_decrypt : crypto_t → list Z → option (list Z);
  hmac_sha3_256 : list Z → list Z → option (list Z);
  hex_read_arbitrary_buf : string → option (list Z);
  rvault_key_set : server_t → rvault_t crypto_t → option (server_t * crypto_t);
  rvault_key_get : server_t → rvault_t crypto_t → option (server_t * crypto_t);
  rvault_recovery_import : list Z → option rsections;
  rvault_resolve_path : rvault_t crypto_t → string → option string;
  rvault_resolve_vname : rvault_t crypto_t → string → option string;
  dir_st_size : list string → Z;
}.

(** ** The file system *)

Record file : Type := mk_file { f_mode : Z; f_data : list Z }.

(** Regular files and directories by canonical path; a directory maps to
    the entries [readdir] yields, in order.  [fs_free] is the number of
    bytes the device still accepts. *)
Record fs_t : Type := mk_fs {
  fs_files : gmap string file;
  fs_dirs : gmap string (list string);
  fs_free : Z;
}.

Definition O_RDONLY : Z := 0.
Definition O_WRONLY : Z := 1.
Definition O_CREAT : Z := 64.
Definition O_EXCL : Z := 128.
Definition O_SYNC : Z := 1052672.

Definition O_ACCMODE : Z := 3.

Definition ENOENT : Z := 2.
Definition EEXIST : Z := 17.
Definition EISDIR : Z := 21.

Definition RVAULT_META_MODE : Z := 384. (* 0600 *)

Definition has_flag (flags f : Z) : bool := negb (Z.land flags f =? 0).

(** [realpath]: paths are kept canonical, so it is the identity on the
    paths that exist. *)
Definition realpath (fs : fs_t) (path : string) : option string :=
  if bool_decide (is_Some (fs_dirs fs !! path) ∨ is_Some (fs_files fs !! path))
  then Some path else None.

(** [stat] followed by the test [(st_mode & S_IFMT) == S_IFDIR]. *)
Definition is_directory (fs : fs_t) (path : string) : bool :=
  bool_decide (is_Some (fs_dirs fs !! path)).

(** [open(2)]; a descriptor is the path of the file or directory it
    refers to.  A directory opens for reading only: with [O_CREAT] or
    an access mode that writes the call fails with [EISDIR]. *)
Definition sys_open (fs : fs_t) (fpath : string) (flags mode : Z)
  : fs_t * (Z + string) :=
  let present := bool_decide (is_Some (fs_files fs !! fpath)
                              ∨ is_Some (fs_dirs fs !! fpath)) in
  if has_flag flags O_CREAT then
    if present then
      if has_flag flags O_EXCL then (fs, inl EEXIST)
      else if bool_decide (is_Some (fs_files fs !! fpath)) then (fs, inr fpath)
      else (fs, inl EISDIR)
    else (mk_fs (<[fpath := mk_file mode []]> (fs_files fs)) (fs_dirs fs) (fs_free fs),
          inr fpath)
  else
    if bool_decide (is_Some (fs_files fs !! fpath)) then (fs, inr fpath)
    else if bool_decide (is_Some (fs_dirs fs !! fpath)) then
      if Z.land flags O_ACCMODE =? O_RDONLY then (fs, inr fpath)
      else (fs, inl EISDIR)
    else (fs, inl ENOENT).

(** [fs_file_size] (sys.h): the [st_size] of the descriptor. *)
Definition fs_file_size `{Platform} (fs : fs_t) (fd : string) : Z :=
  match fs_files fs !! fd with
  | Some f => blen (f_data f)
  | None =>
      match fs_dirs fs !! fd with
      | Some entries => dir_st_size entries
      | None => -1
      end
  end.

(** [safe_mmap] (sys.h) of a whole file, read-only; a directory cannot
    be mapped. *)
Definition safe_mmap (fs : fs_t) (fd : string) : option (list Z) :=
  f_data <$> fs_files fs !! fd.

(** [fs_write] (sys.h) on a descriptor positioned at offset zero: writes
    as much of the buffer as the device accepts and returns the count. *)
Definition fs_write (fs : fs_t) (fd : string) (buf : list Z) (len : Z)
  : fs_t * Z :=
  match fs_files fs !! fd with
  | Some f =>
      let n := Z.max 0 (Z.min len (fs_free fs)) in
      let data := take (Z.to_nat n) buf ++ drop (Z.to_nat n) (f_data f) in
      (mk_fs (<[fd := mk_file (f_mode f) data]> (fs_files fs)) (fs_dirs fs)
             (fs_free fs - n), n)
  | None => (fs, -1)
  end.

(** ** Messages of [app_log] and [app_elog] *)

Inductive log_msg : Type :=
  | MSG_location_not_found (path : string)
  | MSG_not_a_directory (rpath : string)
  | MSG_could_not (what fpath : string) (errno : Z)
  | MSG_metadata_corrupted
  | MSG_invalid_cipher (cipher_str : string)
  | MSG_invalid_uid
  | MSG_usage_srvurl
  | MSG_debug_failed (func : string)
  | MSG_incompatible_version (ver : Z)
  | MSG_verification_failed.

(** Release actions of [rvault_close], in program order. *)
Inductive release (C : Type) : Type :=
  | REL_fileobj (fobj : nat)
  | REL_base_path (p : string)
  | REL_crypto (c : C)
  | REL_vault.
Arguments REL_fileobj {C} fobj.
Arguments REL_base_path {C} p.
Arguments REL_crypto {C} c.
Arguments REL_vault {C}.

(** ** The state threaded through the vault operations *)

Record world_t (S : Type) : Type := mk_world {
  w_fs : fs_t;
  w_srv : S;
  w_log : list log_msg;
}.
Arguments mk_world {S} w_fs w_srv w_log.
Arguments w_fs {S}.
Arguments w_srv {S}.
Arguments w_log {S}.

(** The world of a platform: its key server is the remote part. *)
Abbreviation world := (world_t server_t).

(** State and failure: a computation maps a world to a result and the
    world it leaves behind (also when it fails). *)
Definition M `{Platform} (A : Type) : Type := world → res A * world.

Section Monad.
Context `{P : Platform}.

#[export] Instance M_ret : MRet M := λ A a w, (Ok a, w).

#[export] Instance M_bind : MBind M := λ A B k m w,
  match m w with
  | (Ok a, w') => k a w'
  | (Fail, w') => (Fail, w')
  | (Fault, w') => (Fault, w')
  end.

Definition fail {A} : M A := λ w, (Fail, w).
Definition lift {A} (r : res A) : M A := λ w, (r, w).
Definition app_log (m : log_msg) : M unit :=
  λ w, (Ok tt, mk_world (w_fs w) (w_srv w) (w_log w ++ [m])).
Definition get_fs : M fs_t := λ w, (Ok (w_fs w), w).
Definition put_fs (fs : fs_t) : M unit :=
  λ w, (Ok tt, mk_world fs (w_srv w) (w_log w)).
Definition get_srv : M server_t := λ w, (Ok (w_srv w), w).
Definition put_srv (s : server_t) : M unit :=
  λ w, (Ok tt, mk_world (w_fs w) s (w_log w)).
End Monad.

Section Vault.
Context `{P : Platform}.

Local Abbreviation vault := (rvault_t crypto_t).

(** *** Closing *)

(** Modelled from the spec: [fileobj_close] (fileobj.c) is not among
    the sources; closing a file object removes it from the vault's
    [file_list] and the vault then holds one open file less. *)
Fixpoint list_unlink (fobj : nat) (l : list nat) : list nat :=
  match l with
  | [] => []
  | x :: l' => if bool_decide (x = fobj) then l' else x :: list_unlink fobj l'
  end.

Definition fileobj_close (fobj : nat) (v : vault) : vault :=
  mk_rvault (v_base_path v) (v_uid v) (v_cipher v) (v_crypto v)
            (v_server_url v) (list_unlink fobj (v_file_list v))
            (v_file_count v - 1).

(** [rvault_close_files]: the [while] loop, run for at most [fuel]
    iterations ([None] when the fuel runs out), then the [ASSERT]. *)
Fixpoint rvault_close_files (fuel : nat) (v : vault)
  : option (res (vault * list (release crypto_t))) :=
  match head (v_file_list v) with
  | None =>
      Some (res_bind (ASSERT (v_file_count v =? 0)) (λ _, Ok (v, [])))
  | Some fobj =>
      match fuel with
      | O => None
      | S fuel' =>
          match rvault_close_files fuel' (fileobj_close fobj v) with
          | Some (Ok (v', rel)) => Some (Ok (v', REL_fileobj fobj :: rel))
          | r => r
          end
      end
  end.

(** [rvault_close] *)
Definition rvault_close (fuel : nat) (v : vault)
  : option (res (list (release crypto_t))) :=
  match rvault_close_files fuel v with
  | None => None
  | Some r =>
      Some (res_bind r (λ '(v', rel),
        let rel_path :=
          match v_base_path v' with
          | Some p => [REL_base_path p]
          | None => []
          end in
        let rel_crypto :=
          match v_crypto v' with
          | Some c => [REL_crypto c]
          | None => []
          end in
        Ok (rel ++ rel_path ++ rel_crypto ++ [REL_vault])))
  end.

(** The error paths [rvault_close(vault); return NULL].  The vaults
    closed there hold no file object, so the loop of
    [rvault_close_files] needs no iteration. *)
Definition close_and_fail {A} (v : vault) : M A :=
  match rvault_close 0 v with
  | Some (Ok _) => fail
  | _ => lift Fault
  end.

(** *** Metadata file *)

(** [get_vault_path] *)
Definition get_vault_path (path : string) : M string :=
  fs ← get_fs;
  match realpath fs path with
  | None => app_log (MSG_location_not_found path);; fail
  | Some rpath =>
      if is_directory fs rpath then mret rpath
      else app_log (MSG_not_a_directory rpath);; fail
  end.

(** [asprintf(&fpath, "%s/%s", rpath, RVAULT_META_FILE)] *)
Definition meta_path (rpath : string) : string :=
  rpath +:+ "/" +:+ RVAULT_META_FILE.

(** [open_metadata]: yields the descriptor and the normalized path. *)
Definition open_metadata (path : string) (flags : Z) : M (string * string) :=
  rpath ← get_vault_path path;
  let fpath := meta_path rpath in
  fs ← get_fs;
  match sys_open fs fpath flags RVAULT_META_MODE with
  | (_, inl errno) =>
      app_log (MSG_could_not (if has_flag flags O_CREAT then "create" else "open")
                             fpath errno);;
      fail
  | (fs', inr fd) => put_fs fs';; mret (fd, rpath)
  end.

(** [open_metadata_mmap]: yields the mapping, the normalized path and
    the length of the file. *)
Definition open_metadata_mmap (base_path : string) : M (list Z * string * Z) :=
  '(fd, rpath) ← open_metadata base_path O_RDONLY;
  fs ← get_fs;
  let len := fs_file_size fs fd in
  if len <? RVAULT_HDR_LEN then
    app_log MSG_metadata_corrupted;; fail
  else
    addr ← lift (of_option (safe_mmap fs fd));
    mret (addr, rpath, len).

(** [rvault_hmac_compute] *)
Definition rvault_hmac_compute (crypto : crypto_t) (hdr : list Z) : res (list Z) :=
  match crypto_get_key crypto with
  | None => Fault
  | Some key =>
      data ← hdr_hmac_data host_endian hdr;
      match hmac_sha3_256 key data with
      | None => Fail
      | Some hmac => Ok (resize (Z.to_nat HMAC_SHA3_256_BUFLEN) 0 hmac)
      end
  end.

(** [rvault_hmac_verify] *)
Definition rvault_hmac_verify (crypto : crypto_t) (hdr : list Z) : res unit :=
  hmac_comp ← rvault_hmac_compute crypto hdr;
  hmac_rec ← hdr_hmac host_endian hdr;
  if memcmp_eq hmac_rec hmac_comp then Ok tt else Fail.

(** *** Initialisation *)

(** [rvault_init], "Setup the vault header": the record is allocated
    and the header members, the IV and the KDF parameters are stored.
    Yields the record and [file_len]. *)
Definition rvault_init_hdr (cipher flags : Z) (iv kp : list Z)
  : res (list Z * Z) :=
  let iv_len := blen iv in
  let kp_len := blen kp in
  let file_len := RVAULT_HDR_LEN + iv_len + kp_len + HMAC_SHA3_256_BUFLEN in
  let hdr := calloc file_len in
  ASSERT (cipher <=? UINT8_MAX);;
  ASSERT (flags <=? UINT8_MAX);;
  hdr ← poke OFF_VER [u8 RVAULT_ABI_VER] hdr;
  hdr ← poke OFF_CIPHER [u8 cipher] hdr;
  hdr ← poke OFF_FLAGS [u8 flags] hdr;
  hdr ← poke OFF_KP_LEN (store16 host_endian (u16 kp_len)) hdr;
  hdr ← poke OFF_IV_LEN (store16 host_endian (htobe16 host_endian iv_len)) hdr;
  hdr ← poke RVAULT_HDR_TO_IV iv hdr;
  kp_off ← RVAULT_HDR_TO_KP host_endian hdr;
  hdr ← poke kp_off kp hdr;
  mret (hdr, file_len).

(** [rvault_init] up to and including the HMAC: everything before the
    metadata file is touched. *)
Definition rvault_init_record (server : option string) (pwd uid_str : string)
    (cipher_str : option string) (flags : Z) : M (list Z * Z) :=
  cipher ← match cipher_str with
           | Some s =>
               let c := crypto_cipher_id s in
               if c =? CIPHER_NONE
               then app_log (MSG_invalid_cipher s);; fail
               else mret c
           | None => mret CRYPTO_CIPHER_PRIMARY
           end;
  crypto ← lift (of_option (crypto_create cipher));
  iv ← lift (of_option (crypto_gen_iv crypto));
  crypto ← lift (of_option (crypto_set_iv crypto iv));
  kp ← lift (of_option kdf_create_params);
  lift (ASSERT (blen kp <=? UINT8_MAX));;
  lift (ASSERT (blen iv <=? UINT16_MAX));;
  crypto ← lift (of_option (crypto_set_passphrasekey crypto pwd kp (blen kp)));
  '(hdr, file_len) ← lift (rvault_init_hdr cipher flags iv kp);
  uid ← match hex_read_arbitrary_buf uid_str with
        | Some uid =>
            if blen uid =? UID_LEN then mret uid
            else app_log MSG_invalid_uid;; fail
        | None => app_log MSG_invalid_uid;; fail
        end;
  hdr ← lift (poke OFF_UID uid hdr);
  crypto ← (if Z.land flags RVAULT_FLAG_NOAUTH =? 0 then
              match server with
              | None => app_log MSG_usage_srvurl;; fail
              | Some url =>
                  srv ← get_srv;
                  let dummy := mk_rvault None uid 0 (Some crypto) (Some url) [] 0 in
                  match rvault_key_set srv dummy with
                  | None => app_log (MSG_debug_failed "rvault_init");; fail
                  | Some (srv', crypto') => put_srv srv';; mret crypto'
                  end
              end
            else mret crypto);
  hmac ← lift (rvault_hmac_compute crypto hdr);
  off ← lift (RVAULT_HDR_TO_HMAC host_endian hdr);
  hdr ← lift (poke off hmac hdr);
  mret (hdr, file_len).

Definition INIT_OPEN_FLAGS : Z :=
  Z.lor (Z.lor (Z.lor O_CREAT O_EXCL) O_WRONLY) O_SYNC.

(** [rvault_init], "Open the metadata file and store the record". *)
Definition rvault_init_store (path : string) (hdr : list Z) (file_len : Z)
  : M unit :=
  '(fd, _) ← open_metadata path INIT_OPEN_FLAGS;
  fs ← get_fs;
  let '(fs', n) := fs_write fs fd hdr file_len in
  put_fs fs';;
  if n =? file_len then mret tt else fail.

(** [rvault_init]: [Ok tt] is the return value 0, [Fail] is -1. *)
Definition rvault_init (path : string) (server : option string)
    (pwd uid_str : string) (cipher_str : option string) (flags : Z) : M unit :=
  '(hdr, file_len) ← rvault_init_record server pwd uid_str cipher_str flags;
  rvault_init_store path hdr file_len.

(** *** Opening *)

(** [rvault_open_hdr] *)
Definition rvault_open_hdr (hdr : list Z) (server : option string)
    (file_len : Z) : M vault :=
  ver ← lift (hdr_ver hdr);
  if negb (ver =? RVAULT_ABI_VER) then
    app_log (MSG_incompatible_version ver);; fail
  else
    flen ← lift (RVAULT_FILE_LEN host_endian hdr);
    if negb (flen =? file_len) then
      app_log MSG_metadata_corrupted;; fail
    else
      cipher ← lift (hdr_cipher hdr);
      uid ← lift (hdr_uid hdr);
      let vault := mk_rvault None uid cipher None server [] 0 in
      match crypto_create cipher with
      | None => close_and_fail vault
      | Some c =>
          let vault := set_crypto (Some c) vault in
          iv ← lift (hdr_iv host_endian hdr);
          match crypto_set_iv c iv with
          | None => close_and_fail vault
          | Some c' => mret (set_crypto (Some c') vault)
          end
      end.

(** [rvault_open] up to the installation of the key: the metadata is
    mapped, the header parsed, the passphrase key derived and, in
    authenticated mode, the key fetched.  Yields the mapping, the vault
    and its crypto state. *)
Definition rvault_open_key (path : string) (server : option string) (pwd : string)
  : M (list Z * vault * crypto_t) :=
  '(hdr, base_path, file_len) ← open_metadata_mmap path;
  vault ← rvault_open_hdr hdr server file_len;
  let vault := set_base_path (Some base_path) vault in
  crypto ← lift (match v_crypto vault with Some c => Ok c | None => Fault end);
  '(kp, kp_len) ← lift (hdr_kp host_endian hdr);
  match crypto_set_passphrasekey crypto pwd kp kp_len with
  | None => close_and_fail vault
  | Some crypto =>
      let vault := set_crypto (Some crypto) vault in
      flags ← lift (hdr_flags hdr);
      if Z.land flags RVAULT_FLAG_NOAUTH =? 0 then
        match server with
        | None => app_log MSG_usage_srvurl;; close_and_fail vault
        | Some _ =>
            srv ← get_srv;
            match rvault_key_get srv vault with
            | None => close_and_fail vault
            | Some (srv', crypto') =>
                put_srv srv';;
                mret (hdr, set_crypto (Some crypto') vault, crypto')
            end
        end
      else mret (hdr, vault, crypto)
  end.

(** [rvault_open]: the key is installed, then "Verify the HMAC". *)
Definition rvault_open (path : string) (server : option string) (pwd : string)
  : M vault :=
  '(hdr, vault, crypto) ← rvault_open_key path server pwd;
  match rvault_hmac_verify crypto hdr with
  | Ok _ => mret vault
  | Fail => app_log MSG_verification_failed;; close_and_fail vault
  | Fault => lift Fault
  end.

(** [rvault_open_ekey] *)
Definition rvault_open_ekey (path recovery : string) : M vault :=
  fs ← get_fs;
  match fs_files fs !! recovery with
  | None => app_log (MSG_could_not "open" recovery ENOENT);; fail
  | Some f =>
      match rvault_recovery_import (f_data f) with
      | None => fail
      | Some sections =>
          let hdr := RECOVERY_METADATA sections in
          let hdrlen := blen hdr in
          let key := RECOVERY_EKEY sections in
          base_path ← get_vault_path path;
          vault ← rvault_open_hdr hdr None hdrlen;
          let vault := set_base_path (Some base_path) vault in
          crypto ← lift (match v_crypto vault with Some c => Ok c | None => Fault end);
          match crypto_set_key crypto key with
          | None => close_and_fail vault
          | Some crypto' => mret (set_crypto (Some crypto') vault)
          end
      end
  end.

(** *** Enumeration *)

(** [strcmp] and [strncmp] of <string.h>: negative, zero or positive
    as the first string is below, equal to or above the second; the
    value is the difference of the first two characters that differ.
    A Rocq string may hold the character NUL, so the end of a string
    counts as [-1], below every character. *)
Definition char_code (c : Ascii.ascii) : Z := Z.of_N (Ascii.N_of_ascii c).

Fixpoint strcmp (s1 s2 : string) : Z :=
  match s1, s2 with
  | EmptyString, EmptyString => 0
  | EmptyString, String c2 _ => -1 - char_code c2
  | String c1 _, EmptyString => char_code c1 + 1
  | String c1 r1, String c2 r2 =>
      if bool_decide (c1 = c2) then strcmp r1 r2
      else char_code c1 - char_code c2
  end.

Fixpoint strncmp (s1 s2 : string) (n : nat) {struct n} : Z :=
  match n with
  | O => 0
  | S n' =>
      match s1, s2 with
      | EmptyString, EmptyString => 0
      | EmptyString, String c2 _ => -1 - char_code c2
      | String c1 _, EmptyString => char_code c1 + 1
      | String c1 r1, String c2 r2 =>
          if bool_decide (c1 = c2) then strncmp r1 r2 n'
          else char_code c1 - char_code c2
      end
  end.

(** [vname[0] == '.'] *)
Definition first_is_dot (vname : string) : bool :=
  match vname with
  | String c _ => bool_decide (c = "."%char)
  | EmptyString => false
  end.

(** Modelled from the spec: [RVAULT_META_PREFLEN] (rvault.h) is the
    length of the metadata file prefix [RVAULT_META_PREF]. *)
Definition RVAULT_META_PREFLEN : nat := String.length RVAULT_META_PREF.

(** The [while ((dp = readdir(dirp)) != NULL)] loop of
    [rvault_iter_dir] over the entries still to come.  The callback
    receives [arg], the name and the directory entry (its [d_name]),
    and updates [arg].  Yields the return value and the final [arg]. *)
Fixpoint iter_dir_loop {A : Type} (v : vault) (iterfunc : A → string → string → A)
    (entries : list string) (arg : A) : Z * A :=
  match entries with
  | [] => (0, arg)
  | vname :: rest =>
      if (strcmp vname "." =? 0) || (strcmp vname ".." =? 0) then
        iter_dir_loop v iterfunc rest (iterfunc arg vname vname)
      else if first_is_dot vname then
        iter_dir_loop v iterfunc rest arg
      else if strncmp vname RVAULT_META_PREF RVAULT_META_PREFLEN =? 0 then
        iter_dir_loop v iterfunc rest arg
      else
        match rvault_resolve_vname v vname with
        | None => (-1, arg)
        | Some name => iter_dir_loop v iterfunc rest (iterfunc arg name vname)
        end
  end.

(** [rvault_iter_dir] *)
Definition rvault_iter_dir {A : Type} (fs : fs_t) (v : vault) (path : string)
    (arg : A) (iterfunc : A → string → string → A) : Z * A :=
  match rvault_resolve_path v path with
  | None => (-1, arg)
  | Some vpath =>
      match fs_dirs fs !! vpath with
      | None => (-1, arg)
      | Some entries => iter_dir_loop v iterfunc entries arg
      end
  end.
End Vault.

(** ** A small executable platform

    A stand-in for the absent collaborators, used to run the vault
    operations on concrete inputs.  Its "cryptography" is a toy: keys
    are derived by padding, the tag is a keyed checksum and the cipher an
    XOR stream.  Nothing proved for every platform relies on it. *)
Module Toy.

Record crypto : Type := mk_crypto {
  tc_cipher : Z;
  tc_iv : option (list Z);
  tc_key : option (list Z);
}.

Definition IV_LEN : nat := 16.
Definition KEY_LEN : nat := 32.
Definition KP_LEN : nat := 37.

Definition create (c : Z) : option crypto :=
  if bool_decide (1 ≤ c ≤ 4) then Some (mk_crypto c None None) else None.

Definition cipher_id (s : string) : Z :=
  if bool_decide (s = "aes-256-cbc") then 1
  else if bool_decide (s = "chacha20") then 2
  else if bool_decide (s = "aes-256-gcm") then 3
  else if bool_decide (s = "chacha20-poly1305") then 4
  else CIPHER_NONE.

Definition gen_iv (c : crypto) : option (list Z) :=
  Some (Z.of_nat <$> seq 1 IV_LEN).

Definition set_iv (c : crypto) (iv : list Z) : option crypto :=
  if bool_decide (length iv = IV_LEN)
  then Some (mk_crypto (tc_cipher c) (Some iv) (tc_key c)) else None.

Definition create_params : option (list Z) := Some (replicate KP_LEN 9).

Fixpoint string_bytes (s : string) : list Z :=
  match s with
  | EmptyString => []
  | String c r => Z.of_N (N_of_ascii c) :: string_bytes r
  end.

Definition kdf (pwd : string) (kp : list Z) : list Z :=
  resize KEY_LEN 0 (string_bytes pwd ++ kp).

Definition set_passphrasekey (c : crypto) (pwd : string) (kp : list Z)
    (kp_len : Z) : option crypto :=
  if bool_decide (kp_len = Z.of_nat KP_LEN ∧ length kp = KP_LEN)
  then Some (mk_crypto (tc_cipher c) (tc_iv c) (Some (kdf pwd kp))) else None.

Definition set_key (c : crypto) (key : list Z) : option crypto :=
  if bool_decide (length key = KEY_LEN)
  then Some (mk_crypto (tc_cipher c) (tc_iv c) (Some key)) else None.

Fixpoint xor_stream (key data : list Z) : list Z :=
  match data, key with
  | d :: data', k :: key' => Z.lxor d k :: xor_stream key' data'
  | _, _ => data
  end.

Definition encrypt (c : crypto) (data : list Z) : option (list Z) :=
  key ← tc_key c; Some (xor_stream key data).

(** A positional checksum. *)
Definition checksum (l : list Z) : Z := foldr (λ x acc, x + 3 * acc) 0 l.

Definition hmac (key data : list Z) : option (list Z) :=
  Some ((λ i, (checksum data + (Z.of_nat i + 1) * checksum key
               + blen data) `mod` 256) <$> seq 0 32).

Definition hex_digit (c : ascii) : option Z :=
  let n := Z.of_N (N_of_ascii c) in
  if bool_decide (48 ≤ n ≤ 57) then Some (n - 48)
  else if bool_decide (97 ≤ n ≤ 102) then Some (n - 87)
  else if bool_decide (65 ≤ n ≤ 70) then Some (n - 55)
  else None.

(** Hexadecimal digits in pairs; dashes are skipped. *)
Fixpoint hex_read (s : string) (pending : option Z) : option (list Z) :=
  match s with
  | EmptyString => match pending with None => Some [] | Some _ => None end
  | String c r =>
      if bool_decide (c = "-"%char) then hex_read r pending
      else
        d ← hex_digit c;
        match pending with
        | None => hex_read r (Some d)
        | Some h => (λ l, (16 * h + d) :: l) <$> hex_read r None
        end
  end.

(** The key server: wrapped keys by UID. *)
Definition server : Type := list (list Z * list Z).

Definition K_E : list Z := replicate KEY_LEN 66.

Definition key_set (srv : server) (v : rvault_t crypto)
  : option (server * crypto) :=
  c ← v_crypto v;
  kp ← tc_key c;
  Some ((v_uid v, xor_stream kp K_E) :: srv,
        mk_crypto (tc_cipher c) (tc_iv c) (Some K_E)).

Fixpoint find_key (uid : list Z) (srv : server) : option (list Z) :=
  match srv with
  | [] => None
  | (u, ks) :: srv' => if bool_decide (u = uid) then Some ks else find_key uid srv'
  end.

Definition key_get (srv : server) (v : rvault_t crypto)
  : option (server * crypto) :=
  c ← v_crypto v;
  kp ← tc_key c;
  ks ← find_key (v_uid v) srv;
  Some (srv, mk_crypto (tc_cipher c) (tc_iv c) (Some (xor_stream kp ks))).

(** A recovery file: one length byte, then the metadata section of
    that length, then the key section. *)
Definition recovery_import (data : list Z) : option rsections :=
  match data with
  | [] => None
  | n :: rest =>
      if bool_decide (0 ≤ n ≤ blen rest)
      then Some (mk_rsections (take (Z.to_nat n) rest) (drop (Z.to_nat n) rest))
      else None
  end.

Definition resolve_path (v : rvault_t crypto) (path : string) : option string :=
  (λ b, b +:+ path) <$> v_base_path v.

(** A stored name resolves when it carries the prefix [enc-]. *)
Definition resolve_vname (v : rvault_t crypto) (vname : string) : option string :=
  match vname with
  | String "e" (String "n" (String "c" (String "-" name))) => Some name
  | _ => None
  end.

Definition platform (e : endianness) : Platform := {|
  host_endian := e;
  crypto_t := crypto;
  server_t := server;
  RVAULT_ABI_VER := 3;
  CRYPTO_CIPHER_PRIMARY := 1;
  RVAULT_META_PREF := "rvault.";
  RVAULT_META_FILE := "rvault.metadata";
  crypto_cipher_id := cipher_id;
  crypto_create := create;
  crypto_gen_iv := gen_iv;
  crypto_set_iv := set_iv;
  kdf_create_params := create_params;
  crypto_set_passphrasekey := set_passphrasekey;
  crypto_set_key := set_key;
  crypto_get_key := tc_key;
  crypto_encrypt := encrypt;
  crypto_decrypt := encrypt;
  hmac_sha3_256 := hmac;
  hex_read_arbitrary_buf := λ s, hex_read s None;
  rvault_key_set := key_set;
  rvault_key_get := key_get;
  rvault_recovery_import := recovery_import;
  rvault_resolve_path := resolve_path;
  rvault_resolve_vname := resolve_vname;
  dir_st_size := λ entries, 4096;
|}.

Definition UID0 : string := "00000000-0000-0000-0000-000000000000".

(** An empty directory [/v] on a device with [free] bytes left. *)
Definition fs0 (free : Z) : fs_t :=
  mk_fs ∅ {[ "/v"%string := ["."; ".."]%string ]} free.

Definition world0 (e : endianness) (free : Z) : world_t (@server_t (platform e)) :=
  mk_world (fs0 free) ([] : server) [].

Definition be : Platform := platform BigEndian.
Definition le : Platform := platform LittleEndian.

(** An open vault on [/v], and a file system whose directory [/v/]
    lists the given entries. *)
Definition vault : rvault_t (@crypto_t be) :=
  mk_rvault (Some "/v"%string) [] 4 None None [] 0.

Definition listing (entries : list string) : fs_t :=
  mk_fs ∅ {[ "/v/"%string := entries ]} 0.

(** The world after a vault was initialised in [/v] on a big-endian
    host, without authentication. *)
Definition world1 : world_t (@server_t be) :=
  (@rvault_init be "/v" None "pw" UID0 None RVAULT_FLAG_NOAUTH
     (world0 BigEndian 4096)).2.

(** The metadata of that vault, and the same with a zeroed HMAC. *)
Definition metadata1 : list Z :=
  match fs_files (w_fs world1) !! "/v/rvault.metadata"%string with
  | Some f => f_data f
  | None => []
  end.

Definition metadata1_no_hmac : list Z := take 117 metadata1 ++ replicate 32 0.

(** A metadata file in authenticated mode (flags 0) whose tag is made
    under the passphrase key of ["pw"], and the world that holds it. *)
Definition forged_data : list Z :=
  [3; 1; 0; 16; 0; 37] ++ replicate 16 0 ++ [0] ++ replicate 41 0
  ++ (Z.of_nat <$> seq 1 IV_LEN) ++ replicate KP_LEN 9.

Definition forged : list Z :=
  forged_data ++ default [] (hmac (kdf "pw" (replicate KP_LEN 9)) forged_data).

Definition world_forged : world_t (@server_t be) :=
  mk_world (mk_fs {[ "/v/rvault.metadata"%string := mk_file RVAULT_META_MODE forged ]}
                  {[ "/v"%string := ["."; ".."; "rvault.metadata"]%string ]} 0)
           [] [].

(** [world1] with a recovery file [/r] made of [metadata] and the key
    [K_E]. *)
Definition world_recovery (metadata : list Z) : world_t (@server_t be) :=
  mk_world (mk_fs (<["/r"%string := mk_file RVAULT_META_MODE
                                      (blen metadata :: metadata ++ K_E)]>
                     (fs_files (w_fs world1)))
                  (fs_dirs (w_fs world1)) 0)
           [] [].

(** The header of a file object: version 1, a 32-byte tag and 300
    bytes of encrypted data; and one that announces [2^64 - 1] bytes. *)
Definition fileobj_hdr : list Z :=
  [1; 0; 0; 32] ++ [0; 0; 0; 0; 0; 0; 1; 44] ++ replicate 52 0.

Definition fileobj_hdr_huge : list Z :=
  [1; 0; 0; 32] ++ replicate 8 255 ++ replicate 52 0.

Definition URL : string := "https://keys.example.org".

(** The world after a vault was initialised in [/v] on a big-endian
    host, in authenticated mode. *)
Definition world_auth : world_t (@server_t be) :=
  (@rvault_init be "/v" (Some URL) "pw" UID0 None 0 (world0 BigEndian 4096)).2.

(** [world1] with two recovery files: [/r] made of the metadata and the
    key [K_E], [/r0] the same with a zeroed HMAC. *)
Definition world_recovery2 : world_t (@server_t be) :=
  mk_world (mk_fs (<["/r0"%string := mk_file RVAULT_META_MODE
                       (blen metadata1_no_hmac :: metadata1_no_hmac ++ K_E)]>
                     (fs_files (w_fs (world_recovery metadata1))))
                  (fs_dirs (w_fs world1)) 0)
           [] [].
End Toy.

(** ** Notions used in the statements *)

(** A computation leaves a component of the world as it found it,
    whatever its result. *)
Definition preserves `{Platform} {A X : Type} (proj : world → X) (m : M A) : Prop :=
  ∀ w, proj (m w).2 = proj w.

(** [p] is an initial segment of [s]. *)
Fixpoint starts_with (p s : string) : bool :=
  match p, s with
  | EmptyString, _ => true
  | String c p', String c' s' => bool_decide (c = c') && starts_with p' s'
  | String _ _, EmptyString => false
  end.

(** A callback that records its calls: the name it is given and the
    directory entry it comes from. *)
Definition record_call (calls : list (string * string)) (name vname : string)
  : list (string * string) := calls ++ [(name, vname)].

(** Running a callback over recorded calls. *)
Definition replay {A : Type} (iterfunc : A → string → string → A) (arg : A)
    (calls : list (string * string)) : A :=
  foldl (λ a c, iterfunc a c.1 c.2) arg calls.

(** The entry is neither a dot-file nor named with the metadata prefix. *)
Definition surfaceable `{Platform} (vname : string) : bool :=
  negb (starts_with "." vname) && negb (starts_with RVAULT_META_PREF vname).

(** The enumeration as the specification words it: [.] and [..] are
    passed through unchanged, dot-files and names with the metadata
    prefix are skipped, every other stored name is resolved to its
    logical name, and a name that fails to resolve is skipped. *)
Fixpoint surfaced `{Platform} (v : rvault_t crypto_t) (entries : list string)
  : list (string * string) :=
  match entries with
  | [] => []
  | vname :: rest =>
      if bool_decide (vname = "."%string ∨ vname = ".."%string) then
        (vname, vname) :: surfaced v rest
      else if surfaceable vname then
        match rvault_resolve_vname v vname with
        | Some name => (name, vname) :: surfaced v rest
        | None => surfaced v rest
        end
      else surfaced v rest
  end.

(** Every entry that reaches the resolver resolves. *)
Definition all_resolve `{Platform} (v : rvault_t crypto_t) (entries : list string)
  : Prop :=
  ∀ x, x ∈ entries → x ≠ "."%string → x ≠ ".."%string →
       surfaceable x = true → is_Some (rvault_resolve_vname v x).

(** [rvault_open] has mapped the metadata [hdr] of the vault in [path],
    built the vault [v] and installed the key: the metadata file is at
    least one header long, the version, the length and the cipher are
    accepted, the cipher takes the IV, the passphrase key is derived
    and, unless [NOAUTH] is set, a server is given and the key is
    fetched.  [c] is the crypto state of [v], [w'] the world left. *)
Definition key_installed `{Platform} (path : string) (server : option string)
    (pwd : string) (w : world) (hdr : list Z) (v : rvault_t crypto_t)
    (c : crypto_t) (w' : world) : Prop :=
  ∃ f cipher uid iv kp kp_len flags c0 c1 c2,
    is_Some (fs_dirs (w_fs w) !! path)
    ∧ fs_files (w_fs w) !! meta_path path = Some f
    ∧ hdr = f_data f
    ∧ RVAULT_HDR_LEN ≤ blen hdr
    ∧ hdr_ver hdr = Ok RVAULT_ABI_VER
    ∧ RVAULT_FILE_LEN host_endian hdr = Ok (blen hdr)
    ∧ hdr_cipher hdr = Ok cipher
    ∧ hdr_uid hdr = Ok uid
    ∧ crypto_create cipher = Some c0
    ∧ hdr_iv host_endian hdr = Ok iv
    ∧ crypto_set_iv c0 iv = Some c1
    ∧ hdr_kp host_endian hdr = Ok (kp, kp_len)
    ∧ crypto_set_passphrasekey c1 pwd kp kp_len = Some c2
    ∧ hdr_flags hdr = Ok flags
    ∧ v = mk_rvault (Some path) uid cipher (Some c) server [] 0
    ∧ (if Z.land flags RVAULT_FLAG_NOAUTH =? 0
       then is_Some server
            ∧ rvault_key_get (w_srv w)
                (mk_rvault (Some path) uid cipher (Some c2) server [] 0)
              = Some (w_srv w', c)
            ∧ w' = mk_world (w_fs w) (w_srv w') (w_log w)
       else c = c2 ∧ w' = w).

(** The platform [P] with other functions in place of the passphrase
    key derivation, the HMAC and the two calls to the key server. *)
Definition replace_keying (P : Platform)
    (kdf : @crypto_t P → string → list Z → Z → option (@crypto_t P))
    (hmac : list Z → list Z → option (list Z))
    (key_set key_get : @server_t P → rvault_t (@crypto_t P)
                       → option (@server_t P * @crypto_t P))
  : Platform := {|
  host_endian := @host_endian P;
  crypto_t := @crypto_t P;
  server_t := @server_t P;
  RVAULT_ABI_VER := @RVAULT_ABI_VER P;
  CRYPTO_CIPHER_PRIMARY := @CRYPTO_CIPHER_PRIMARY P;
  RVAULT_META_PREF := @RVAULT_META_PREF P;
  RVAULT_META_FILE := @RVAULT_META_FILE P;
  crypto_cipher_id := @crypto_cipher_id P;
  crypto_create := @crypto_create P;
  crypto_gen_iv := @crypto_gen_iv P;
  crypto_set_iv := @crypto_set_iv P;
  kdf_create_params := @kdf_create_params P;
  crypto_set_passphrasekey := kdf;
  crypto_set_key := @crypto_set_key P;
  crypto_get_key := @crypto_get_key P;
  crypto_encrypt := @crypto_encrypt P;
  crypto_decrypt := @crypto_decrypt P;
  hmac_sha3_256 := hmac;
  hex_read_arbitrary_buf := @hex_read_arbitrary_buf P;
  rvault_key_set := key_set;
  rvault_key_get := key_get;
  rvault_recovery_import := @rvault_recovery_import P;
  rvault_resolve_path := @rvault_resolve_path P;
  rvault_resolve_vname := @rvault_resolve_vname P;
  dir_st_size := @dir_st_size P;
|}.

(** The world in which the metadata file of the vault in [path] holds
    [data] instead. *)
Definition replace_metadata `{Platform} (path : string) (data : list Z) (w : world)
  : world :=
  mk_world
    (mk_fs (alter (λ f, mk_file (f_mode f) data) (meta_path path) (fs_files (w_fs w)))
           (fs_dirs (w_fs w)) (fs_free (w_fs w)))
    (w_srv w) (w_log w).

(** The value of a sequence of bytes read most significant first. *)
Definition be_value (bs : list Z) : Z :=
  foldl (λ acc b, acc * 256 + b `mod` 256) 0 bs.

(** The entry reaches the callback or the resolver: it is [.] or [..],
    or neither a dot-file nor named with the metadata prefix. *)
Definition listed `{Platform} (vname : string) : bool :=
  bool_decide (vname = "."%string ∨ vname = ".."%string) || surfaceable vname.

(** A computation that is silent when it succeeds and adds at most one
    message to the log when it does not. *)
Definition quiet `{Platform} {A : Type} (m : M A) : Prop :=
  ∀ w, match (m w).1 with
       | Ok _ => w_log (m w).2 = w_log w
       | _ => w_log (m w).2 = w_log w ∨ ∃ msg, w_log (m w).2 = w_log w ++ [msg]
       end.

(** A computation that never succeeds and leaves the log as it is. *)
Definition silent_failure `{Platform} {A : Type} (m : M A) : Prop :=
  ∀ w, (∀ a, (m w).1 ≠ Ok a) ∧ w_log (m w).2 = w_log w.

(** * Properties *)

Ltac Zify.zify_post_hook ::= Z.to_euclidean_division_equations.

(** ** Byte order *)

Section ByteOrder.

Lemma lo8_mod v : lo8 v = v `mod` 256.
Proof. unfold lo8. change 255 with (Z.ones 8). by rewrite Z.land_ones. Qed.

Lemma hi8_div v : hi8 v = (v `div` 256) `mod` 256.
Proof.
  unfold hi8. change 255 with (Z.ones 8).
  rewrite Z.land_ones by lia. by rewrite Z.shiftr_div_pow2 by lia.
Qed.

Lemma u8_mod v : u8 v = v `mod` 256.
Proof. apply lo8_mod. Qed.

Lemma u16_mod v : u16 v = v `mod` 65536.
Proof. unfold u16, UINT16_MAX. change 65535 with (Z.ones 16). by rewrite Z.land_ones. Qed.

Lemma lor_shiftl8 a b : 0 ≤ b < 256 → Z.lor (Z.shiftl a 8) b = a * 256 + b.
Proof.
  intros Hb.
  assert (Hland : Z.land (Z.shiftl a 8) b = 0).
  { apply Z.bits_inj'. intros n Hn. rewrite Z.land_spec, Z.bits_0.
    destruct (decide (n < 8)) as [Hlt|Hge].
    - by rewrite Z.shiftl_spec_low.
    - rewrite (Z.bits_above_log2 b n); [by rewrite andb_false_r|lia|].
      destruct (decide (b = 0)) as [->|Hb0]; [simpl; lia|].
      assert (Z.log2 b < 8); [|lia].
      apply Z.log2_lt_pow2; lia. }
  pose proof (Z.add_lor_land (Z.shiftl a 8) b) as Hadd.
  rewrite Hland in Hadd. rewrite Z.shiftl_mul_pow2 by lia. change (2 ^ 8) with 256. rewrite Z.shiftl_mul_pow2 in Hadd by lia. change (2 ^ 8) with 256 in Hadd. lia.
Qed.

Lemma lo8_range v : 0 ≤ lo8 v < 256.
Proof. rewrite lo8_mod. lia. Qed.

Lemma hi8_range v : 0 ≤ hi8 v < 256.
Proof. rewrite hi8_div. lia. Qed.

Lemma bswap16_val v : bswap16 v = lo8 v * 256 + hi8 v.
Proof. unfold bswap16. apply lor_shiftl8, hi8_range. Qed.

(** A 16-bit store followed by a load yields the value, truncated. *)
Lemma load16_store16 e v :
  ∃ b0 b1, store16 e v = [b0; b1] ∧ load16 e b0 b1 = u16 v.
Proof.
  destruct e; eexists _, _; (split; [reflexivity|]); unfold load16;
    rewrite ?lo8_mod, ?hi8_div, ?u8_mod, ?u16_mod, lor_shiftl8 by lia; lia.
Qed.

Lemma be16toh_htobe16 e v : be16toh e (htobe16 e v) = u16 v.
Proof.
  unfold be16toh, htobe16. destruct e.
  - rewrite !bswap16_val, !u16_mod, !lo8_mod, !hi8_div. lia.
  - rewrite !u16_mod. lia.
Qed.

(** What [htobe16] produces is laid out big-endian by every host. *)
Lemma store16_htobe16 e v : store16 e (htobe16 e v) = be16_bytes (u16 v).
Proof.
  unfold store16, htobe16, be16_bytes. destruct e; [|done].
  rewrite bswap16_val, !lo8_mod, !hi8_div, u16_mod. f_equal; [lia|f_equal; lia].
Qed.

(** On a little-endian host [be16toh] moves a one-byte value into the
    upper byte. *)
Lemma be16toh_little_small v : 0 ≤ v ≤ 255 → be16toh LittleEndian v = 256 * v.
Proof.
  intros. unfold be16toh, htobe16. rewrite bswap16_val, u16_mod, lo8_mod, hi8_div. lia.
Qed.

End ByteOrder.

(** ** Buffers *)

Section Buffers.
Implicit Types buf src l : list Z.

Lemma peek_Ok off len buf l :
  peek off len buf = Ok l ↔
  (0 ≤ off ∧ 0 ≤ len ∧ off + len ≤ blen buf)
  ∧ l = take (Z.to_nat len) (drop (Z.to_nat off) buf).
Proof.
  unfold peek. case_bool_decide; split.
  - intros [= <-]. done.
  - intros [_ ->]. done.
  - done.
  - intros [? _]. done.
Qed.

Lemma peek_not_Fail off len buf : peek off len buf ≠ Fail.
Proof. unfold peek. by case_bool_decide. Qed.

Lemma peek_Fault off len buf :
  peek off len buf = Fault ↔ ¬ (0 ≤ off ∧ 0 ≤ len ∧ off + len ≤ blen buf).
Proof. unfold peek. case_bool_decide; split; done. Qed.

Lemma peek_length off len buf l : peek off len buf = Ok l → blen l = len.
Proof.
  rewrite peek_Ok. intros [(? & ? & ?) ->]. unfold blen in *.
  rewrite length_take, length_drop. lia.
Qed.

(** A region that lies inside the buffer is what [peek] reads. *)
Lemma take_drop_peek off len buf :
  0 ≤ off ≤ blen buf → 0 ≤ len →
  blen (take (Z.to_nat len) (drop (Z.to_nat off) buf)) = len →
  peek off len buf = Ok (take (Z.to_nat len) (drop (Z.to_nat off) buf)).
Proof.
  intros Ho Hl Hb. apply peek_Ok. split; [|done].
  unfold blen in *. rewrite length_take, length_drop in Hb. lia.
Qed.

Lemma peek_take_drop off len buf l :
  peek off len buf = Ok l → take (Z.to_nat len) (drop (Z.to_nat off) buf) = l.
Proof. by intros [_ ->]%peek_Ok. Qed.

Lemma poke_Ok off src buf buf' :
  poke off src buf = Ok buf' ↔
  (0 ≤ off ∧ off + blen src ≤ blen buf)
  ∧ buf' = take (Z.to_nat off) buf ++ src
           ++ drop (Z.to_nat off + length src) buf.
Proof.
  unfold poke. case_bool_decide; split.
  - intros [= <-]. done.
  - intros [_ ->]. done.
  - done.
  - intros [? _]. done.
Qed.

Lemma poke_blen off src buf buf' :
  poke off src buf = Ok buf' → blen buf' = blen buf.
Proof.
  rewrite poke_Ok. intros [[? ?] ->]. unfold blen in *.
  rewrite !length_app, length_take, length_drop. lia.
Qed.

Lemma splice_lookup_outside (o : nat) src buf (i : nat) :
  (o + length src ≤ length buf)%nat →
  (i < o ∨ o + length src ≤ i)%nat →
  (take o buf ++ src ++ drop (o + length src) buf) !! i = buf !! i.
Proof.
  intros Hb [Hi|Hi].
  - rewrite lookup_app_l by (rewrite length_take; lia).
    by rewrite lookup_take_lt.
  - rewrite lookup_app_r by (rewrite length_take; lia).
    rewrite length_take, lookup_app_r by lia.
    rewrite lookup_drop. f_equal. lia.
Qed.

Lemma splice_lookup_inside (o : nat) src buf (i : nat) :
  (o + length src ≤ length buf)%nat →
  (i < length src)%nat →
  (take o buf ++ src ++ drop (o + length src) buf) !! (o + i)%nat = src !! i.
Proof.
  intros Hb Hi.
  rewrite lookup_app_r by (rewrite length_take; lia).
  rewrite length_take, lookup_app_l by lia. f_equal. lia.
Qed.

(** A read of the bytes just written yields them. *)
Lemma peek_poke_same off src buf buf' :
  poke off src buf = Ok buf' → peek off (blen src) buf' = Ok src.
Proof.
  intros Hp. pose proof (poke_blen _ _ _ _ Hp) as Hlen.
  apply poke_Ok in Hp as [[? ?] ->]. apply peek_Ok.
  split; [unfold blen in *; lia|].
  unfold blen. rewrite Nat2Z.id.
  rewrite drop_app_length' by (rewrite length_take; unfold blen in *; lia).
  by rewrite take_app_length.
Qed.

(** A read that does not overlap the bytes written is unchanged. *)
Lemma peek_poke_other off src buf buf' off' len :
  poke off src buf = Ok buf' →
  off' + len ≤ off ∨ off + blen src ≤ off' →
  peek off' len buf' = peek off' len buf.
Proof.
  intros Hp Hd. pose proof (poke_blen _ _ _ _ Hp) as Hlen.
  apply poke_Ok in Hp as [[? ?] ->]. unfold peek. rewrite Hlen.
  case_bool_decide as Hb; [|done]. destruct Hb as (? & ? & ?).
  f_equal. apply list_eq. intros i. unfold blen in *.
  destruct (decide (i < Z.to_nat len)%nat).
  - rewrite !lookup_take_lt, !lookup_drop by done.
    apply splice_lookup_outside; lia.
  - by rewrite !lookup_take_ge by lia.
Qed.
End Buffers.

(** ** Running computations step by step *)

Lemma res_bind_Ok {A B} (r : res A) (k : A → res B) b :
  r ≫= k = Ok b ↔ ∃ a, r = Ok a ∧ k a = Ok b.
Proof.
  unfold mbind, res_mbind. destruct r; simpl; split; try done.
  - eauto.
  - by intros (? & [= <-] & ?).
  - by intros (? & ? & ?).
  - by intros (? & ? & ?).
Qed.

Lemma ASSERT_Ok b u : ASSERT b = Ok u ↔ b = true.
Proof. destruct b, u; simpl; split; done. Qed.

Section MonadLaws.
Context `{P : Platform}.

Lemma bind_Ok {A B} (m : M A) (k : A → M B) w b w' :
  (m ≫= k) w = (Ok b, w') ↔ ∃ a w1, m w = (Ok a, w1) ∧ k a w1 = (Ok b, w').
Proof.
  unfold mbind, M_bind. destruct (m w) as [[a| |] w1]; split; try done.
  - eauto.
  - by intros (? & ? & [= <- <-] & ?).
  - by intros (? & ? & ? & ?).
  - by intros (? & ? & ? & ?).
Qed.

Lemma bind_step {A B} (m : M A) (k : A → M B) w a w1 :
  m w = (Ok a, w1) → (m ≫= k) w = k a w1.
Proof. unfold mbind, M_bind. by intros ->. Qed.

Lemma bind_Fail {A B} (m : M A) (k : A → M B) w w1 :
  m w = (Fail, w1) → (m ≫= k) w = (Fail, w1).
Proof. unfold mbind, M_bind. by intros ->. Qed.

Lemma bind_Fault {A B} (m : M A) (k : A → M B) w w1 :
  m w = (Fault, w1) → (m ≫= k) w = (Fault, w1).
Proof. unfold mbind, M_bind. by intros ->. Qed.

Lemma lift_Ok {A} (r : res A) w a w' :
  lift r w = (Ok a, w') ↔ r = Ok a ∧ w' = w.
Proof. unfold lift. split; [by intros [= -> ->]|by intros [-> ->]]. Qed.

Lemma mret_Ok {A} (a : A) w b w' :
  mret (M := M) a w = (Ok b, w') ↔ b = a ∧ w' = w.
Proof. unfold mret, M_ret. split; [by intros [= -> ->]|by intros [-> ->]]. Qed.

Lemma fail_not_Ok {A} w (a : A) w' : fail w ≠ (Ok a, w').
Proof. done. Qed.
End MonadLaws.

(** Inversion of a successful run: splits binds, lifts and returns. *)
Ltac minv1 :=
  match goal with
  | H : (_ ≫= _) _ = (Ok _, _) |- _ =>
      apply bind_Ok in H as (? & ? & ? & H)
  | H : lift _ _ = (Ok _, _) |- _ => apply lift_Ok in H as [H ->]
  | H : mret _ _ = (Ok _, _) |- _ => apply mret_Ok in H as [-> ->]
  | H : fail _ = (Ok _, _) |- _ => by destruct (fail_not_Ok _ _ _ H)
  | H : _ ≫= _ = Ok _ |- _ => apply res_bind_Ok in H as (? & ? & H)
  | H : ASSERT _ = Ok _ |- _ => apply ASSERT_Ok in H
  | H : mret _ = Ok _ |- _ => injection H as H; subst
  | H : of_option ?o = Ok _ |- _ =>
      let E := fresh "E" in
      destruct o eqn:E; simpl in H; [injection H as H; subst|discriminate H]
  | H : (let '(_, _) := ?x in _) _ = (Ok _, _) |- _ => destruct x
  | H : (let '(_, _) := ?x in _) = Ok _ |- _ => destruct x
  end.
Ltac minv := repeat minv1.

Section InitHeader.
Context `{P : Platform}.

Lemma blen_store16 e v : blen (store16 e v) = 2.
Proof. by destruct e. Qed.

Lemma peek_poke_same' off src buf buf' len :
  poke off src buf = Ok buf' → len = blen src → peek off len buf' = Ok src.
Proof. intros ? ->. by eapply peek_poke_same. Qed.

Lemma peek16_of_bytes e off buf v :
  peek off 2 buf = Ok (store16 e v) → peek16 e off buf = Ok (u16 v).
Proof.
  intros H. unfold peek16. rewrite H. simpl.
  destruct (load16_store16 e v) as (b0 & b1 & -> & <-). done.
Qed.

Lemma u16_small v : 0 ≤ v ≤ UINT16_MAX → u16 v = v.
Proof. unfold UINT16_MAX. rewrite u16_mod. lia. Qed.

Lemma u8_small v : 0 ≤ v ≤ UINT8_MAX → u8 v = v.
Proof. unfold UINT8_MAX. rewrite u8_mod. lia. Qed.

Lemma htobe16_range e v : 0 ≤ htobe16 e v ≤ UINT16_MAX.
Proof.
  unfold htobe16, UINT16_MAX. destruct e.
  - rewrite bswap16_val, lo8_mod, hi8_div. lia.
  - rewrite u16_mod. lia.
Qed.

Lemma blen_nonneg l : 0 ≤ blen l.
Proof. unfold blen. lia. Qed.

Lemma init_hdr_fields cipher flags iv kp hdr file_len :
  rvault_init_hdr cipher flags iv kp = Ok (hdr, file_len) →
  blen iv ≤ UINT16_MAX →
  file_len = RVAULT_HDR_LEN + blen iv + blen kp + HMAC_SHA3_256_BUFLEN
  ∧ blen hdr = file_len
  ∧ peek OFF_VER 1 hdr = Ok [u8 RVAULT_ABI_VER]
  ∧ peek OFF_CIPHER 1 hdr = Ok [u8 cipher]
  ∧ peek OFF_FLAGS 1 hdr = Ok [u8 flags]
  ∧ peek OFF_IV_LEN 2 hdr = Ok (be16_bytes (blen iv))
  ∧ peek OFF_KP_LEN 2 hdr = Ok (store16 host_endian (u16 (blen kp)))
  ∧ peek RVAULT_HDR_LEN (blen iv) hdr = Ok iv
  ∧ peek (RVAULT_HDR_LEN + blen iv) (blen kp) hdr = Ok kp.
Proof.
  unfold rvault_init_hdr. intros H Hiv. minv.
  pose proof (blen_nonneg iv). pose proof (blen_nonneg kp).
  rewrite store16_htobe16, u16_small in H6 by lia.
  assert (x7 = RVAULT_HDR_LEN + blen iv) as ->.
  { unfold RVAULT_HDR_TO_KP, hdr_iv_len in H8. minv.
    rewrite (peek16_of_bytes _ _ _ (htobe16 host_endian (blen iv))) in H8.
    - injection H8 as <-.
      rewrite (u16_small (htobe16 _ _)) by apply htobe16_range.
      by rewrite be16toh_htobe16, u16_small by lia.
    - rewrite store16_htobe16, u16_small by lia.
      rewrite (peek_poke_other _ _ _ _ _ _ H7)
        by (unfold OFF_IV_LEN, RVAULT_HDR_TO_IV, RVAULT_HDR_LEN; lia).
      by apply (peek_poke_same' _ _ _ _ _ H6). }
  assert (blen hdr = RVAULT_HDR_LEN + blen iv + blen kp + HMAC_SHA3_256_BUFLEN) as Hlen.
  { rewrite (poke_blen _ _ _ _ H9), (poke_blen _ _ _ _ H7), (poke_blen _ _ _ _ H6),
      (poke_blen _ _ _ _ H5), (poke_blen _ _ _ _ H4), (poke_blen _ _ _ _ H3),
      (poke_blen _ _ _ _ H2).
    unfold calloc, blen. rewrite length_replicate.
    unfold RVAULT_HDR_LEN, HMAC_SHA3_256_BUFLEN, blen. lia. }
  unfold OFF_VER, OFF_CIPHER, OFF_FLAGS, OFF_IV_LEN, OFF_KP_LEN, RVAULT_HDR_TO_IV,
    RVAULT_HDR_LEN, HMAC_SHA3_256_BUFLEN in *.
  assert (∀ e v, blen (store16 e v) = 2) as Hs by apply blen_store16.
  assert (∀ v, blen (be16_bytes v) = 2) as Hb by done.
  assert (∀ v : Z, blen [v] = 1) as H1b by done.
  repeat split; try done.
  all: repeat first
    [ by (eapply peek_poke_same'; [eassumption|rewrite ?Hs, ?Hb, ?H1b; lia])
    | match goal with
      | Hp : poke _ _ ?b = Ok ?b' |- peek ?o ?l ?b' = _ =>
          rewrite (peek_poke_other _ _ _ _ o l Hp) by (rewrite ?Hs, ?Hb, ?H1b; lia)
      end ].
Qed.
End InitHeader.

(** The same, also through tests, matches on options and the reads and
    writes of the world. *)
Ltac minv2 :=
  first
  [ minv1
  | match goal with
    | H : (if ?b then _ else _) _ = (Ok _, _) |- _ => destruct b eqn:?
    | H : (match ?o with Some _ => _ | None => _ end) _ = (Ok _, _) |- _ =>
        destruct o eqn:?
    | H : (match ?o with Some _ => _ | None => _ end) = Ok _ |- _ =>
        destruct o eqn:?; [|discriminate H]
    | H : (let '(_, _) := ?x in _) _ = (Ok _, _) |- _ => destruct x
    | H : app_log _ _ = (Ok _, _) |- _ => injection H as <-
    | H : get_fs _ = (Ok _, _) |- _ => injection H as <- <-
    | H : get_srv _ = (Ok _, _) |- _ => injection H as <- <-
    | H : put_fs _ _ = (Ok _, _) |- _ => injection H as <-
    | H : put_srv _ _ = (Ok _, _) |- _ => injection H as <-
    end ].
Ltac minv' := repeat minv2.

Section InitRecord.
Context `{P : Platform}.

Lemma init_hdr_lengths cipher flags iv kp hdr file_len :
  rvault_init_hdr cipher flags iv kp = Ok (hdr, file_len) →
  blen iv ≤ UINT16_MAX →
  hdr_iv_len host_endian hdr = Ok (htobe16 host_endian (blen iv))
  ∧ hdr_kp_len host_endian hdr = Ok (u16 (blen kp)).
Proof.
  intros H Hiv. destruct (init_hdr_fields _ _ _ _ _ _ H Hiv)
    as (_ & _ & _ & _ & _ & Hivl & Hkpl & _).
  pose proof (blen_nonneg iv).
  unfold hdr_iv_len, hdr_kp_len. split.
  - rewrite (peek16_of_bytes _ _ _ (htobe16 host_endian (blen iv))).
    + by rewrite u16_small by apply htobe16_range.
    + by rewrite store16_htobe16, u16_small by lia.
  - rewrite (peek16_of_bytes _ _ _ (u16 (blen kp))) by done.
    f_equal. rewrite !u16_mod. lia.
Qed.

Lemma peek16_poke_other e off src buf buf' off' :
  poke off src buf = Ok buf' →
  off' + 2 ≤ off ∨ off + blen src ≤ off' →
  peek16 e off' buf' = peek16 e off' buf.
Proof. intros. unfold peek16. by erewrite peek_poke_other. Qed.

Lemma peek8_poke_other off src buf buf' off' :
  poke off src buf = Ok buf' →
  off' + 1 ≤ off ∨ off + blen src ≤ off' →
  peek8 off' buf' = peek8 off' buf.
Proof. intros. unfold peek8. by erewrite peek_poke_other. Qed.

(** The record of [rvault_init] when the HMAC is computed: the
    header is set up and the UID copied in. *)
Lemma init_hmac_datalen cipher flags iv kp hdr file_len uid hdr' :
  rvault_init_hdr cipher flags iv kp = Ok (hdr, file_len) →
  blen iv ≤ UINT16_MAX →
  blen kp ≤ UINT8_MAX →
  poke OFF_UID uid hdr = Ok hdr' →
  blen uid = UID_LEN →
  blen hdr' = RVAULT_HDR_LEN + blen iv + blen kp + HMAC_SHA3_256_BUFLEN
  ∧ RVAULT_HMAC_DATALEN host_endian hdr'
    = Ok (RVAULT_HDR_LEN + blen iv + be16toh host_endian (blen kp)).
Proof.
  intros Hhdr Hiv Hkp Hpoke Huid.
  destruct (init_hdr_fields _ _ _ _ _ _ Hhdr Hiv) as (-> & Hlen & _).
  destruct (init_hdr_lengths _ _ _ _ _ _ Hhdr Hiv) as [Hivl Hkpl].
  pose proof (blen_nonneg iv). pose proof (blen_nonneg kp).
  split; [by rewrite (poke_blen _ _ _ _ Hpoke)|].
  unfold RVAULT_HMAC_DATALEN, hdr_iv_len, hdr_kp_len in *.
  rewrite (peek16_poke_other _ _ _ _ _ _ Hpoke), Hivl
    by (unfold OFF_IV_LEN, OFF_UID; lia).
  rewrite (peek16_poke_other _ _ _ _ _ _ Hpoke), Hkpl
    by (unfold OFF_KP_LEN, OFF_UID; lia).
  simpl. rewrite be16toh_htobe16, !u16_small; unfold UINT8_MAX, UINT16_MAX in *; (done || lia).
Qed.

Lemma init_hmac_little_endian cipher flags iv kp hdr file_len uid hdr' crypto :
  host_endian = LittleEndian →
  rvault_init_hdr cipher flags iv kp = Ok (hdr, file_len) →
  blen iv ≤ UINT16_MAX →
  0 < blen kp ≤ UINT8_MAX →
  poke OFF_UID uid hdr = Ok hdr' →
  blen uid = UID_LEN →
  rvault_hmac_compute crypto hdr' = Fault.
Proof.
  intros He Hhdr Hiv [Hpos Hkp] Hpoke Huid.
  destruct (init_hmac_datalen _ _ _ _ _ _ _ _ Hhdr Hiv Hkp Hpoke Huid) as [Hlen Hn].
  unfold rvault_hmac_compute. destruct (crypto_get_key crypto); [|done].
  unfold hdr_hmac_data. rewrite Hn. rewrite He, be16toh_little_small by (unfold UINT8_MAX in *; lia).
  simpl. replace (peek _ _ _) with (@Fault (list Z)); [done|].
  symmetry. apply peek_Fault. rewrite Hlen. unfold HMAC_SHA3_256_BUFLEN. lia.
Qed.

(** On a little-endian host with a non-empty KDF parameter blob, the
    record never gets past the computation of the HMAC. *)
Lemma init_record_little_endian kp server pwd uid_str cipher_str flags w r w' :
  host_endian = LittleEndian →
  kdf_create_params = Some kp →
  0 < blen kp →
  rvault_init_record server pwd uid_str cipher_str flags w = (r, w') →
  r = Fail ∨ r = Fault.
Proof.
  intros He Hkp Hpos Hrun. destruct r as [[hdr flen]| |]; [exfalso|by left|by right].
  unfold rvault_init_record in Hrun. minv'.
  all: simplify_eq.
  all: match goal with
       | Hh : rvault_init_hdr _ _ _ _ = Ok _, Hp : poke OFF_UID _ _ = Ok _,
         Hc : rvault_hmac_compute ?c _ = Ok _ |- _ =>
           assert (blen kp ≤ UINT8_MAX) by lia;
           rewrite (λ H1 H2 H3, init_hmac_little_endian _ _ _ _ _ _ _ _ c He Hh H1 H2 Hp H3) in Hc;
             [done|lia..]
       end.
Qed.
End InitRecord.

(** ** What a computation leaves untouched *)

Section Preserves.
Context `{P : Platform} {X : Type} (proj : world → X).

Lemma preserves_bind {A B} (m : M A) (k : A → M B) :
  preserves proj m → (∀ a, preserves proj (k a)) → preserves proj (m ≫= k).
Proof.
  intros Hm Hk w. unfold mbind, M_bind. specialize (Hm w).
  destruct (m w) as [[a| |] w1]; simpl in *; [|done..].
  by rewrite Hk.
Qed.

Lemma preserves_lift {A} (r : res A) : preserves proj (lift r).
Proof. done. Qed.

Lemma preserves_fail {A} : preserves proj (fail (A := A)).
Proof. done. Qed.

Lemma preserves_mret {A} (a : A) : preserves proj (mret a).
Proof. done. Qed.

Lemma preserves_get_fs : preserves proj get_fs.
Proof. done. Qed.

Lemma preserves_get_srv : preserves proj get_srv.
Proof. done. Qed.

Lemma preserves_close_and_fail {A} v : preserves proj (close_and_fail (A := A) v).
Proof. intros w. unfold close_and_fail. by destruct (rvault_close 0 v) as [[]|]. Qed.
End Preserves.

(** One step of a proof that a computation preserves a component. *)
Ltac preserves_step :=
  first
  [ apply preserves_bind; [|intros ?]
  | apply preserves_lift
  | apply preserves_fail
  | apply preserves_mret
  | apply preserves_get_fs
  | apply preserves_get_srv
  | apply preserves_close_and_fail
  | done
  | match goal with
    | |- preserves _ (match ?x with _ => _ end) => destruct x eqn:?
    | |- preserves _ (if ?b then _ else _) => destruct b eqn:?
    | |- preserves _ (let '(_, _) := ?x in _) => destruct x eqn:?
    end ].

Section Frames.
Context `{P : Platform}.

Lemma app_log_fs m : preserves w_fs (app_log m).
Proof. done. Qed.
Lemma app_log_srv m : preserves w_srv (app_log m).
Proof. done. Qed.
Lemma put_srv_fs s : preserves w_fs (put_srv s).
Proof. done. Qed.
Lemma put_srv_log s : preserves w_log (put_srv s).
Proof. done. Qed.
Lemma put_fs_srv fs : preserves w_srv (put_fs fs).
Proof. done. Qed.
Lemma put_fs_log fs : preserves w_log (put_fs fs).
Proof. done. Qed.

(** Nothing before the metadata file is opened touches the file system. *)
Lemma init_record_fs server pwd uid_str cipher_str flags :
  preserves w_fs (rvault_init_record server pwd uid_str cipher_str flags).
Proof.
  unfold rvault_init_record.
  repeat first [apply app_log_fs | apply put_srv_fs | preserves_step].
Qed.

Lemma get_vault_path_fs path : preserves w_fs (get_vault_path path).
Proof.
  unfold get_vault_path. repeat first [apply app_log_fs | preserves_step].
Qed.

Lemma get_vault_path_srv path : preserves w_srv (get_vault_path path).
Proof.
  unfold get_vault_path. repeat first [apply app_log_srv | preserves_step].
Qed.
End Frames.

Section MetadataFile.
Context `{P : Platform}.

Lemma get_vault_path_dir path w ents :
  fs_dirs (w_fs w) !! path = Some ents →
  get_vault_path path w = (Ok path, w).
Proof.
  intros Hd. unfold get_vault_path, realpath, is_directory.
  unfold mbind, M_bind, get_fs. simpl.
  rewrite bool_decide_eq_true_2 by (left; by rewrite Hd).
  rewrite bool_decide_eq_true_2 by (by rewrite Hd). done.
Qed.

Lemma get_vault_path_Ok path w rpath w' :
  get_vault_path path w = (Ok rpath, w') →
  rpath = path ∧ w' = w ∧ is_Some (fs_dirs (w_fs w) !! path).
Proof.
  unfold get_vault_path, realpath, is_directory. intros H. minv'.
  case_bool_decide; simplify_eq.
  match goal with Hb : bool_decide _ = true |- _ => apply bool_decide_eq_true_1 in Hb end.
  done.
Qed.

(** [O_CREAT | O_EXCL] on an existing metadata file. *)
Lemma open_metadata_excl_exists path w ents f :
  fs_dirs (w_fs w) !! path = Some ents →
  fs_files (w_fs w) !! meta_path path = Some f →
  open_metadata path INIT_OPEN_FLAGS w
  = (Fail, mk_world (w_fs w) (w_srv w)
             (w_log w ++ [MSG_could_not "create" (meta_path path) EEXIST])).
Proof.
  intros Hd Hf. unfold open_metadata.
  rewrite (bind_step _ _ _ _ _ (get_vault_path_dir _ _ _ Hd)).
  unfold mbind, M_bind, get_fs, sys_open. simpl.
  rewrite bool_decide_eq_true_2 by (left; by rewrite Hf). done.
Qed.

(** [O_CREAT | O_EXCL] when there is no metadata file yet. *)
Lemma open_metadata_excl_fresh path w ents :
  fs_dirs (w_fs w) !! path = Some ents →
  fs_files (w_fs w) !! meta_path path = None →
  fs_dirs (w_fs w) !! meta_path path = None →
  open_metadata path INIT_OPEN_FLAGS w
  = (Ok (meta_path path, path),
     mk_world (mk_fs (<[meta_path path := mk_file RVAULT_META_MODE []]>
                        (fs_files (w_fs w)))
                     (fs_dirs (w_fs w)) (fs_free (w_fs w)))
              (w_srv w) (w_log w)).
Proof.
  intros Hd Hf Hnd. unfold open_metadata.
  rewrite (bind_step _ _ _ _ _ (get_vault_path_dir _ _ _ Hd)).
  unfold mbind, M_bind, get_fs, sys_open. simpl.
  rewrite bool_decide_eq_false_2; [done|].
  rewrite Hf, Hnd. by intros [[? [=]]|[? [=]]].
Qed.
End MetadataFile.

(** ** Initialisation and the metadata file *)

Section Init.
Context `{P : Platform}.

Lemma init_unfold path server pwd uid_str cipher_str flags w :
  rvault_init path server pwd uid_str cipher_str flags w
  = match rvault_init_record server pwd uid_str cipher_str flags w with
    | (Ok (hdr, file_len), w1) => rvault_init_store path hdr file_len w1
    | (Fail, w1) => (Fail, w1)
    | (Fault, w1) => (Fault, w1)
    end.
Proof.
  unfold rvault_init, mbind, M_bind.
  by destruct (rvault_init_record _ _ _ _ _ w) as [[[]| |] ?].
Qed.

(** A failure before the metadata file is opened is the failure of
    [rvault_init], and the file system is as it was. *)
Lemma init_fails_before_store path server pwd uid_str cipher_str flags w :
  let rec := rvault_init_record server pwd uid_str cipher_str flags w in
  let r := rvault_init path server pwd uid_str cipher_str flags w in
  (rec.1 = Fail → r = (Fail, rec.2)) ∧
  (rec.1 = Fault → r = (Fault, rec.2)) ∧
  w_fs rec.2 = w_fs w.
Proof.
  simpl. rewrite init_unfold. split_and!.
  - destruct (rvault_init_record _ _ _ _ _ w) as [[[]| |] ?]; by intros [=].
  - destruct (rvault_init_record _ _ _ _ _ w) as [[[]| |] ?]; by intros [=].
  - apply init_record_fs.
Qed.

Lemma init_store_exists path hdr file_len w ents f :
  fs_dirs (w_fs w) !! path = Some ents →
  fs_files (w_fs w) !! meta_path path = Some f →
  rvault_init_store path hdr file_len w
  = (Fail, mk_world (w_fs w) (w_srv w)
             (w_log w ++ [MSG_could_not "create" (meta_path path) EEXIST])).
Proof.
  intros Hd Hf. unfold rvault_init_store.
  by rewrite (bind_Fail _ _ _ _ (open_metadata_excl_exists _ _ _ _ Hd Hf)).
Qed.

End Init.

Section WitnessBE.
Local Existing Instance Toy.be.

End WitnessBE.

Section InitStore.
Context `{P : Platform}.

(** The store step on a directory without metadata file: the file is
    created, then receives what the device accepts. *)
Lemma init_store_fresh path hdr file_len w ents :
  fs_dirs (w_fs w) !! path = Some ents →
  fs_files (w_fs w) !! meta_path path = None →
  fs_dirs (w_fs w) !! meta_path path = None →
  let n := Z.max 0 (Z.min file_len (fs_free (w_fs w))) in
  let r := rvault_init_store path hdr file_len w in
  r.1 = (if n =? file_len then Ok tt else Fail)
  ∧ fs_files (w_fs r.2) !! meta_path path
    = Some (mk_file RVAULT_META_MODE (take (Z.to_nat n) hdr))
  ∧ w_log r.2 = w_log w.
Proof.
  intros Hd Hf Hnd. simpl. unfold rvault_init_store.
  rewrite (bind_step _ _ _ _ _ (open_metadata_excl_fresh _ _ _ Hd Hf Hnd)).
  unfold mbind, M_bind, get_fs, put_fs, fs_write. simpl.
  rewrite lookup_insert_eq. simpl. rewrite drop_nil, app_nil_r.
  destruct (_ =? _); simpl; by rewrite lookup_insert_eq.
Qed.

(** C6, as the code has it.  A failure before the metadata file is
    opened is returned as it is and leaves the file system unchanged;
    a write that falls short after the file was created makes
    [rvault_init] return [-1] and leaves the file in place, holding the
    bytes written so far. *)
Theorem init_failure_artifacts path server pwd uid_str cipher_str flags w :
  let rec := rvault_init_record server pwd uid_str cipher_str flags w in
  let r := rvault_init path server pwd uid_str cipher_str flags w in
  ((rec.1 = Fail ∨ rec.1 = Fault) → r.1 ≠ Ok tt ∧ w_fs r.2 = w_fs w)
  ∧ (∀ hdr file_len ents,
       rec.1 = Ok (hdr, file_len) →
       fs_dirs (w_fs w) !! path = Some ents →
       fs_files (w_fs w) !! meta_path path = None →
       fs_dirs (w_fs w) !! meta_path path = None →
       0 ≤ fs_free (w_fs w) < file_len →
       r.1 = Fail
       ∧ fs_files (w_fs r.2) !! meta_path path
         = Some (mk_file RVAULT_META_MODE
                   (take (Z.to_nat (fs_free (w_fs w))) hdr))).
Proof.
  simpl. split.
  - destruct (init_fails_before_store path server pwd uid_str cipher_str flags w)
      as (HF & HA & Hfs).
    intros [H|H]; [rewrite (HF H)|rewrite (HA H)]; by rewrite <- Hfs.
  - intros hdr file_len ents Hrec Hd Hf Hnd Hfree.
    pose proof (init_record_fs server pwd uid_str cipher_str flags w) as Hfs.
    rewrite init_unfold.
    destruct (rvault_init_record _ _ _ _ _ w) as [rr w1]. simpl in *. subst rr.
    destruct (init_store_fresh path hdr file_len w1 ents) as (Hr & Hfile & _);
      try (by rewrite Hfs).
    rewrite Hfs in Hr, Hfile.
    replace (Z.max 0 (Z.min file_len (fs_free (w_fs w)))) with (fs_free (w_fs w))
      in Hr, Hfile by lia.
    split; [|done].
    rewrite Hr. destruct (_ =? _) eqn:E; [lia|done].
Qed.
End InitStore.

Section CounterexamplesBE.
Local Existing Instance Toy.be.

(** C6, counterexample: on a device with ten bytes left the metadata
    file is created, the write falls short, [rvault_init] returns [-1]
    and the ten-byte file is still there. *)
Lemma init_partial_file_not_removed :
  let r := rvault_init "/v" None "pw" Toy.UID0 None RVAULT_FLAG_NOAUTH
             (Toy.world0 BigEndian 10) in
  fs_files (w_fs (Toy.world0 BigEndian 10)) !! meta_path "/v" = None
  ∧ r.1 = Fail
  ∧ fs_files (w_fs r.2) !! meta_path "/v"
    = Some (mk_file RVAULT_META_MODE [3; 1; 0; 16; 0; 37; 0; 0; 0; 0]).
Proof. vm_compute. done. Qed.

Lemma init_failure_artifacts_witness :
  let w := Toy.world0 BigEndian 10 in
  let rec := rvault_init_record None "pw" Toy.UID0 None RVAULT_FLAG_NOAUTH w in
  let r := rvault_init "/v" None "pw" Toy.UID0 None RVAULT_FLAG_NOAUTH w in
  ∃ hdr,
    rec.1 = Ok (hdr, 149)
    ∧ fs_dirs (w_fs w) !! "/v"%string = Some ["."; ".."]%string
    ∧ fs_files (w_fs w) !! meta_path "/v" = None
    ∧ fs_dirs (w_fs w) !! meta_path "/v" = None
    ∧ 0 ≤ fs_free (w_fs w) < 149
    ∧ r.1 = Fail
    ∧ fs_files (w_fs r.2) !! meta_path "/v"
      = Some (mk_file RVAULT_META_MODE (take (Z.to_nat (fs_free (w_fs w))) hdr)).
Proof.
  eexists. split; [vm_compute; reflexivity|].
  split; [vm_compute; reflexivity|].
  split; [vm_compute; reflexivity|].
  split; [vm_compute; reflexivity|].
  split; [vm_compute; done|].
  eapply (init_failure_artifacts "/v" None "pw" Toy.UID0 None RVAULT_FLAG_NOAUTH
            (Toy.world0 BigEndian 10)).
  - vm_compute; reflexivity.
  - vm_compute; reflexivity.
  - vm_compute; reflexivity.
  - vm_compute; reflexivity.
  - vm_compute; done.
Defined.
End CounterexamplesBE.

(** ** The length fields on a little-endian host *)

Section LittleEndianHost.
Context `{P : Platform}.

(** On every host [iv_len] is stored big-endian, and [kp_len] as the
    host lays out a [uint16_t]. *)
Lemma init_hdr_length_bytes cipher flags iv kp hdr file_len :
  rvault_init_hdr cipher flags iv kp = Ok (hdr, file_len) →
  blen iv ≤ UINT16_MAX →
  blen kp ≤ UINT16_MAX →
  peek OFF_IV_LEN 2 hdr = Ok (be16_bytes (blen iv))
  ∧ peek OFF_KP_LEN 2 hdr = Ok (store16 host_endian (blen kp)).
Proof.
  intros H Hiv Hkp.
  destruct (init_hdr_fields _ _ _ _ _ _ H Hiv) as (_ & _ & _ & _ & _ & ? & ? & _).
  pose proof (blen_nonneg kp). by rewrite u16_small in * by lia.
Qed.

(** C2, at the failing input.  On a little-endian host the header set
    up by [rvault_init] holds [iv_len] big-endian but [kp_len] with the
    low byte first, which is not its big-endian encoding; the read-side
    macro [RVAULT_FILE_LEN] therefore decodes [256 * kp_len] and
    disagrees with the length of the record, while the raw [kp_len]
    that [rvault_open] hands to the KDF is the length written. *)
Theorem init_hdr_kp_len_little_endian cipher flags iv kp hdr file_len :
  host_endian = LittleEndian →
  rvault_init_hdr cipher flags iv kp = Ok (hdr, file_len) →
  blen iv ≤ UINT16_MAX →
  0 < blen kp ≤ UINT8_MAX →
  peek OFF_IV_LEN 2 hdr = Ok (be16_bytes (blen iv))
  ∧ peek OFF_KP_LEN 2 hdr = Ok [blen kp; 0]
  ∧ be16_bytes (blen kp) = [0; blen kp]
  ∧ [blen kp; 0] ≠ be16_bytes (blen kp)
  ∧ hdr_kp_len host_endian hdr = Ok (blen kp)
  ∧ RVAULT_FILE_LEN host_endian hdr = Ok (file_len + 255 * blen kp)
  ∧ file_len + 255 * blen kp ≠ file_len.
Proof.
  intros He Hhdr Hiv [Hpos Hkp].
  unfold UINT8_MAX, UINT16_MAX in *.
  destruct (init_hdr_length_bytes _ _ _ _ _ _ Hhdr) as [Hb1 Hb2];
    [unfold UINT16_MAX; lia..|].
  destruct (init_hdr_lengths _ _ _ _ _ _ Hhdr) as [Hl1 Hl2]; [unfold UINT16_MAX; lia|].
  destruct (init_hdr_fields _ _ _ _ _ _ Hhdr) as (Hfl & _); [unfold UINT16_MAX; lia|].
  pose proof (blen_nonneg iv).
  assert (lo8 (blen kp) = blen kp) as Hlo by (rewrite lo8_mod; lia).
  assert (hi8 (blen kp) = 0) as Hhi by (rewrite hi8_div; lia).
  rewrite He in Hb2. unfold store16 in Hb2. rewrite Hlo, Hhi in Hb2.
  unfold be16_bytes at 2 3. rewrite Hlo, Hhi.
  rewrite u16_small in Hl2 by (unfold UINT16_MAX; lia).
  split_and!; try done.
  - intros [= ? ?]. lia.
  - unfold RVAULT_FILE_LEN, RVAULT_HMAC_DATALEN. rewrite Hl1, Hl2. simpl.
    rewrite be16toh_htobe16, u16_small by (unfold UINT16_MAX; lia).
    rewrite He, be16toh_little_small by lia. f_equal. lia.
  - lia.
Qed.

(** C1, at the failing input.  On a little-endian host, whenever the
    KDF parameter blob is not empty, [rvault_init] never returns 0 and
    creates nothing: it fails, or stops at the computation of the HMAC,
    whose data length is decoded from the header as
    [RVAULT_HDR_LEN + iv_len + 256 * kp_len] and exceeds the record.
    No vault exists that [rvault_open] could open. *)
Theorem init_never_succeeds_little_endian kp path server pwd uid_str cipher_str
    flags w :
  host_endian = LittleEndian →
  kdf_create_params = Some kp →
  0 < blen kp →
  let r := rvault_init path server pwd uid_str cipher_str flags w in
  (r.1 = Fail ∨ r.1 = Fault) ∧ w_fs r.2 = w_fs w.
Proof.
  intros He Hkp Hpos. simpl.
  destruct (init_fails_before_store path server pwd uid_str cipher_str flags w)
    as (HF & HA & Hfs).
  destruct (rvault_init_record server pwd uid_str cipher_str flags w)
    as [rr w1] eqn:Hrec.
  destruct (init_record_little_endian _ _ _ _ _ _ _ _ _ He Hkp Hpos Hrec) as [->| ->].
  - rewrite HF by done. split; [by left|done].
  - rewrite HA by done. split; [by right|done].
Qed.
End LittleEndianHost.

Section WitnessesLE.
Local Existing Instance Toy.le.

Lemma init_hdr_kp_len_little_endian_witness :
  ∃ hdr,
    rvault_init_hdr 4 RVAULT_FLAG_NOAUTH (replicate 16 7) (replicate 37 9)
      = Ok (hdr, 149)
    ∧ peek OFF_KP_LEN 2 hdr = Ok [37; 0]
    ∧ be16_bytes 37 = [0; 37]
    ∧ RVAULT_FILE_LEN LittleEndian hdr = Ok (149 + 255 * 37).
Proof.
  eexists. split; [vm_compute; reflexivity|].
  edestruct (init_hdr_kp_len_little_endian 4 RVAULT_FLAG_NOAUTH
               (replicate 16 7) (replicate 37 9))
    as (_ & H2 & H3 & _ & _ & H6 & _).
  - reflexivity.
  - vm_compute; reflexivity.
  - vm_compute; done.
  - vm_compute; done.
  - split_and!; [exact H2|exact H3|exact H6].
Defined.

Lemma init_never_succeeds_little_endian_witness :
  let r := rvault_init "/v" None "pw" Toy.UID0 (Some "chacha20-poly1305"%string)
             RVAULT_FLAG_NOAUTH (Toy.world0 LittleEndian 4096) in
  (r.1 = Fail ∨ r.1 = Fault) ∧ w_fs r.2 = w_fs (Toy.world0 LittleEndian 4096).
Proof.
  apply (init_never_succeeds_little_endian (replicate 37 9)).
  - reflexivity.
  - reflexivity.
  - vm_compute; reflexivity.
Defined.

(** The run itself: [rvault_init] stops at the HMAC, the directory
    stays empty and [rvault_open] finds no metadata file. *)
Lemma roundtrip_little_endian_run :
  let r := rvault_init "/v" None "pw" Toy.UID0 (Some "chacha20-poly1305"%string)
             RVAULT_FLAG_NOAUTH (Toy.world0 LittleEndian 4096) in
  r.1 = Fault
  ∧ fs_files (w_fs r.2) !! meta_path "/v" = None
  ∧ (rvault_open "/v" None "pw" r.2).1 = Fail.
Proof. vm_compute. done. Qed.
End WitnessesLE.

(** ** Enumeration *)

Section Strings.
Lemma char_code_range c : 0 ≤ char_code c.
Proof. unfold char_code. lia. Qed.

Lemma char_code_inj c1 c2 : char_code c1 = char_code c2 → c1 = c2.
Proof.
  unfold char_code. intros H. apply N2Z.inj in H.
  by rewrite <- (ascii_N_embedding c1), <- (ascii_N_embedding c2), H.
Qed.

Lemma strcmp_eq s1 s2 : strcmp s1 s2 = 0 ↔ s1 = s2.
Proof.
  revert s2. induction s1 as [|c1 r1 IH]; intros [|c2 r2]; simpl.
  - done.
  - pose proof (char_code_range c2). split; [lia|done].
  - pose proof (char_code_range c1). split; [lia|done].
  - case_bool_decide as Hc.
    + subst. rewrite IH. split; [by intros ->|by intros [= ->]].
    + split; [|by intros [= ? ?]].
      intros H. destruct Hc. apply char_code_inj. lia.
Qed.

Lemma strncmp_prefix s p :
  strncmp s p (String.length p) = 0 ↔ ∃ r, s = p +:+ r.
Proof.
  revert s. induction p as [|c p IH]; intros s; simpl.
  - split; [intros _; by exists s|intros _; reflexivity].
  - destruct s as [|c' s'].
    + pose proof (char_code_range c). split; [lia|by intros [? [=]]].
    + case_bool_decide as Hc.
      * subst. rewrite IH. split; [intros [r ->]; by exists r|].
        intros [r [= ->]]. by exists r.
      * split; [|intros [r [= ? ?]]; by destruct Hc].
        intros H. destruct Hc. apply char_code_inj. lia.
Qed.

Lemma first_is_dot_spec s : first_is_dot s = true ↔ ∃ r, s = String "." r.
Proof.
  destruct s as [|c r]; simpl.
  - split; [done|by intros [? [=]]].
  - rewrite bool_decide_eq_true. split; [intros ->; by exists r|by intros [? [= -> _]]].
Qed.
End Strings.

Section IterDir.
Context `{P : Platform}.
Implicit Types v : rvault_t crypto_t.

Lemma starts_with_spec p s : starts_with p s = true ↔ ∃ r, s = p +:+ r.
Proof.
  revert s. induction p as [|c p IH]; intros s; simpl.
  - split; [intros _; by exists s|done].
  - destruct s as [|c' s'].
    + split; [done|by intros [? [=]]].
    + rewrite andb_true_iff, bool_decide_eq_true, IH. split.
      * intros [-> [r ->]]. by exists r.
      * intros [r [= -> ->]]. split; [done|by exists r].
Qed.

Lemma first_is_dot_starts s : first_is_dot s = starts_with "." s.
Proof. destruct s as [|c r]; simpl; [done|]. rewrite andb_true_r.
  apply bool_decide_ext. split; by intros ->. Qed.

Lemma strncmp_starts s :
  (strncmp s RVAULT_META_PREF RVAULT_META_PREFLEN =? 0)
  = starts_with RVAULT_META_PREF s.
Proof.
  apply eq_true_iff_eq. rewrite Z.eqb_eq. unfold RVAULT_META_PREFLEN.
  by rewrite strncmp_prefix, starts_with_spec.
Qed.

Lemma dot_test s :
  (strcmp s "." =? 0) || (strcmp s ".." =? 0)
  = bool_decide (s = "."%string ∨ s = ".."%string).
Proof.
  apply eq_true_iff_eq.
  by rewrite orb_true_iff, !Z.eqb_eq, !strcmp_eq, bool_decide_eq_true.
Qed.

(** One step of the loop, in the vocabulary of the statements. *)
Lemma iter_dir_loop_cons {A} v (f : A → string → string → A) vname rest arg :
  iter_dir_loop v f (vname :: rest) arg =
  if bool_decide (vname = "."%string ∨ vname = ".."%string) then
    iter_dir_loop v f rest (f arg vname vname)
  else if surfaceable vname then
    match rvault_resolve_vname v vname with
    | None => (-1, arg)
    | Some name => iter_dir_loop v f rest (f arg name vname)
    end
  else iter_dir_loop v f rest arg.
Proof.
  simpl. rewrite dot_test, first_is_dot_starts, strncmp_starts.
  unfold surfaceable. case_bool_decide; [done|].
  destruct (starts_with "." vname); [done|].
  by destruct (starts_with RVAULT_META_PREF vname).
Qed.

(** Any callback sees what the recording callback records. *)
Lemma iter_dir_loop_replay {A} v (f : A → string → string → A) entries arg calls :
  let rec := iter_dir_loop v record_call entries calls in
  ∃ new, rec.2 = calls ++ new
    ∧ iter_dir_loop v f entries arg = (rec.1, replay f arg new).
Proof.
  revert arg calls. induction entries as [|vname rest IH]; intros arg calls.
  - exists []. simpl. by rewrite app_nil_r.
  - cbn zeta. rewrite !iter_dir_loop_cons.
    case_bool_decide.
    + destruct (IH (f arg vname vname) (record_call calls vname vname))
        as (new & Hn & ->). cbn zeta in Hn.
      exists ((vname, vname) :: new). split; [|done].
      rewrite Hn. unfold record_call. by rewrite <- app_assoc.
    + destruct (surfaceable vname); [|by apply IH].
      destruct (rvault_resolve_vname v vname) as [name|].
      * destruct (IH (f arg name vname) (record_call calls name vname))
          as (new & Hn & ->). cbn zeta in Hn.
        exists ((name, vname) :: new). split; [|done].
        rewrite Hn. unfold record_call. by rewrite <- app_assoc.
      * exists []. simpl. by rewrite app_nil_r.
Qed.

(** What is recorded is an initial part of the specified enumeration,
    and all of it when the loop returns 0. *)
Lemma iter_dir_loop_surfaced v entries calls :
  let rec := iter_dir_loop v record_call entries calls in
  ∃ new, rec.2 = calls ++ new
    ∧ new `prefix_of` surfaced v entries
    ∧ (rec.1 = 0 ∨ rec.1 = -1)
    ∧ (rec.1 = 0 → new = surfaced v entries).
Proof.
  revert calls. induction entries as [|vname rest IH]; intros calls.
  - exists []. simpl. rewrite app_nil_r. split_and!; auto. 
  - cbn zeta. rewrite iter_dir_loop_cons. simpl surfaced.
    case_bool_decide.
    + destruct (IH (record_call calls vname vname)) as (new & Hn & Hp & H01 & H0).
      cbn zeta in *. exists ((vname, vname) :: new). split_and!.
      * rewrite Hn. unfold record_call. by rewrite <- app_assoc.
      * by apply prefix_cons.
      * done.
      * intros H'. by rewrite H0.
    + destruct (surfaceable vname); [|by apply IH].
      destruct (rvault_resolve_vname v vname) as [name|].
      * destruct (IH (record_call calls name vname)) as (new & Hn & Hp & H01 & H0).
        cbn zeta in *. exists ((name, vname) :: new). split_and!.
        -- rewrite Hn. unfold record_call. by rewrite <- app_assoc.
        -- by apply prefix_cons.
        -- done.
        -- intros H'. by rewrite H0.
      * exists []. simpl. rewrite app_nil_r. split_and!; [done| |by right|done].
        apply prefix_nil.
Qed.

Lemma iter_dir_loop_all_resolve {A} v (f : A → string → string → A) entries arg :
  all_resolve v entries →
  iter_dir_loop v f entries arg = (0, replay f arg (surfaced v entries)).
Proof.
  revert arg. induction entries as [|vname rest IH]; intros arg Hall; [done|].
  assert (all_resolve v rest) as Hrest.
  { intros x Hx. apply Hall. by right. }
  rewrite iter_dir_loop_cons. simpl surfaced. case_bool_decide as Hd.
  - by rewrite IH.
  - destruct (surfaceable vname) eqn:Hs; [|by rewrite IH].
    destruct (Hall vname) as [name Hn]; [by left|tauto|tauto|done|].
    rewrite Hn. by rewrite IH.
Qed.

Lemma iter_dir_loop_zero {A} v (f : A → string → string → A) entries arg :
  (iter_dir_loop v f entries arg).1 = 0 → all_resolve v entries.
Proof.
  revert arg. induction entries as [|vname rest IH]; intros arg H0 x Hx Hd1 Hd2 Hs.
  - by apply elem_of_nil in Hx.
  - rewrite iter_dir_loop_cons in H0. apply elem_of_cons in Hx as [->|Hx].
    + rewrite bool_decide_eq_false_2, Hs in H0 by tauto.
      by destruct (rvault_resolve_vname v vname).
    + case_bool_decide; [by eapply IH|].
      destruct (surfaceable vname); [|by eapply IH].
      destruct (rvault_resolve_vname v vname); [by eapply IH|done].
Qed.

Lemma iter_dir_loop_app {A} v (f : A → string → string → A) pre rest arg :
  iter_dir_loop v f (pre ++ rest) arg =
  let r := iter_dir_loop v f pre arg in
  if r.1 =? 0 then iter_dir_loop v f rest r.2 else r.
Proof.
  revert arg. induction pre as [|vname pre IH]; intros arg; [done|].
  rewrite <- app_comm_cons, !iter_dir_loop_cons.
  case_bool_decide; [apply IH|].
  destruct (surfaceable vname); [|apply IH].
  destruct (rvault_resolve_vname v vname); [apply IH|done].
Qed.

Lemma iter_dir_loop_code {A} v (f : A → string → string → A) entries arg :
  (iter_dir_loop v f entries arg).1 = 0 ∨ (iter_dir_loop v f entries arg).1 = -1.
Proof.
  revert arg. induction entries as [|vname rest IH]; intros arg; [by left|].
  rewrite iter_dir_loop_cons. case_bool_decide; [apply IH|].
  destruct (surfaceable vname); [|apply IH].
  destruct (rvault_resolve_vname v vname); [apply IH|by right].
Qed.

Lemma surfaced_elem v entries name vname :
  (name, vname) ∈ surfaced v entries →
  vname ∈ entries
  ∧ ((vname = "."%string ∨ vname = ".."%string) ∧ name = vname
     ∨ starts_with "." vname = false
       ∧ starts_with RVAULT_META_PREF vname = false
       ∧ rvault_resolve_vname v vname = Some name).
Proof.
  induction entries as [|x rest IH]; simpl; [by intros ?%elem_of_nil|].
  assert ((name, vname) ∈ surfaced v rest →
          vname ∈ x :: rest ∧ ((vname = "."%string ∨ vname = ".."%string) ∧ name = vname
            ∨ starts_with "." vname = false
              ∧ starts_with RVAULT_META_PREF vname = false
              ∧ rvault_resolve_vname v vname = Some name)) as IH'.
  { intros H. destruct (IH H) as [? ?]. split; [by right|done]. }
  case_bool_decide as Hd.
  - intros [[= -> ->]|?]%elem_of_cons; [|by apply IH'].
    split; [by left|by left].
  - destruct (surfaceable x) eqn:Hs; [|done].
    destruct (rvault_resolve_vname v x) as [n|] eqn:Hr; [|done].
    intros [[= -> ->]|?]%elem_of_cons; [|by apply IH'].
    split; [by left|right].
    unfold surfaceable in Hs. apply andb_true_iff in Hs as [H1 H2].
    apply negb_true_iff in H1, H2. done.
Qed.

(** C8, as the code has it.  The callback is invoked on an initial
    part of the specified enumeration, in order, and on all of it when
    [rvault_iter_dir] returns 0, which it does exactly when every entry
    presented to the resolver resolves: [.] and [..] unchanged, every
    other entry that begins neither with a dot nor with the metadata
    prefix under its resolved name.  Whatever the return value, no
    dot-file and no entry with the metadata prefix, hence not the
    metadata file, reaches the callback. *)
Theorem iter_dir_callbacks {A} fs v path vpath entries
    (iterfunc : A → string → string → A) (arg : A) :
  rvault_resolve_path v path = Some vpath →
  fs_dirs fs !! vpath = Some entries →
  let rec := rvault_iter_dir fs v path [] record_call in
  let r := rvault_iter_dir fs v path arg iterfunc in
  r.1 = rec.1
  ∧ r.2 = replay iterfunc arg rec.2
  ∧ rec.2 `prefix_of` surfaced v entries
  ∧ (rec.1 = 0 ↔ all_resolve v entries)
  ∧ (rec.1 = 0 → rec.2 = surfaced v entries)
  ∧ (∀ name vname, (name, vname) ∈ rec.2 →
       vname ∈ entries
       ∧ ((vname = "."%string ∨ vname = ".."%string) ∧ name = vname
          ∨ starts_with "." vname = false
            ∧ starts_with RVAULT_META_PREF vname = false
            ∧ rvault_resolve_vname v vname = Some name))
  ∧ (starts_with RVAULT_META_PREF RVAULT_META_FILE = true →
     RVAULT_META_FILE ≠ "."%string → RVAULT_META_FILE ≠ ".."%string →
     ∀ name, (name, RVAULT_META_FILE) ∉ (rec.2)).
Proof.
  intros Hp Hd. unfold rvault_iter_dir. rewrite Hp, Hd. cbn zeta.
  destruct (iter_dir_loop_replay v iterfunc entries arg []) as (new & Hn & Hr).
  destruct (iter_dir_loop_surfaced v entries []) as (new' & Hn' & Hpre & H01 & H0).
  cbn zeta in *. rewrite Hn in Hn'. simpl in Hn'. subst new'.
  simpl in Hn. rewrite Hr, Hn. simpl.
  assert (∀ name vname, (name, vname) ∈ new →
       vname ∈ entries
       ∧ ((vname = "."%string ∨ vname = ".."%string) ∧ name = vname
          ∨ starts_with "." vname = false
            ∧ starts_with RVAULT_META_PREF vname = false
            ∧ rvault_resolve_vname v vname = Some name)) as Hel.
  { intros name vname Hin. apply surfaced_elem.
    destruct Hpre as [k ->]. apply elem_of_app. by left. }
  split_and!; try done.
  - split; [apply iter_dir_loop_zero|].
    intros Hall. by rewrite iter_dir_loop_all_resolve.
  - intros Hpref Hne1 Hne2 name Hin.
    destruct (Hel _ _ Hin) as [_ [[[?|?] _]|(_ & Hf & _)]]; [done..|congruence].
Qed.

(** C7, as the code has it.  A stored name that reaches the resolver
    and fails to resolve ends the enumeration: [rvault_iter_dir]
    returns [-1], and when the entries before it resolve, the callback
    has been invoked on exactly those and on none of the entries that
    follow. *)
Theorem iter_dir_unresolved_aborts {A} fs v path vpath pre bad post
    (iterfunc : A → string → string → A) (arg : A) :
  rvault_resolve_path v path = Some vpath →
  fs_dirs fs !! vpath = Some (pre ++ bad :: post) →
  bad ≠ "."%string → bad ≠ ".."%string →
  surfaceable bad = true →
  rvault_resolve_vname v bad = None →
  let r := rvault_iter_dir fs v path arg iterfunc in
  r.1 = -1
  ∧ (all_resolve v pre → r.2 = replay iterfunc arg (surfaced v pre)).
Proof.
  intros Hp Hd Hb1 Hb2 Hs Hbad. unfold rvault_iter_dir. rewrite Hp, Hd. cbn zeta.
  rewrite iter_dir_loop_app. cbn zeta.
  assert (∀ a, iter_dir_loop v iterfunc (bad :: post) a = (-1, a)) as Hstop.
  { intros a. rewrite iter_dir_loop_cons, bool_decide_eq_false_2 by tauto.
    by rewrite Hs, Hbad. }
  split.
  - destruct (iter_dir_loop_code v iterfunc pre arg) as [H0|H1].
    + rewrite H0, Z.eqb_refl. by rewrite Hstop.
    + by rewrite H1.
  - intros Hall. rewrite (iter_dir_loop_all_resolve v iterfunc pre arg Hall).
    cbn [fst snd]. rewrite Z.eqb_refl. by rewrite Hstop.
Qed.
End IterDir.

Section IterDirRuns.
Local Existing Instance Toy.be.

(** C7, counterexample: the entry [junk] does not resolve; the
    enumeration is not continued with [enc-a], and the return value is
    [-1], not success. *)
Lemma iter_dir_stops_at_unresolved :
  let entries := ["."; ".."; "junk"; "enc-a"]%string in
  rvault_resolve_vname Toy.vault "junk" = None
  ∧ rvault_resolve_vname Toy.vault "enc-a" = Some "a"%string
  ∧ rvault_iter_dir (Toy.listing entries) Toy.vault "/" [] record_call
    = (-1, [("."%string, "."%string); (".."%string, ".."%string)]).
Proof. vm_compute. done. Qed.

(** C8, counterexample: [enc-b] begins neither with a dot nor with the
    metadata prefix and resolves to [b], yet the callback is never
    invoked with [b]. *)
Lemma iter_dir_misses_resolvable_entry :
  let entries := ["."; "enc-a"; "lost"; "enc-b"; ".."]%string in
  let r := rvault_iter_dir (Toy.listing entries) Toy.vault "/" [] record_call in
  surfaceable "enc-b" = true
  ∧ rvault_resolve_vname Toy.vault "enc-b" = Some "b"%string
  ∧ ¬ ("b"%string, "enc-b"%string) ∈ r.2
  ∧ ¬ (".."%string, ".."%string) ∈ r.2.
Proof.
  vm_compute. split_and!; try done.
  - intros H. repeat (apply elem_of_cons in H as [[=]|H]). by apply elem_of_nil in H.
  - intros H. repeat (apply elem_of_cons in H as [[=]|H]). by apply elem_of_nil in H.
Qed.

Lemma iter_dir_callbacks_witness :
  let entries := ["."; ".."; ".git"; "rvault.metadata"; "enc-a"; "enc-b"]%string in
  let rec := rvault_iter_dir (Toy.listing entries) Toy.vault "/" [] record_call in
  rec = (0, [("."%string, "."%string); (".."%string, ".."%string);
             ("a"%string, "enc-a"%string); ("b"%string, "enc-b"%string)])
  ∧ rec.2 = surfaced Toy.vault entries
  ∧ ∀ name, (name, RVAULT_META_FILE) ∉ (rec.2).
Proof.
  cbn zeta.
  destruct (iter_dir_callbacks (P := Toy.be)
              (Toy.listing ["."; ".."; ".git"; "rvault.metadata"; "enc-a"; "enc-b"]%string)
              Toy.vault "/" "/v/"
              ["."; ".."; ".git"; "rvault.metadata"; "enc-a"; "enc-b"]%string
              record_call [])
    as (_ & _ & _ & _ & H0 & _ & Hm).
  - vm_compute; reflexivity.
  - vm_compute; reflexivity.
  - split; [vm_compute; reflexivity|]. split.
    + apply H0. vm_compute; reflexivity.
    + apply Hm; [vm_compute; reflexivity|done|done].
Defined.

Lemma iter_dir_unresolved_aborts_witness :
  let entries := ["."; ".."; "enc-a"; "junk"; "enc-b"]%string in
  let r := rvault_iter_dir (Toy.listing entries) Toy.vault "/" [] record_call in
  rvault_resolve_vname Toy.vault "junk" = None
  ∧ r.1 = -1
  ∧ r.2 = replay record_call [] (surfaced Toy.vault ["."; ".."; "enc-a"]%string).
Proof.
  cbn zeta. split; [vm_compute; reflexivity|].
  destruct (iter_dir_unresolved_aborts (P := Toy.be)
              (Toy.listing ["."; ".."; "enc-a"; "junk"; "enc-b"]%string)
              Toy.vault "/" "/v/" ["."; ".."; "enc-a"]%string "junk"
              ["enc-b"]%string record_call [])
    as (H1 & H2).
  - vm_compute; reflexivity.
  - vm_compute; reflexivity.
  - done.
  - done.
  - vm_compute; reflexivity.
  - vm_compute; reflexivity.
  - split; [exact H1|]. apply H2.
    intros x Hx Hd1 Hd2 _.
    repeat (apply elem_of_cons in Hx as [->|Hx]); try done.
    by apply elem_of_nil in Hx.
Defined.
End IterDirRuns.


(** ** Closing *)

Section Close.
Context `{P : Platform}.
Implicit Types v : rvault_t crypto_t.

Lemma list_unlink_head fobj l : list_unlink fobj (fobj :: l) = l.
Proof. simpl. by rewrite bool_decide_eq_true_2. Qed.

(** With fuel for every file object the loop ends with an empty list;
    the count reaches zero when it counted the list. *)
Lemma close_files_run l : ∀ fuel v,
  v_file_list v = l →
  v_file_count v = Z.of_nat (length l) →
  (length l ≤ fuel)%nat →
  rvault_close_files fuel v
  = Some (Ok (mk_rvault (v_base_path v) (v_uid v) (v_cipher v) (v_crypto v)
                (v_server_url v) [] 0,
              REL_fileobj <$> l)).
Proof.
  induction l as [|fobj l IH]; intros fuel v Hl Hc Hfuel.
  - destruct v as [b u c k s fl fc]. simpl in *. subst.
    destruct fuel; simpl; done.
  - destruct fuel as [|fuel]; [simpl in Hfuel; lia|].
    destruct v as [b u c k s fl fc]. simpl in Hl, Hc. subst fl fc.
    cbn [rvault_close_files v_file_list head].
    rewrite (IH fuel (fileobj_close fobj (mk_rvault b u c k s (fobj :: l) _))).
    + done.
    + unfold fileobj_close. cbn [v_file_list]. apply list_unlink_head.
    + unfold fileobj_close. cbn [v_file_count length]. lia.
    + simpl in Hfuel. lia.
Qed.

(** The vaults closed on the error paths hold no file object. *)
Lemma close_and_fail_fresh {A} base uid cipher crypto url w :
  close_and_fail (A := A) (mk_rvault base uid cipher crypto url [] 0) w = (Fail, w).
Proof. unfold close_and_fail. simpl. done. Qed.

(** C10.  For every vault, whether or not [base_path] and [crypto] are
    set, [rvault_close] first closes every file object of [file_list],
    in order, ending with an empty list and [file_count == 0]; it then
    frees [base_path] only when it is set, destroys the crypto state only
    when it is set, and frees the vault.  On the vaults of the error
    paths of [rvault_open_hdr], [rvault_open] and [rvault_open_ekey],
    whose list is empty, it needs no iteration and touches nothing that
    is unset. *)
Theorem close_releases_what_is_set v fuel :
  v_file_count v = Z.of_nat (length (v_file_list v)) →
  (length (v_file_list v) ≤ fuel)%nat →
  (∃ v', rvault_close_files fuel v = Some (Ok (v', REL_fileobj <$> v_file_list v))
         ∧ v_file_list v' = [] ∧ v_file_count v' = 0
         ∧ v_base_path v' = v_base_path v ∧ v_crypto v' = v_crypto v)
  ∧ rvault_close fuel v
    = Some (Ok ((REL_fileobj <$> v_file_list v)
                ++ match v_base_path v with
                   | Some p => [REL_base_path p]
                   | None => []
                   end
                ++ match v_crypto v with
                   | Some c => [REL_crypto c]
                   | None => []
                   end
                ++ [REL_vault]))
  ∧ (∀ A base uid cipher crypto url w,
       rvault_close 0 (mk_rvault base uid cipher crypto url [] 0)
       = Some (Ok (match base with Some p => [REL_base_path p] | None => [] end
                   ++ match crypto with Some c => [REL_crypto c] | None => [] end
                   ++ [REL_vault]))
       ∧ close_and_fail (A := A) (mk_rvault base uid cipher crypto url [] 0) w
         = (Fail, w)).
Proof.
  intros Hc Hfuel.
  pose proof (close_files_run (v_file_list v) fuel v eq_refl Hc Hfuel) as Hrun.
  split_and!.
  - eexists. split; [exact Hrun|done].
  - unfold rvault_close. rewrite Hrun. done.
  - intros. split; [done|apply close_and_fail_fresh].
Qed.
End Close.

Section CloseRuns.
Local Existing Instance Toy.be.

Lemma close_releases_what_is_set_witness :
  let c := Toy.mk_crypto 4 None None in
  let v := mk_rvault None [] 4 (Some c) None [5; 7]%nat 2 in
  v_file_count v = Z.of_nat (length (v_file_list v))
  ∧ rvault_close 2 v
    = Some (Ok [REL_fileobj 5%nat; REL_fileobj 7%nat; REL_crypto c; REL_vault]).
Proof.
  cbn zeta. split; [reflexivity|].
  apply (close_releases_what_is_set (P := Toy.be)
           (mk_rvault None [] 4 (Some (Toy.mk_crypto 4 None None)) None [5; 7]%nat 2) 2).
  - reflexivity.
  - simpl. lia.
Defined.
End CloseRuns.


(** ** Opening *)

Section OpenSteps.
Context `{P : Platform}.
Implicit Types v : rvault_t crypto_t.
Implicit Types w : world.

Lemma world_eta w : mk_world (w_fs w) (w_srv w) (w_log w) = w.
Proof. by destruct w. Qed.

Lemma close_and_fail_not_Ok {A} v w (a : A) w' : close_and_fail v w ≠ (Ok a, w').
Proof. unfold close_and_fail. by destruct (rvault_close 0 v) as [[]|]. Qed.

(** Opening the metadata file read-only. *)
Lemma open_metadata_rdonly path w :
  open_metadata path O_RDONLY w
  = if bool_decide (is_Some (fs_dirs (w_fs w) !! path)) then
      if bool_decide (is_Some (fs_files (w_fs w) !! meta_path path)
                      ∨ is_Some (fs_dirs (w_fs w) !! meta_path path))
      then (Ok (meta_path path, path), w)
      else (Fail, mk_world (w_fs w) (w_srv w)
                    (w_log w ++ [MSG_could_not "open" (meta_path path) ENOENT]))
    else
      (Fail, mk_world (w_fs w) (w_srv w)
               (w_log w ++ [if bool_decide (is_Some (fs_dirs (w_fs w) !! path)
                                            ∨ is_Some (fs_files (w_fs w) !! path))
                            then MSG_not_a_directory path
                            else MSG_location_not_found path])).
Proof.
  unfold open_metadata, get_vault_path, realpath, is_directory, sys_open.
  unfold mbind, M_bind, get_fs, put_fs, app_log, fail, mret, M_ret. simpl.
  repeat (case_bool_decide; simpl); rewrite ?world_eta; try done; tauto.
Qed.

Lemma open_metadata_mmap_Ok path w hdr rpath len w' :
  open_metadata_mmap path w = (Ok (hdr, rpath, len), w') ↔
  ∃ f, is_Some (fs_dirs (w_fs w) !! path)
       ∧ fs_files (w_fs w) !! meta_path path = Some f
       ∧ RVAULT_HDR_LEN ≤ blen (f_data f)
       ∧ hdr = f_data f ∧ rpath = path ∧ len = blen hdr ∧ w' = w.
Proof.
  unfold open_metadata_mmap, mbind at 1, M_bind. rewrite open_metadata_rdonly.
  case_bool_decide as Hd; [|split; [done|by intros (? & ? & _)]].
  destruct (fs_files (w_fs w) !! meta_path path) as [f|] eqn:Hf.
  - rewrite bool_decide_true by (left; by eexists).
    unfold mbind, M_bind, get_fs, fs_file_size, safe_mmap.
    simpl. rewrite Hf. simpl.
    destruct (blen (f_data f) <? RVAULT_HDR_LEN) eqn:Hlen; simpl.
    + split; [done|]. intros (f' & _ & [= <-] & ? & _). lia.
    + split.
      * intros [= <- <- <- <-]. exists f. split_and!; try done. lia.
      * intros (f' & _ & [= <-] & _ & -> & -> & -> & ->). done.
  - case_bool_decide as Hp; [|split; [done|by intros (f & _ & ? & _)]].
    unfold mbind, M_bind, get_fs, fs_file_size, safe_mmap, app_log, fail, lift.
    simpl. rewrite Hf. simpl.
    split; [|by intros (f & _ & ? & _)].
    destruct (fs_dirs (w_fs w) !! meta_path path) as [entries|]; simpl; [|done].
    by destruct (dir_st_size entries <? RVAULT_HDR_LEN).
Qed.

(** [rvault_open_hdr] yields a vault exactly when the version, the
    length and the cipher are accepted and the cipher takes the IV. *)
Lemma open_hdr_Ok hdr server file_len w v w' :
  rvault_open_hdr hdr server file_len w = (Ok v, w') ↔
  ∃ cipher uid iv c0 c1,
    hdr_ver hdr = Ok RVAULT_ABI_VER
    ∧ RVAULT_FILE_LEN host_endian hdr = Ok file_len
    ∧ hdr_cipher hdr = Ok cipher
    ∧ hdr_uid hdr = Ok uid
    ∧ crypto_create cipher = Some c0
    ∧ hdr_iv host_endian hdr = Ok iv
    ∧ crypto_set_iv c0 iv = Some c1
    ∧ v = mk_rvault None uid cipher (Some c1) server [] 0
    ∧ w' = w.
Proof.
  unfold rvault_open_hdr. split.
  - intros H. minv'.
    all: try (by destruct (close_and_fail_not_Ok _ _ _ _ H)).
    apply negb_false_iff, Z.eqb_eq in Heqb, Heqb0. subst.
    eexists _, _, _, _, _. split_and!; try done.
  - intros (cipher & uid & iv & c0 & c1 & Hv & Hl & Hc & Hu & Hcr & Hiv & Hset & -> & ->).
    unfold mbind, M_bind, lift. rewrite Hv, Z.eqb_refl, Hl, Z.eqb_refl, Hc, Hu. simpl.
    rewrite Hcr, Hiv, Hset. done.
Qed.

Lemma open_key_Ok path server pwd w hdr v c w' :
  rvault_open_key path server pwd w = (Ok (hdr, v, c), w') ↔
  key_installed path server pwd w hdr v c w'.
Proof.
  unfold rvault_open_key, key_installed. split.
  - intros H. apply bind_Ok in H as ([[hdr0 rpath] len] & w1 & Hmap & H).
    apply open_metadata_mmap_Ok in Hmap as (f & Hd & Hf & Hlen & -> & -> & -> & ->).
    apply bind_Ok in H as (v0 & w1 & Hhdr & H).
    apply open_hdr_Ok in Hhdr
      as (cipher & uid & iv & c0 & c1 & Hv & Hl & Hc & Hu & Hcr & Hiv & Hset & -> & ->).
    cbn [set_base_path v_crypto v_uid v_cipher v_server_url v_file_list v_file_count] in H.
    minv'.
    all: try (by destruct (close_and_fail_not_Ok _ _ _ _ H)).
    all: unfold mret, M_ret in H; simplify_eq.
    + eexists f, cipher, uid, iv, _, _, _, c0, _, _.
      split_and!; try done. rewrite Heqb. simpl. split_and!; eauto.
    + eexists f, cipher, uid, iv, _, _, _, c0, _, c.
      split_and!; try done. by rewrite Heqb.
  - intros (f & cipher & uid & iv & kp & kp_len & flags & c0 & c1 & c2 & Hd & Hf & -> & Hlen & Hv
            & Hl & Hc & Hu & Hcr & Hiv & Hset & Hkp & Hpk & Hfl & -> & Hkey).
    assert (open_metadata_mmap path w = (Ok (f_data f, path, blen (f_data f)), w)) as Hmap.
    { apply open_metadata_mmap_Ok. exists f. done. }
    rewrite (bind_step _ _ _ _ _ Hmap). cbn zeta.
    assert (rvault_open_hdr (f_data f) server (blen (f_data f)) w
            = (Ok (mk_rvault None uid cipher (Some c1) server [] 0), w)) as Hhdr.
    { apply open_hdr_Ok. eexists _, _, _, _, _. split_and!; done. }
    rewrite (bind_step _ _ _ _ _ Hhdr).
    cbn [set_base_path v_crypto v_uid v_cipher v_server_url v_file_list v_file_count].
    unfold mbind, M_bind, lift, get_srv, put_srv, mret, M_ret.
    rewrite Hkp, Hpk, Hfl.
    destruct (Z.land flags RVAULT_FLAG_NOAUTH =? 0).
    + destruct Hkey as ([url ->] & Hget & ->). unfold set_crypto. simpl.
      simpl in Hget. rewrite Hget. done.
    + destruct Hkey as [-> ->]. done.
Qed.

(** [rvault_open] returns a handle exactly when the key gets installed
    and the stored HMAC verifies under it. *)
Lemma open_Ok path server pwd w v w' :
  rvault_open path server pwd w = (Ok v, w') ↔
  ∃ hdr c, key_installed path server pwd w hdr v c w'
           ∧ rvault_hmac_verify c hdr = Ok tt.
Proof.
  unfold rvault_open. split.
  - intros H. apply bind_Ok in H as ([[hdr v0] c] & w1 & Hkey & H).
    apply open_key_Ok in Hkey.
    destruct (rvault_hmac_verify c hdr) as [[]| |] eqn:Hv.
    + apply mret_Ok in H as [-> ->]. by exists hdr, c.
    + minv'. by destruct (close_and_fail_not_Ok _ _ _ _ H).
    + done.
  - intros (hdr & c & Hkey & Hv). apply open_key_Ok in Hkey.
    rewrite (bind_step _ _ _ _ _ Hkey). by rewrite Hv.
Qed.

End OpenSteps.


(** ** Opening by recovery *)

Section Recovery.
Context `{P : Platform}.
Implicit Types v : rvault_t crypto_t.
Implicit Types w : world.

Lemma open_hdr_srv hdr server file_len :
  preserves w_srv (rvault_open_hdr hdr server file_len).
Proof.
  unfold rvault_open_hdr. repeat first [apply app_log_srv | preserves_step].
Qed.

Lemma open_hdr_fs hdr server file_len :
  preserves w_fs (rvault_open_hdr hdr server file_len).
Proof.
  unfold rvault_open_hdr. repeat first [apply app_log_fs | preserves_step].
Qed.

Lemma open_ekey_srv path recovery : preserves w_srv (rvault_open_ekey path recovery).
Proof.
  unfold rvault_open_ekey.
  repeat first [apply app_log_srv | apply get_vault_path_srv | apply open_hdr_srv
               | preserves_step].
Qed.

Lemma open_ekey_fs path recovery : preserves w_fs (rvault_open_ekey path recovery).
Proof.
  unfold rvault_open_ekey.
  repeat first [apply app_log_fs | apply get_vault_path_fs | apply open_hdr_fs
               | preserves_step].
Qed.

(** C9.  [rvault_open_ekey] returns a handle exactly when the recovery
    file parses, the directory exists, [rvault_open_hdr] accepts the
    METADATA section (version, length, cipher, IV) and [crypto_set_key]
    accepts the EKEY section; the handle then holds the IV of the
    METADATA section and the key of the EKEY section, and no server URL.
    Whatever the outcome the state of the key server and the file system
    are left as they were, and the result is the same whatever the
    passphrase key derivation, the HMAC and the key-server calls would
    do: none of them takes part. *)
Theorem open_ekey_from_recovery_alone path recovery w :
  (∀ v w',
     rvault_open_ekey path recovery w = (Ok v, w') ↔
     ∃ f sections cipher uid iv c0 c1 c,
       fs_files (w_fs w) !! recovery = Some f
       ∧ rvault_recovery_import (f_data f) = Some sections
       ∧ is_Some (fs_dirs (w_fs w) !! path)
       ∧ hdr_ver (RECOVERY_METADATA sections) = Ok RVAULT_ABI_VER
       ∧ RVAULT_FILE_LEN host_endian (RECOVERY_METADATA sections)
         = Ok (blen (RECOVERY_METADATA sections))
       ∧ hdr_cipher (RECOVERY_METADATA sections) = Ok cipher
       ∧ hdr_uid (RECOVERY_METADATA sections) = Ok uid
       ∧ crypto_create cipher = Some c0
       ∧ hdr_iv host_endian (RECOVERY_METADATA sections) = Ok iv
       ∧ crypto_set_iv c0 iv = Some c1
       ∧ crypto_set_key c1 (RECOVERY_EKEY sections) = Some c
       ∧ v = mk_rvault (Some path) uid cipher (Some c) None [] 0
       ∧ w' = w)
  ∧ w_srv (rvault_open_ekey path recovery w).2 = w_srv w
  ∧ w_fs (rvault_open_ekey path recovery w).2 = w_fs w
  ∧ (∀ kdf hmac key_set key_get,
       @rvault_open_ekey (replace_keying P kdf hmac key_set key_get) path recovery w
       = rvault_open_ekey path recovery w).
Proof.
  split_and!.
  - intros v w'. unfold rvault_open_ekey. split.
    + intros H. apply bind_Ok in H as (fs & w1 & [= <- <-] & H).
      destruct (fs_files (w_fs w) !! recovery) as [f|] eqn:Hf; [|by minv'].
      destruct (rvault_recovery_import (f_data f)) as [sections|] eqn:Hs; [|done].
      cbn zeta in H.
      apply bind_Ok in H as (rpath & w1 & Hpath & H).
      apply get_vault_path_Ok in Hpath as (-> & -> & Hd).
      apply bind_Ok in H as (v0 & w1 & Hhdr & H).
      apply open_hdr_Ok in Hhdr
        as (cipher & uid & iv & c0 & c1 & Hv & Hl & Hc & Hu & Hcr & Hiv & Hset & -> & ->).
      cbn [set_base_path v_crypto v_uid v_cipher v_server_url v_file_list
           v_file_count] in H.
      minv';
        try (by match goal with
                | H' : close_and_fail _ _ = _ |- _ =>
                    destruct (close_and_fail_not_Ok _ _ _ _ H')
                end).
      simplify_eq.
      eexists f, sections, cipher, uid, iv, c0, _, _. split_and!; done.
    + intros (f & sections & cipher & uid & iv & c0 & c1 & c & Hf & Hs & [ents Hd] & Hv
              & Hl & Hc & Hu & Hcr & Hiv & Hset & Hkey & -> & ->).
      unfold mbind at 1, M_bind, get_fs. rewrite Hf, Hs. cbn zeta.
      rewrite (bind_step _ _ _ _ _ (get_vault_path_dir _ _ _ Hd)).
      assert (rvault_open_hdr (RECOVERY_METADATA sections) None
                (blen (RECOVERY_METADATA sections)) w
              = (Ok (mk_rvault None uid cipher (Some c1) None [] 0), w)) as Hhdr.
      { apply open_hdr_Ok. eexists _, _, _, _, _. split_and!; done. }
      rewrite (bind_step _ _ _ _ _ Hhdr).
      cbn [set_base_path v_crypto v_uid v_cipher v_server_url v_file_list v_file_count].
      unfold mbind, M_bind, lift. by rewrite Hkey.
  - apply open_ekey_srv.
  - apply open_ekey_fs.
  - reflexivity.
Qed.
End Recovery.

Section RecoveryRuns.
Local Existing Instance Toy.be.

Lemma open_ekey_from_recovery_alone_witness :
  ∃ v, rvault_open_ekey "/v" "/r" (Toy.world_recovery Toy.metadata1)
       = (Ok v, Toy.world_recovery Toy.metadata1)
       ∧ v_crypto v
         = Some (Toy.mk_crypto 1 (Some (Z.of_nat <$> seq 1 16)) (Some Toy.K_E))
       ∧ v_server_url v = None.
Proof.
  destruct (open_ekey_from_recovery_alone (P := Toy.be) "/v" "/r"
              (Toy.world_recovery Toy.metadata1)) as (Hiff & _).
  eexists. split.
  - apply Hiff. eexists _, _, _, _, _, _, _, _.
    split; [vm_compute; reflexivity|].
    split; [vm_compute; reflexivity|].
    split; [vm_compute; eexists; reflexivity|].
    split_and!; vm_compute; reflexivity.
  - split; vm_compute; reflexivity.
Defined.

(** The stored HMAC plays no part: a recovery file whose METADATA
    section carries a zeroed HMAC yields the same handle. *)
Lemma open_ekey_ignores_stored_hmac :
  Toy.metadata1_no_hmac ≠ Toy.metadata1
  ∧ (rvault_open_ekey "/v" "/r" (Toy.world_recovery Toy.metadata1_no_hmac)).1
    = (rvault_open_ekey "/v" "/r" (Toy.world_recovery Toy.metadata1)).1
  ∧ ∃ v, (rvault_open_ekey "/v" "/r" (Toy.world_recovery Toy.metadata1)).1 = Ok v.
Proof. vm_compute. split_and!; [done|done|by eexists]. Qed.
End RecoveryRuns.


(** ** Failures of the verification *)

Section Tamper.
Context `{P : Platform}.
Implicit Types v : rvault_t crypto_t.
Implicit Types w : world.

Lemma load16_range e b0 b1 : 0 ≤ load16 e b0 b1 ≤ UINT16_MAX.
Proof.
  unfold load16, UINT16_MAX.
  destruct e; rewrite lor_shiftl8, !u8_mod by (rewrite u8_mod; lia); lia.
Qed.

Lemma peek16_range e off buf x : peek16 e off buf = Ok x → 0 ≤ x ≤ UINT16_MAX.
Proof.
  unfold peek16. intros H. destruct (peek off 2 buf); simpl in H; [|done..].
  injection H as <-. apply load16_range.
Qed.

(** A raw 16-bit length that fits before the end of the tag also fits
    before its start: it differs from its decoded value by a multiple
    of 255. *)
Lemma raw_length_fits e raw :
  0 ≤ raw ≤ UINT16_MAX →
  raw ≤ be16toh e raw + HMAC_SHA3_256_BUFLEN →
  raw ≤ be16toh e raw.
Proof.
  unfold UINT16_MAX, HMAC_SHA3_256_BUFLEN, be16toh, htobe16. intros Hr.
  destruct e.
  - rewrite bswap16_val, u16_mod, lo8_mod, hi8_div. lia.
  - rewrite u16_mod. lia.
Qed.

Lemma file_len_Ok hdr n :
  RVAULT_FILE_LEN host_endian hdr = Ok n →
  ∃ iv_raw kp_raw,
    hdr_iv_len host_endian hdr = Ok iv_raw
    ∧ hdr_kp_len host_endian hdr = Ok kp_raw
    ∧ 0 ≤ be16toh host_endian iv_raw
    ∧ 0 ≤ be16toh host_endian kp_raw
    ∧ 0 ≤ kp_raw ≤ UINT16_MAX
    ∧ n = RVAULT_HDR_LEN + be16toh host_endian iv_raw + be16toh host_endian kp_raw
          + HMAC_SHA3_256_BUFLEN.
Proof.
  unfold RVAULT_FILE_LEN, RVAULT_HMAC_DATALEN. intros H.
  destruct (hdr_iv_len host_endian hdr) as [iv_raw| |] eqn:Hiv; try done.
  destruct (hdr_kp_len host_endian hdr) as [kp_raw| |] eqn:Hkp; try done.
  simpl in H. injection H as <-. exists iv_raw, kp_raw.
  pose proof (htobe16_range host_endian iv_raw).
  pose proof (htobe16_range host_endian kp_raw).
  pose proof (peek16_range _ _ _ _ Hkp).
  unfold be16toh. split_and!; try done; lia.
Qed.

(** Replacing the stored tag changes no other part of the record. *)
Lemma tamper_reads hdr tag hdr' :
  RVAULT_FILE_LEN host_endian hdr = Ok (blen hdr) →
  poke (blen hdr - HMAC_SHA3_256_BUFLEN) tag hdr = Ok hdr' →
  blen tag = HMAC_SHA3_256_BUFLEN →
  blen hdr' = blen hdr
  ∧ hdr_ver hdr' = hdr_ver hdr
  ∧ hdr_cipher hdr' = hdr_cipher hdr
  ∧ hdr_flags hdr' = hdr_flags hdr
  ∧ hdr_uid hdr' = hdr_uid hdr
  ∧ RVAULT_FILE_LEN host_endian hdr' = Ok (blen hdr')
  ∧ hdr_iv host_endian hdr' = hdr_iv host_endian hdr
  ∧ (∀ kp, hdr_kp host_endian hdr = Ok (kp, blen kp) →
           hdr_kp host_endian hdr' = Ok (kp, blen kp))
  ∧ hdr_hmac_data host_endian hdr' = hdr_hmac_data host_endian hdr
  ∧ hdr_hmac host_endian hdr' = Ok tag.
Proof.
  intros Hlen Hpoke Htag.
  destruct (file_len_Ok _ _ Hlen) as (iv_raw & kp_raw & Hiv & Hkp & ? & ? & Hr & Hn).
  pose proof (poke_blen _ _ _ _ Hpoke) as Hbl.
  unfold RVAULT_HDR_LEN, HMAC_SHA3_256_BUFLEN in *.
  assert (hdr_iv_len host_endian hdr' = Ok iv_raw) as Hiv'.
  { unfold hdr_iv_len in *. rewrite (peek16_poke_other _ _ _ _ _ _ Hpoke); [done|].
    unfold OFF_IV_LEN. lia. }
  assert (hdr_kp_len host_endian hdr' = Ok kp_raw) as Hkp'.
  { unfold hdr_kp_len in *. rewrite (peek16_poke_other _ _ _ _ _ _ Hpoke); [done|].
    unfold OFF_KP_LEN. lia. }
  split_and!.
  - done.
  - unfold hdr_ver. apply (peek8_poke_other _ _ _ _ _ Hpoke). unfold OFF_VER. lia.
  - unfold hdr_cipher. apply (peek8_poke_other _ _ _ _ _ Hpoke). unfold OFF_CIPHER. lia.
  - unfold hdr_flags. apply (peek8_poke_other _ _ _ _ _ Hpoke). unfold OFF_FLAGS. lia.
  - unfold hdr_uid. apply (peek_poke_other _ _ _ _ _ _ Hpoke). unfold OFF_UID, UID_LEN. lia.
  - unfold RVAULT_FILE_LEN, RVAULT_HMAC_DATALEN. rewrite Hiv', Hkp'. cbn [res_bind].
    f_equal. unfold RVAULT_HDR_LEN, HMAC_SHA3_256_BUFLEN. lia.
  - unfold hdr_iv. rewrite Hiv', Hiv. cbn [res_bind].
    apply (peek_poke_other _ _ _ _ _ _ Hpoke).
    unfold RVAULT_HDR_TO_IV, RVAULT_HDR_LEN. lia.
  - intros kp. unfold hdr_kp, RVAULT_HDR_TO_KP. rewrite Hiv', Hkp', Hiv, Hkp. cbn [res_bind].
    intros [= Hk Hraw].
    assert (peek (RVAULT_HDR_TO_IV + be16toh host_endian iv_raw) kp_raw hdr = Ok kp)
      as Hpeek.
    { rewrite <- Hk. apply take_drop_peek.
      - unfold RVAULT_HDR_TO_IV, RVAULT_HDR_LEN. lia.
      - lia.
      - rewrite Hk. done. }
    assert (peek (RVAULT_HDR_TO_IV + be16toh host_endian iv_raw) kp_raw hdr' = Ok kp)
      as Hpeek'.
    { rewrite (peek_poke_other _ _ _ _ _ _ Hpoke); [done|].
      apply peek_Ok in Hpeek as [(? & ? & Hb) _].
      unfold RVAULT_HDR_TO_IV, RVAULT_HDR_LEN in *.
      assert (kp_raw ≤ be16toh host_endian kp_raw); [|lia].
      apply raw_length_fits; [done|]. unfold HMAC_SHA3_256_BUFLEN. lia. }
    apply peek_Ok in Hpeek' as [_ <-]. by rewrite <- Hraw.
  - unfold hdr_hmac_data, RVAULT_HMAC_DATALEN. rewrite Hiv', Hkp', Hiv, Hkp. cbn [res_bind].
    apply (peek_poke_other _ _ _ _ _ _ Hpoke). unfold RVAULT_HDR_LEN. lia.
  - unfold hdr_hmac, RVAULT_HDR_TO_HMAC, RVAULT_HDR_TO_KP. rewrite Hiv', Hkp'. cbn [res_bind].
    replace (RVAULT_HDR_TO_IV + be16toh host_endian iv_raw
             + be16toh host_endian kp_raw) with (blen hdr - 32)
      by (unfold RVAULT_HDR_TO_IV, RVAULT_HDR_LEN; lia).
    apply (peek_poke_same' _ _ _ _ _ Hpoke). by rewrite Htag.
Qed.




End Tamper.

Section OpenHandle.
Context `{P : Platform}.
Implicit Types v : rvault_t crypto_t.
Implicit Types w : world.

(** C3, as the code has it.  [rvault_open] returns a handle if and only
    if the key gets installed ([key_installed]: the directory and the
    metadata file open, the file is at least one header long, the
    version, the length and the cipher are accepted, the cipher takes
    the IV, the passphrase key is derived, and in authenticated mode a
    server is given and the key is fetched) and the header HMAC verifies
    under that key.  In particular a handle implies the five conditions
    of the claim, and without any of the conditions there is no
    handle. *)
Theorem open_returns_handle_iff path server pwd w :
  (∀ v w',
     rvault_open path server pwd w = (Ok v, w') ↔
     ∃ hdr c, key_installed path server pwd w hdr v c w'
              ∧ rvault_hmac_verify c hdr = Ok tt)
  ∧ (∀ v w',
       rvault_open path server pwd w = (Ok v, w') →
       ∃ f cipher c,
         fs_files (w_fs w) !! meta_path path = Some f
         ∧ RVAULT_HDR_LEN ≤ blen (f_data f)
         ∧ hdr_ver (f_data f) = Ok RVAULT_ABI_VER
         ∧ hdr_cipher (f_data f) = Ok cipher
         ∧ is_Some (crypto_create cipher)
         ∧ RVAULT_FILE_LEN host_endian (f_data f) = Ok (blen (f_data f))
         ∧ v_crypto v = Some c
         ∧ rvault_hmac_verify c (f_data f) = Ok tt)
  ∧ ((¬ ∃ hdr v c w', key_installed path server pwd w hdr v c w'
                      ∧ rvault_hmac_verify c hdr = Ok tt) →
     ∀ v, (rvault_open path server pwd w).1 ≠ Ok v).
Proof.
  split_and!.
  - intros v w'. apply open_Ok.
  - intros v w' (hdr & c & Hkey & Hver)%open_Ok.
    destruct Hkey as (f & cipher & uid & iv & kp & kp_len & flags & c0 & c1 & c2 & Hd & Hf & ->
            & Hlen & Hv & Hl & Hc & Hu & Hcr & Hiv & Hset & Hkp & Hpk & Hfl & -> & Hkey).
    exists f, cipher, c. split_and!; done.
  - intros Hno v Hv.
    destruct (rvault_open path server pwd w) as [r w'] eqn:Hopen. simpl in Hv. subst r.
    apply open_Ok in Hopen as (hdr & c & ? & ?). apply Hno. by exists hdr, v, c, w'.
Qed.
End OpenHandle.

Section OpenRuns.
Local Existing Instance Toy.be.

Lemma open_returns_handle_iff_witness :
  ∃ v f c,
    rvault_open "/v" None "pw" Toy.world1 = (Ok v, Toy.world1)
    ∧ fs_files (w_fs Toy.world1) !! meta_path "/v" = Some f
    ∧ v_crypto v = Some c
    ∧ rvault_hmac_verify c (f_data f) = Ok tt.
Proof.
  destruct (open_returns_handle_iff (P := Toy.be) "/v" None "pw" Toy.world1)
    as (_ & Hnec & _).
  edestruct Hnec as (f & cipher & c & Hf & _ & _ & _ & _ & _ & Hc & Hver).
  - vm_compute; reflexivity.
  - eexists _, f, c. split; [vm_compute; reflexivity|]. split_and!; assumption.
Defined.

(** C3, counterexample.  The metadata file [Toy.forged] is in
    authenticated mode (flags 0) and carries a tag made under the
    passphrase key.  It is one header long or more, has the ABI
    version, a recognized cipher and the right length, and its HMAC
    verifies under the key [rvault_open] has installed; yet
    [rvault_open], called without server URL, returns no handle. *)
Lemma open_five_conditions_not_sufficient :
  let hdr := Toy.forged in
  let w := Toy.world_forged in
  let c := Toy.mk_crypto 1 (Some (Z.of_nat <$> seq 1 16))
             (Some (Toy.kdf "pw" (replicate 37 9))) in
  fs_files (w_fs w) !! meta_path "/v" = Some (mk_file RVAULT_META_MODE hdr)
  ∧ RVAULT_HDR_LEN ≤ blen hdr
  ∧ hdr_ver hdr = Ok RVAULT_ABI_VER
  ∧ hdr_cipher hdr = Ok 1 ∧ is_Some (crypto_create 1)
  ∧ RVAULT_FILE_LEN host_endian hdr = Ok (blen hdr)
  ∧ (∃ c0 c1 iv kp, crypto_create 1 = Some c0
       ∧ hdr_iv host_endian hdr = Ok iv ∧ crypto_set_iv c0 iv = Some c1
       ∧ hdr_kp host_endian hdr = Ok (kp, blen kp)
       ∧ crypto_set_passphrasekey c1 "pw" kp (blen kp) = Some c)
  ∧ rvault_hmac_verify c hdr = Ok tt
  ∧ rvault_open "/v" None "pw" w
    = (Fail, mk_world (w_fs w) (w_srv w) [MSG_usage_srvurl]).
Proof.
  cbn zeta. split_and!; try (vm_compute; done).
  - vm_compute. by eexists.
  - eexists _, _, _, (replicate 37 9). split_and!; vm_compute; reflexivity.
Qed.


End OpenRuns.


(** ** The round trip *)

Section RoundTrip.
Context `{P : Platform}.
Implicit Types v : rvault_t crypto_t.
Implicit Types w : world.

Lemma peek8_of_byte off buf b :
  peek off 1 buf = Ok [b] → peek8 off buf = Ok (u8 b).
Proof. unfold peek8. by intros ->. Qed.

Lemma u8_idemp b : u8 (u8 b) = u8 b.
Proof. rewrite !u8_mod. lia. Qed.

(** The record of [rvault_init] on a big-endian host, before the HMAC
    is stored: what the read side decodes from it. *)
Lemma init_record_reads cipher flags iv kp h0 file_len uid h1 :
  host_endian = BigEndian →
  rvault_init_hdr cipher flags iv kp = Ok (h0, file_len) →
  blen iv ≤ UINT16_MAX →
  blen kp ≤ UINT8_MAX →
  poke OFF_UID uid h0 = Ok h1 →
  blen uid = UID_LEN →
  blen h1 = file_len
  ∧ hdr_ver h1 = Ok (u8 RVAULT_ABI_VER)
  ∧ hdr_cipher h1 = Ok (u8 cipher)
  ∧ hdr_flags h1 = Ok (u8 flags)
  ∧ hdr_uid h1 = Ok uid
  ∧ RVAULT_FILE_LEN host_endian h1 = Ok (blen h1)
  ∧ hdr_iv host_endian h1 = Ok iv
  ∧ hdr_kp host_endian h1 = Ok (kp, blen kp)
  ∧ RVAULT_HDR_TO_HMAC host_endian h1 = Ok (blen h1 - HMAC_SHA3_256_BUFLEN).
Proof.
  intros He Hhdr Hiv Hkp Hpoke Huid.
  destruct (init_hdr_fields _ _ _ _ _ _ Hhdr Hiv)
    as (Hfl & Hlen & Hver & Hcip & Hflg & _ & _ & Hpiv & Hpkp).
  destruct (init_hdr_lengths _ _ _ _ _ _ Hhdr Hiv) as [Hivl Hkpl].
  pose proof (blen_nonneg iv). pose proof (blen_nonneg kp).
  pose proof (poke_blen _ _ _ _ Hpoke) as Hbl.
  assert (hdr_iv_len host_endian h1 = Ok (htobe16 host_endian (blen iv))) as Hivl'.
  { unfold hdr_iv_len in *. rewrite (peek16_poke_other _ _ _ _ _ _ Hpoke); [done|].
    unfold OFF_IV_LEN, OFF_UID. lia. }
  assert (hdr_kp_len host_endian h1 = Ok (u16 (blen kp))) as Hkpl'.
  { unfold hdr_kp_len in *. rewrite (peek16_poke_other _ _ _ _ _ _ Hpoke); [done|].
    unfold OFF_KP_LEN, OFF_UID. lia. }
  assert (be16toh host_endian (htobe16 host_endian (blen iv)) = blen iv) as Hbiv.
  { by rewrite be16toh_htobe16, u16_small by lia. }
  assert (u16 (blen kp) = blen kp) as Hukp.
  { apply u16_small. unfold UINT8_MAX, UINT16_MAX in *. lia. }
  assert (be16toh host_endian (blen kp) = blen kp) as Hbkp.
  { rewrite He. unfold be16toh, htobe16. done. }
  unfold UID_LEN, RVAULT_HDR_LEN, HMAC_SHA3_256_BUFLEN in *.
  split_and!.
  - lia.
  - unfold hdr_ver. rewrite (peek8_poke_other _ _ _ _ _ Hpoke)
      by (unfold OFF_VER, OFF_UID; lia).
    rewrite (peek8_of_byte _ _ _ Hver). by rewrite u8_idemp.
  - unfold hdr_cipher. rewrite (peek8_poke_other _ _ _ _ _ Hpoke)
      by (unfold OFF_CIPHER, OFF_UID; lia).
    rewrite (peek8_of_byte _ _ _ Hcip). by rewrite u8_idemp.
  - unfold hdr_flags. rewrite (peek8_poke_other _ _ _ _ _ Hpoke)
      by (unfold OFF_FLAGS, OFF_UID; lia).
    rewrite (peek8_of_byte _ _ _ Hflg). by rewrite u8_idemp.
  - unfold hdr_uid. apply (peek_poke_same' _ _ _ _ _ Hpoke). by rewrite Huid.
  - unfold RVAULT_FILE_LEN, RVAULT_HMAC_DATALEN. rewrite Hivl', Hkpl'. cbn [res_bind].
    rewrite Hbiv, Hukp, Hbkp. f_equal. unfold RVAULT_HDR_LEN, HMAC_SHA3_256_BUFLEN. lia.
  - unfold hdr_iv. rewrite Hivl'. cbn [res_bind]. rewrite Hbiv.
    rewrite (peek_poke_other _ _ _ _ _ _ Hpoke); [done|].
    unfold RVAULT_HDR_TO_IV, RVAULT_HDR_LEN, OFF_UID. lia.
  - unfold hdr_kp, RVAULT_HDR_TO_KP. rewrite Hivl', Hkpl'. cbn [res_bind].
    rewrite Hbiv, Hukp.
    rewrite (peek_take_drop _ _ _ kp); [done|].
    rewrite (peek_poke_other _ _ _ _ _ _ Hpoke); [done|].
    unfold RVAULT_HDR_TO_IV, RVAULT_HDR_LEN, OFF_UID. lia.
  - unfold RVAULT_HDR_TO_HMAC, RVAULT_HDR_TO_KP. rewrite Hivl', Hkpl'. cbn [res_bind].
    rewrite Hbiv, Hukp, Hbkp. f_equal. unfold RVAULT_HDR_TO_IV, RVAULT_HDR_LEN. lia.
Qed.

Lemma open_metadata_excl_Ok path w fd rpath w' :
  open_metadata path INIT_OPEN_FLAGS w = (Ok (fd, rpath), w') →
  fd = meta_path path ∧ rpath = path
  ∧ is_Some (fs_dirs (w_fs w) !! path)
  ∧ w' = mk_world (mk_fs (<[meta_path path := mk_file RVAULT_META_MODE []]>
                            (fs_files (w_fs w)))
                         (fs_dirs (w_fs w)) (fs_free (w_fs w)))
                  (w_srv w) (w_log w).
Proof.
  unfold open_metadata. intros H.
  apply bind_Ok in H as (rp & w1 & Hp & H).
  apply get_vault_path_Ok in Hp as (-> & -> & Hd).
  unfold mbind, M_bind, get_fs, sys_open in H. simpl in H.
  case_bool_decide; simpl in H; [done|]. by injection H as <- <- <-.
Qed.

Lemma init_store_Ok path hdr w w1 :
  rvault_init_store path hdr (blen hdr) w = (Ok tt, w1) →
  is_Some (fs_dirs (w_fs w) !! path)
  ∧ w1 = mk_world (mk_fs (<[meta_path path := mk_file RVAULT_META_MODE hdr]>
                            (fs_files (w_fs w)))
                         (fs_dirs (w_fs w)) (fs_free (w_fs w) - blen hdr))
                  (w_srv w) (w_log w).
Proof.
  unfold rvault_init_store. intros H.
  apply bind_Ok in H as ([fd rpath] & w0 & Hopen & H).
  apply open_metadata_excl_Ok in Hopen as (-> & -> & Hd & ->).
  split; [done|].
  unfold mbind, M_bind, get_fs, put_fs, fs_write in H. simpl in H.
  rewrite lookup_insert_eq in H. simpl in H.
  destruct (_ =? _) eqn:Hn; [|done]. apply Z.eqb_eq in Hn.
  injection H as <-. rewrite Hn, insert_insert_eq.
  unfold blen at 1. rewrite Nat2Z.id, firstn_all, drop_nil, app_nil_r. done.
Qed.

(** X1.  The round trip where the byte orders agree.  On a big-endian host,
    without authentication, a vault that [rvault_init] has written is
    opened by [rvault_open] with the same passphrase; the handle holds
    the crypto state with which the vault was sealed, so that what it
    encrypts it decrypts whenever the cipher does. *)
Theorem roundtrip_big_endian path pwd uid_str cipher_str flags server w w1 :
  host_endian = BigEndian →
  0 ≤ RVAULT_ABI_VER ≤ UINT8_MAX →
  (∀ c, is_Some (crypto_create c) → 0 ≤ c) →
  (∀ c x ct, crypto_encrypt c x = Some ct → crypto_decrypt c ct = Some x) →
  0 ≤ flags →
  Z.land flags RVAULT_FLAG_NOAUTH ≠ 0 →
  rvault_init path server pwd uid_str cipher_str flags w = (Ok tt, w1) →
  ∃ v c cipher c0 iv c1 kp,
    crypto_create cipher = Some c0
    ∧ crypto_gen_iv c0 = Some iv
    ∧ crypto_set_iv c0 iv = Some c1
    ∧ kdf_create_params = Some kp
    ∧ crypto_set_passphrasekey c1 pwd kp (blen kp) = Some c
    ∧ rvault_open path server pwd w1 = (Ok v, w1)
    ∧ v_crypto v = Some c
    ∧ v_cipher v = cipher
    ∧ ∀ x ct, crypto_encrypt c x = Some ct → crypto_decrypt c ct = Some x.
Proof.
  intros He Hver Hcip Hlaw Hfl0 Hnoauth Hinit.
  rewrite init_unfold in Hinit.
  destruct (rvault_init_record server pwd uid_str cipher_str flags w)
    as [[[hdr flen]| |] w0] eqn:Hrec; try done.
  assert (∃ cipher c0 iv c1 kp c2 h0 uid h1 tag,
    crypto_create cipher = Some c0
    ∧ crypto_gen_iv c0 = Some iv
    ∧ kdf_create_params = Some kp
    ∧ crypto_set_iv c0 iv = Some c1
    ∧ crypto_set_passphrasekey c1 pwd kp (blen kp) = Some c2
    ∧ blen kp ≤ UINT8_MAX ∧ blen iv ≤ UINT16_MAX
    ∧ cipher ≤ UINT8_MAX ∧ flags ≤ UINT8_MAX
    ∧ rvault_init_hdr cipher flags iv kp = Ok (h0, flen)
    ∧ blen uid = UID_LEN
    ∧ poke OFF_UID uid h0 = Ok h1
    ∧ rvault_hmac_compute c2 h1 = Ok tag
    ∧ (∃ off, RVAULT_HDR_TO_HMAC host_endian h1 = Ok off ∧ poke off tag h1 = Ok hdr)
    ∧ w0 = w) as Hsteps.
  { unfold rvault_init_record in Hrec. minv'.
    all: try (apply Z.eqb_eq in Heqb; done).
    all: unfold mret, M_ret in Hrec; simplify_eq.
    all: match goal with
         | Hh : rvault_init_hdr _ _ _ _ = Ok _ |- _ =>
             pose proof Hh as Hh'; unfold rvault_init_hdr in Hh'; minv
         end.
    all: eexists _, _, _, _, _, _, _, _, _, _; split_and!; try eassumption; try lia;
      try done; eauto. }
  destruct Hsteps as (cipher & c0 & iv & c1 & kp & c2 & h0 & uid & h1 & tag & Hcr & Hgen
    & Hkdf & Hiv & Hpk & Hkpl & Hivl & Hcl & Hfl & Hhdr & Huid & Hpoke & Htag & (off & Hoff & Hpoke2)
    & ->).
  destruct (init_record_reads _ _ _ _ _ _ _ _ He Hhdr Hivl Hkpl Hpoke Huid)
    as (Hbl & Rver & Rcip & Rflg & Ruid & Rlen & Riv & Rkp & Rhm).
  rewrite Rhm in Hoff. injection Hoff as <-.
  assert (blen tag = HMAC_SHA3_256_BUFLEN) as Htl.
  { unfold rvault_hmac_compute in Htag.
    destruct (crypto_get_key c2); [|done].
    destruct (hdr_hmac_data host_endian h1); try done.
    cbn [mbind res_mbind res_bind] in Htag.
    destruct (hmac_sha3_256 _ _); [|done]. injection Htag as <-.
    unfold blen. by rewrite length_resize. }
  destruct (tamper_reads _ _ _ Rlen Hpoke2 Htl)
    as (Hbl' & Tver & Tcip & Tflg & Tuid & Tlen & Tiv & Tkp & Tdata & Thmac).
  rewrite <- Hbl, <- Hbl' in Hinit.
  apply init_store_Ok in Hinit as [Hd ->].
  assert (u8 RVAULT_ABI_VER = RVAULT_ABI_VER) as Uver by (by apply u8_small).
  assert (u8 cipher = cipher) as Ucip.
  { apply u8_small. split; [|done]. apply Hcip. by rewrite Hcr. }
  assert (u8 flags = flags) as Uflg by (by apply u8_small).
  exists (mk_rvault (Some path) uid cipher (Some c2) server [] 0), c2, cipher, c0, iv,
    c1, kp.
  split_and!; [done..| |done|done|apply Hlaw].
  apply open_Ok. exists hdr, c2. split.
  - exists (mk_file RVAULT_META_MODE hdr), cipher, uid, iv, kp, (blen kp), flags, c0, c1, c2.
    cbn [w_fs w_srv w_log fs_files fs_dirs f_data].
    rewrite lookup_insert_eq, Tver, Tcip, Tflg, Tuid, Tiv, Rver, Rcip, Rflg, Ruid,
      Uver, Ucip, Uflg.
    split_and!; try done.
    + rewrite Hbl', Hbl.
      destruct (init_hdr_fields _ _ _ _ _ _ Hhdr Hivl) as (-> & _).
      pose proof (blen_nonneg iv). pose proof (blen_nonneg kp).
      unfold HMAC_SHA3_256_BUFLEN. lia.
    + by apply Tkp.
    + destruct (Z.land flags RVAULT_FLAG_NOAUTH =? 0) eqn:E; [|done].
      by apply Z.eqb_eq in E.
  - unfold rvault_hmac_verify, rvault_hmac_compute in *.
    rewrite Tdata, Thmac.
    destruct (crypto_get_key c2); [|done].
    destruct (hdr_hmac_data host_endian h1); try done.
    cbn [mbind res_mbind res_bind] in *.
    destruct (hmac_sha3_256 _ _); [|done]. injection Htag as <-.
    cbn [mbind res_mbind res_bind]. unfold memcmp_eq.
    by rewrite bool_decide_eq_true_2.
Qed.
End RoundTrip.

Section RoundTripRuns.
Local Existing Instance Toy.be.

Lemma roundtrip_big_endian_witness :
  ∃ v c cipher c0 iv c1 kp,
    crypto_create cipher = Some c0
    ∧ crypto_gen_iv c0 = Some iv
    ∧ crypto_set_iv c0 iv = Some c1
    ∧ kdf_create_params = Some kp
    ∧ crypto_set_passphrasekey c1 "pw" kp (blen kp) = Some c
    ∧ rvault_open "/v" None "pw" Toy.world1 = (Ok v, Toy.world1)
    ∧ v_crypto v = Some c
    ∧ v_cipher v = cipher
    ∧ ∀ x ct, crypto_encrypt c x = Some ct → crypto_decrypt c ct = Some x.
Proof.
  apply (roundtrip_big_endian (P := Toy.be) "/v" "pw" Toy.UID0 None RVAULT_FLAG_NOAUTH
           None (Toy.world0 BigEndian 4096)).
  - reflexivity.
  - vm_compute. split; discriminate.
  - intros c [x Hx]. unfold crypto_create in Hx. simpl in Hx. unfold Toy.create in Hx.
    case_bool_decide; [lia|done].
  - intros c x ct. simpl. unfold Toy.encrypt. destruct (Toy.tc_key c) as [key|]; [|done].
    simpl. intros [= <-]. f_equal.
    revert key. induction x as [|d x IH]; intros [|k key]; simpl; try done.
    f_equal; [|apply IH]. by rewrite Z.lxor_assoc, Z.lxor_nilpotent, Z.lxor_0_r.
  - vm_compute. discriminate.
  - vm_compute. discriminate.
  - vm_compute. reflexivity.
Defined.
End RoundTripRuns.

(** * Further properties of the two files *)

(** ** The layouts of storage.h *)

Section BigEndianValues.
Lemma of_le_bytes_cons b bs : of_le_bytes (b :: bs) = of_le_bytes bs * 256 + b `mod` 256.
Proof.
  unfold of_le_bytes. simpl. rewrite lor_shiftl8 by (rewrite u8_mod; lia).
  by rewrite u8_mod.
Qed.

Lemma of_le_bytes_nonneg bs : 0 ≤ of_le_bytes bs.
Proof.
  induction bs as [|b bs IH]; [done|]. rewrite of_le_bytes_cons. lia.
Qed.

Lemma of_le_bytes_bound bs : of_le_bytes bs < 256 ^ Z.of_nat (length bs).
Proof.
  induction bs as [|b bs IH]; [done|]. rewrite of_le_bytes_cons.
  cbn [length]. rewrite Nat2Z.inj_succ, Z.pow_succ_r by lia.
  pose proof (of_le_bytes_nonneg bs). lia.
Qed.

Lemma le_bytes_of_le_bytes bs :
  le_bytes (length bs) (of_le_bytes bs) = (λ b, b `mod` 256) <$> bs.
Proof.
  induction bs as [|b bs IH]; [done|].
  cbn [length le_bytes fmap list_fmap]. rewrite of_le_bytes_cons.
  rewrite lo8_mod, Z.shiftr_div_pow2 by lia. change (2 ^ 8) with 256.
  f_equal; [lia|]. rewrite <- IH. f_equal. lia.
Qed.

Lemma of_le_bytes_mod bs : of_le_bytes ((λ b, b `mod` 256) <$> bs) = of_le_bytes bs.
Proof.
  induction bs as [|b bs IH]; [done|].
  rewrite fmap_cons, !of_le_bytes_cons, IH. lia.
Qed.

Lemma be_value_snoc bs b : be_value (bs ++ [b]) = be_value bs * 256 + b `mod` 256.
Proof. unfold be_value. by rewrite foldl_app. Qed.

Lemma of_le_bytes_reverse bs : of_le_bytes (reverse bs) = be_value bs.
Proof.
  induction bs as [|b bs IH] using rev_ind; [done|].
  by rewrite reverse_snoc, of_le_bytes_cons, be_value_snoc, IH.
Qed.

Lemma be_value_mod bs : be_value ((λ b, b `mod` 256) <$> bs) = be_value bs.
Proof.
  induction bs as [|b bs IH] using rev_ind; [done|].
  rewrite fmap_app, fmap_cons, fmap_nil, !be_value_snoc, IH. lia.
Qed.

Lemma be_value_range bs : 0 ≤ be_value bs < 256 ^ Z.of_nat (length bs).
Proof.
  rewrite <- of_le_bytes_reverse. split; [apply of_le_bytes_nonneg|].
  rewrite <- length_reverse. apply of_le_bytes_bound.
Qed.

Lemma u64_mod v : u64 v = v `mod` 2 ^ 64.
Proof. unfold u64, UINT64_MAX. change 18446744073709551615 with (Z.ones 64). by rewrite Z.land_ones. Qed.

Lemma u64_small v : 0 ≤ v ≤ UINT64_MAX → u64 v = v.
Proof. unfold UINT64_MAX. rewrite u64_mod. intros. apply Z.mod_small. lia. Qed.

(** Whatever the host, [be64toh] of a loaded [uint64_t] is the
    big-endian value of its eight bytes. *)
Lemma be64toh_load64 e bs :
  length bs = 8%nat → be64toh e (load64 e bs) = be_value bs.
Proof.
  intros Hl. pose proof (be_value_range bs) as Hr. rewrite Hl in Hr.
  change (256 ^ Z.of_nat 8) with (2 ^ 64) in Hr.
  pose proof (of_le_bytes_nonneg bs) as H0.
  pose proof (of_le_bytes_bound bs) as H1. rewrite Hl in H1.
  change (256 ^ Z.of_nat 8) with (2 ^ 64) in H1.
  unfold be64toh, load64. destruct e.
  - rewrite u64_small by (unfold UINT64_MAX; lia).
    unfold bswap64. rewrite <- Hl, le_bytes_of_le_bytes, of_le_bytes_reverse.
    apply be_value_mod.
  - rewrite of_le_bytes_reverse. apply u64_small. unfold UINT64_MAX. lia.
Qed.

(** The same for a [uint16_t]. *)
Lemma be16toh_load16 e b0 b1 : be16toh e (load16 e b0 b1) = be_value [b0; b1].
Proof.
  unfold be_value. simpl.
  unfold be16toh, htobe16, load16. destruct e.
  - rewrite bswap16_val, lo8_mod, hi8_div, u16_mod, lor_shiftl8, !u8_mod
      by (rewrite u8_mod; lia). lia.
  - rewrite u16_mod, lor_shiftl8, !u8_mod by (rewrite u8_mod; lia). lia.
Qed.

Lemma peek_two off buf bs :
  peek off 2 buf = Ok bs → ∃ b0 b1, bs = [b0; b1].
Proof.
  intros H. pose proof (peek_length _ _ _ _ H) as Hl. unfold blen in Hl.
  destruct bs as [|b0 [|b1 [|]]]; simpl in Hl; try lia. by exists b0, b1.
Qed.

Lemma peek16_be e off buf bs :
  peek off 2 buf = Ok bs →
  ∃ raw, peek16 e off buf = Ok raw ∧ be16toh e raw = be_value bs.
Proof.
  intros H. destruct (peek_two _ _ _ H) as (b0 & b1 & ->).
  unfold peek16. rewrite H. simpl. eexists. split; [done|]. apply be16toh_load16.
Qed.
End BigEndianValues.

Section Alignment.

Lemma land_lnot_63 a : Z.land a (Z.lnot 63) = 64 * (a `div` 64).
Proof.
  rewrite <- Z.ldiff_land. change 63 with (Z.ones 6).
  rewrite Z.ldiff_ones_r by lia.
  rewrite Z.shiftl_mul_pow2, Z.shiftr_div_pow2 by lia. change (2 ^ 6) with 64. lia.
Qed.

(** X2.  [STORAGE_ALIGN(x)] is the least multiple of the 64-byte
    alignment that is not below [x], for every size whose round-up does
    not overflow a [uint64_t]; aligning an aligned size changes
    nothing. *)
Theorem storage_align_least_multiple x :
  0 ≤ x ≤ UINT64_MAX - 63 →
  STORAGE_ALIGN x `mod` STORAGE_ALIGNMENT = 0
  ∧ x ≤ STORAGE_ALIGN x < x + STORAGE_ALIGNMENT
  ∧ (∀ y, x ≤ y → y `mod` STORAGE_ALIGNMENT = 0 → STORAGE_ALIGN x ≤ y)
  ∧ STORAGE_ALIGN (STORAGE_ALIGN x) = STORAGE_ALIGN x.
Proof.
  intros Hx. unfold STORAGE_ALIGN, roundup2, STORAGE_ALIGNMENT.
  change (64 - 1) with 63. rewrite !land_lnot_63. split_and!; try lia.
Qed.
End Alignment.

Section MetadataLayout.

(** X3.  The read-side macros of the metadata record decode the same
    on every host: with the two bytes at offset 2 and the two bytes at
    offset 4 read as big-endian numbers [iv_len] and [kp_len], the KDF
    parameters start at [64 + iv_len], the HMAC at
    [64 + iv_len + kp_len], which is also the length of the data covered
    by the HMAC, and the file is 32 bytes longer; both lengths fit 16
    bits. *)
Theorem metadata_lengths_any_host e h ivb kpb :
  peek OFF_IV_LEN 2 h = Ok ivb →
  peek OFF_KP_LEN 2 h = Ok kpb →
  let iv_len := be_value ivb in
  let kp_len := be_value kpb in
  0 ≤ iv_len ≤ UINT16_MAX
  ∧ 0 ≤ kp_len ≤ UINT16_MAX
  ∧ RVAULT_HDR_TO_KP e h = Ok (RVAULT_HDR_LEN + iv_len)
  ∧ RVAULT_HDR_TO_HMAC e h = Ok (RVAULT_HDR_LEN + iv_len + kp_len)
  ∧ RVAULT_HMAC_DATALEN e h = Ok (RVAULT_HDR_LEN + iv_len + kp_len)
  ∧ RVAULT_FILE_LEN e h
    = Ok (RVAULT_HDR_LEN + iv_len + kp_len + HMAC_SHA3_256_BUFLEN)
  ∧ hdr_iv e h = peek RVAULT_HDR_LEN iv_len h
  ∧ hdr_hmac e h = peek (RVAULT_HDR_LEN + iv_len + kp_len) HMAC_SHA3_256_BUFLEN h
  ∧ hdr_hmac_data e h = peek 0 (RVAULT_HDR_LEN + iv_len + kp_len) h.
Proof.
  intros Hiv Hkp. cbn zeta.
  destruct (peek16_be e _ _ _ Hiv) as (ivr & Hivr & Hivv).
  destruct (peek16_be e _ _ _ Hkp) as (kpr & Hkpr & Hkpv).
  pose proof (be_value_range ivb) as Hr1. pose proof (be_value_range kpb) as Hr2.
  destruct (peek_two _ _ _ Hiv) as (? & ? & ->).
  destruct (peek_two _ _ _ Hkp) as (? & ? & ->).
  change (256 ^ Z.of_nat (length [_; _])) with 65536 in Hr1, Hr2.
  unfold RVAULT_HDR_TO_KP, RVAULT_HDR_TO_HMAC, RVAULT_HMAC_DATALEN, RVAULT_FILE_LEN,
    hdr_iv, hdr_hmac, hdr_hmac_data, RVAULT_HDR_TO_HMAC, RVAULT_HMAC_DATALEN,
    RVAULT_HDR_TO_KP, hdr_iv_len, hdr_kp_len, RVAULT_HDR_TO_IV.
  rewrite Hivr, Hkpr. cbn [res_bind]. rewrite Hivv, Hkpv.
  unfold UINT16_MAX. split_and!; (done || lia).
Qed.

Lemma file_len_any_host e h n :
  RVAULT_FILE_LEN e h = Ok n →
  ∃ ivb kpb, peek OFF_IV_LEN 2 h = Ok ivb ∧ peek OFF_KP_LEN 2 h = Ok kpb.
Proof.
  unfold RVAULT_FILE_LEN, RVAULT_HMAC_DATALEN, hdr_iv_len, hdr_kp_len, peek16.
  intros H.
  destruct (peek OFF_IV_LEN 2 h) as [ivb| |]; try done.
  destruct (peek OFF_KP_LEN 2 h) as [kpb| |]; try done.
  by exists ivb, kpb.
Qed.

(** X4.  A record whose length agrees with [RVAULT_FILE_LEN], the test
    of [rvault_open_hdr], is exactly a 64-byte padded header followed by
    the IV, the KDF parameters and a 32-byte HMAC: each region is read
    within bounds, the regions are adjacent and do not overlap, and the
    data covered by the HMAC is everything before the tag. *)
Theorem metadata_record_partition e h :
  RVAULT_FILE_LEN e h = Ok (blen h) →
  ∃ pad iv kp tag,
    h = pad ++ iv ++ kp ++ tag
    ∧ blen pad = RVAULT_HDR_LEN
    ∧ blen tag = HMAC_SHA3_256_BUFLEN
    ∧ RVAULT_HDR_TO_KP e h = Ok (RVAULT_HDR_LEN + blen iv)
    ∧ RVAULT_HDR_TO_HMAC e h = Ok (RVAULT_HDR_LEN + blen iv + blen kp)
    ∧ hdr_iv e h = Ok iv
    ∧ peek (RVAULT_HDR_LEN + blen iv) (blen kp) h = Ok kp
    ∧ hdr_hmac e h = Ok tag
    ∧ hdr_hmac_data e h = Ok (pad ++ iv ++ kp).
Proof.
  intros Hlen.
  destruct (file_len_any_host _ _ _ Hlen) as (ivb & kpb & Hiv & Hkp).
  destruct (metadata_lengths_any_host e h ivb kpb Hiv Hkp)
    as (Hr1 & Hr2 & Hokp & Hohm & Hdl & Hfl & Hhiv & Hhhm & Hhdata).
  cbn zeta in *. rewrite Hfl in Hlen. injection Hlen as Hlen.
  set (a := be_value ivb) in *. set (b := be_value kpb) in *.
  unfold RVAULT_HDR_LEN, HMAC_SHA3_256_BUFLEN, UINT16_MAX in *.
  exists (take 64 h), (take (Z.to_nat a) (drop 64 h)),
    (take (Z.to_nat b) (drop (Z.to_nat (64 + a)) h)),
    (drop (Z.to_nat (64 + a + b)) h).
  assert (length h = Z.to_nat (64 + a + b + 32)) as Hl by (unfold blen in Hlen; lia).
  assert (blen (take (Z.to_nat a) (drop 64 h)) = a) as Ha.
  { unfold blen. rewrite length_take, length_drop. lia. }
  assert (blen (take (Z.to_nat b) (drop (Z.to_nat (64 + a)) h)) = b) as Hb.
  { unfold blen. rewrite length_take, length_drop. lia. }
  rewrite Ha, Hb.
  assert (h = take 64 h ++ take (Z.to_nat a) (drop 64 h)
              ++ take (Z.to_nat b) (drop (Z.to_nat (64 + a)) h)
              ++ drop (Z.to_nat (64 + a + b)) h) as Hsplit.
  { rewrite <- (take_drop 64 h) at 1. f_equal.
    rewrite <- (take_drop (Z.to_nat a) (drop 64 h)) at 1. f_equal.
    rewrite drop_drop. replace (64 + Z.to_nat a)%nat with (Z.to_nat (64 + a)) by lia.
    rewrite <- (take_drop (Z.to_nat b) (drop (Z.to_nat (64 + a)) h)) at 1. f_equal.
    rewrite drop_drop. f_equal. lia. }
  split_and!.
  - exact Hsplit.
  - unfold blen. rewrite length_take. lia.
  - unfold blen. rewrite length_drop. lia.
  - done.
  - done.
  - rewrite Hhiv. apply peek_Ok. split; [unfold blen; lia|done].
  - apply peek_Ok. split; [unfold blen; lia|done].
  - rewrite Hhhm. apply peek_Ok. split; [unfold blen; lia|].
    rewrite take_ge; [done|]. rewrite length_drop. lia.
  - rewrite Hhdata. apply peek_Ok. split; [unfold blen; lia|].
    rewrite drop_0. symmetry.
    etransitivity; [apply (f_equal (take _)); exact Hsplit|].
    rewrite (app_assoc _ _ (drop _ _)), (app_assoc (take 64 h)).
    apply take_app_length'.
    rewrite !length_app, !length_take, !length_drop. lia.
Qed.
End MetadataLayout.

Section FileObject.

(** X5.  The length macros of a file object decode the same on every
    host: [FILEOBJ_EDATA_LEN] is the big-endian value of the eight bytes
    at offset 4, the tag starts where the data covered by the HMAC ends,
    at [64 + edata_len] modulo [2^64], and [FILEOBJ_FILE_LEN] adds the
    big-endian [hmac_len] of offset 2; when [edata_len] leaves room for
    the header and the tag, the file length is the plain sum. *)
Theorem fileobj_lengths_any_host e h hb eb :
  peek FOFF_HMAC_LEN 2 h = Ok hb →
  peek FOFF_EDATA_LEN 8 h = Ok eb →
  let hmac_len := be_value hb in
  let edata_len := be_value eb in
  0 ≤ hmac_len ≤ UINT16_MAX
  ∧ 0 ≤ edata_len ≤ UINT64_MAX
  ∧ FILEOBJ_EDATA_LEN e h = Ok edata_len
  ∧ FILEOBJ_HMAC_DATALEN e h = Ok ((FILEOBJ_HDR_LEN + edata_len) `mod` 2 ^ 64)
  ∧ FILEOBJ_HDR_TO_HMAC e h = FILEOBJ_HMAC_DATALEN e h
  ∧ FILEOBJ_FILE_LEN e h
    = Ok ((FILEOBJ_HDR_LEN + edata_len + hmac_len) `mod` 2 ^ 64)
  ∧ (edata_len ≤ UINT64_MAX - FILEOBJ_HDR_LEN - UINT16_MAX →
     FILEOBJ_FILE_LEN e h = Ok (FILEOBJ_HDR_LEN + edata_len + hmac_len)).
Proof.
  intros Hh He. cbn zeta.
  destruct (peek16_be e _ _ _ Hh) as (hr & Hhr & Hhv).
  pose proof (be_value_range hb) as Hr1. pose proof (be_value_range eb) as Hr2.
  destruct (peek_two _ _ _ Hh) as (? & ? & ->).
  pose proof (peek_length _ _ _ _ He) as Hl. unfold blen in Hl.
  assert (length eb = 8%nat) as Hl8 by lia. rewrite Hl8 in Hr2.
  change (256 ^ Z.of_nat (length [_; _])) with 65536 in Hr1.
  change (256 ^ Z.of_nat 8) with 18446744073709551616 in Hr2.
  unfold FILEOBJ_FILE_LEN, FILEOBJ_HDR_TO_HMAC, FILEOBJ_HMAC_DATALEN, FILEOBJ_EDATA_LEN,
    peek64, FILEOBJ_HDR_TO_DATA.
  rewrite He, Hhr. cbn [res_bind]. rewrite Hhv, (be64toh_load64 _ _ Hl8), !u64_mod.
  unfold UINT16_MAX, UINT64_MAX, FILEOBJ_HDR_LEN.
  change (2 ^ 64) with 18446744073709551616.
  split_and!; try done; try lia.
  - f_equal. lia.
  - intros. f_equal. lia.
Qed.

(** X6.  Nothing bounds [edata_len]: a header that announces more than
    [2^64 - 65] bytes of data makes [FILEOBJ_HMAC_DATALEN] wrap around
    to fewer than the 64 bytes of the header itself. *)
Theorem fileobj_datalen_wraps e h eb :
  peek FOFF_EDATA_LEN 8 h = Ok eb →
  UINT64_MAX - FILEOBJ_HDR_LEN < be_value eb →
  ∃ n, FILEOBJ_HMAC_DATALEN e h = Ok n
       ∧ n = be_value eb - (UINT64_MAX + 1 - FILEOBJ_HDR_LEN)
       ∧ 0 ≤ n < FILEOBJ_HDR_LEN
       ∧ n < be_value eb.
Proof.
  intros He Hbig.
  pose proof (be_value_range eb) as Hr2.
  pose proof (peek_length _ _ _ _ He) as Hl. unfold blen in Hl.
  assert (length eb = 8%nat) as Hl8 by lia. rewrite Hl8 in Hr2.
  change (256 ^ Z.of_nat 8) with 18446744073709551616 in Hr2.
  unfold FILEOBJ_HMAC_DATALEN, FILEOBJ_EDATA_LEN, peek64.
  rewrite He. cbn [res_bind]. rewrite (be64toh_load64 _ _ Hl8), u64_mod.
  unfold UINT64_MAX, FILEOBJ_HDR_LEN in *.
  change (2 ^ 64) with 18446744073709551616.
  eexists. split; [done|]. lia.
Qed.
End FileObject.

(** ** Initialisation: what a run leaves behind *)

Section InitOutcomes.
Context `{P : Platform}.
Implicit Types w : world.

(** A successful run of the record step, spelled out. *)
Lemma init_record_Ok server pwd uid_str cipher_str flags w hdr flen w1 :
  rvault_init_record server pwd uid_str cipher_str flags w = (Ok (hdr, flen), w1) →
  ∃ cipher c0 iv c1 kp c2 h0 uid h1 c3 tag off,
    match cipher_str with
    | Some s => cipher = crypto_cipher_id s ∧ cipher ≠ CIPHER_NONE
    | None => cipher = CRYPTO_CIPHER_PRIMARY
    end
    ∧ crypto_create cipher = Some c0
    ∧ crypto_gen_iv c0 = Some iv
    ∧ crypto_set_iv c0 iv = Some c1
    ∧ kdf_create_params = Some kp
    ∧ blen kp ≤ UINT8_MAX ∧ blen iv ≤ UINT16_MAX
    ∧ crypto_set_passphrasekey c1 pwd kp (blen kp) = Some c2
    ∧ rvault_init_hdr cipher flags iv kp = Ok (h0, flen)
    ∧ hex_read_arbitrary_buf uid_str = Some uid
    ∧ blen uid = UID_LEN
    ∧ poke OFF_UID uid h0 = Ok h1
    ∧ (if Z.land flags RVAULT_FLAG_NOAUTH =? 0
       then ∃ url, server = Some url
            ∧ rvault_key_set (w_srv w) (mk_rvault None uid 0 (Some c2) (Some url) [] 0)
              = Some (w_srv w1, c3)
            ∧ w1 = mk_world (w_fs w) (w_srv w1) (w_log w)
       else c3 = c2 ∧ w1 = w)
    ∧ rvault_hmac_compute c3 h1 = Ok tag
    ∧ RVAULT_HDR_TO_HMAC host_endian h1 = Ok off
    ∧ poke off tag h1 = Ok hdr.
Proof.
  unfold rvault_init_record. intros Hrec. minv'.
  all: unfold mret, M_ret in *; simplify_eq.
  all: repeat match goal with
              | H : (_ <=? _) = true |- _ => apply Z.leb_le in H
              | H : (blen _ =? _) = true |- _ => apply Z.eqb_eq in H
              | H : (crypto_cipher_id _ =? _) = false |- _ => apply Z.eqb_neq in H
              end.
  all: eexists _, _, _, _, _, _, _, _, _, _, _, _.
  all: split_and!; try eassumption.
  all: try match goal with
           | H : (Z.land _ _ =? 0) = _ |- _ => rewrite H
           end.
  all: try done.
  all: eexists; split_and!; done.
Qed.

(** The key server is touched by the registration only. *)
Lemma init_record_srv server pwd uid_str cipher_str flags w :
  let r := rvault_init_record server pwd uid_str cipher_str flags w in
  w_srv r.2 = w_srv w
  ∨ (Z.land flags RVAULT_FLAG_NOAUTH = 0
     ∧ ∃ url uid c2 c3,
         server = Some url
         ∧ (∀ s, cipher_str = Some s → crypto_cipher_id s ≠ CIPHER_NONE)
         ∧ hex_read_arbitrary_buf uid_str = Some uid
         ∧ blen uid = UID_LEN
         ∧ rvault_key_set (w_srv w) (mk_rvault None uid 0 (Some c2) (Some url) [] 0)
           = Some (w_srv r.2, c3)).
Proof.
  cbn zeta. unfold rvault_init_record.
  unfold mbind, M_bind, lift, fail, app_log, get_srv, put_srv, mret, M_ret, of_option.
  repeat (case_match; simplify_eq; cbn [fst snd w_srv]; try (by left)).
  all: right.
  all: repeat match goal with
              | H : (blen _ =? _) = true |- _ => apply Z.eqb_eq in H
              | H : (Z.land _ _ =? _) = true |- _ => apply Z.eqb_eq in H
              | H : (crypto_cipher_id _ =? _) = false |- _ => apply Z.eqb_neq in H
              end.
  all: split; [done|]; eexists _, _, _, _; split_and!; try done.
  all: by intros ? [= <-].
Qed.

(** The store step: outcome by outcome. *)
Lemma init_store_frame path hdr file_len w :
  let r := rvault_init_store path hdr file_len w in
  w_srv r.2 = w_srv w
  ∧ fs_dirs (w_fs r.2) = fs_dirs (w_fs w)
  ∧ (∀ p, p ≠ meta_path path → fs_files (w_fs r.2) !! p = fs_files (w_fs w) !! p)
  ∧ (∀ f, fs_files (w_fs w) !! meta_path path = Some f → w_fs r.2 = w_fs w).
Proof.
  cbn zeta. unfold rvault_init_store, open_metadata, get_vault_path, realpath,
    is_directory, sys_open, fs_write.
  unfold mbind, M_bind, lift, fail, app_log, get_fs, put_fs, mret, M_ret.
  cbn [w_fs w_srv w_log fst snd].
  repeat (case_match; simplify_eq; cbn [fst snd w_fs w_srv w_log fs_files fs_dirs] in *;
          try done).
  all: split_and!; try done.
  all: try (intros p Hp; by rewrite ?lookup_insert_ne by done).
  all: try (intros f Hf;
            match goal with
            | H : bool_decide _ = false |- _ =>
                apply bool_decide_eq_false_1 in H; destruct H; left; by rewrite Hf
            end).
Qed.

(** X7.  Whatever its outcome, [rvault_init] leaves every file other
    than the metadata file of the given directory as it was. *)
Theorem init_touches_only_metadata_file path server pwd uid_str cipher_str flags w p :
  p ≠ meta_path path →
  fs_files (w_fs (rvault_init path server pwd uid_str cipher_str flags w).2) !! p
  = fs_files (w_fs w) !! p.
Proof.
  intros Hp. rewrite init_unfold.
  pose proof (init_record_fs server pwd uid_str cipher_str flags w) as Hfs.
  destruct (rvault_init_record _ _ _ _ _ w) as [[[hdr flen]| |] w1]; simpl in Hfs;
    [|simpl; by rewrite Hfs..].
  destruct (init_store_frame path hdr flen w1) as (_ & _ & Hother & _).
  rewrite Hother by done. by rewrite Hfs.
Qed.

(** X8.  [rvault_init] changes the state of the key server only through
    its one call of [rvault_key_set], made in authenticated mode with
    the given URL and the UID parsed from [uid_str]; with
    [RVAULT_FLAG_NOAUTH] set, or without a URL, the server is left as it
    was whatever the outcome. *)
Theorem init_server_contact path server pwd uid_str cipher_str flags w :
  let r := rvault_init path server pwd uid_str cipher_str flags w in
  (w_srv r.2 = w_srv w
   ∨ ∃ url uid c2 c3,
       server = Some url
       ∧ Z.land flags RVAULT_FLAG_NOAUTH = 0
       ∧ hex_read_arbitrary_buf uid_str = Some uid
       ∧ rvault_key_set (w_srv w) (mk_rvault None uid 0 (Some c2) (Some url) [] 0)
         = Some (w_srv r.2, c3))
  ∧ (Z.land flags RVAULT_FLAG_NOAUTH ≠ 0 → w_srv r.2 = w_srv w)
  ∧ (server = None → w_srv r.2 = w_srv w).
Proof.
  cbn zeta.
  assert (w_srv (rvault_init path server pwd uid_str cipher_str flags w).2
          = w_srv (rvault_init_record server pwd uid_str cipher_str flags w).2) as ->.
  { rewrite init_unfold.
    destruct (rvault_init_record _ _ _ _ _ w) as [[[hdr flen]| |] w1]; try done.
    by destruct (init_store_frame path hdr flen w1) as (-> & _). }
  destruct (init_record_srv server pwd uid_str cipher_str flags w)
    as [Hs|(Hauth & url & uid & c2 & c3 & -> & _ & Hu & _ & Hset)].
  - split_and!; auto.
  - split_and!; [|done|done]. right. by exists url, uid, c2, c3.
Qed.

(** X9.  [rvault_init] called with a cipher name that
    [crypto_cipher_id] does not know, with a UID that is not 16 bytes of
    hexadecimal digits, or in authenticated mode without a server URL,
    never returns 0 and leaves both the file system and the key server
    as they were; for the cipher name the result is [-1] with the one
    message "invalid or unsupported cipher". *)
Theorem init_rejects_bad_arguments path server pwd uid_str cipher_str flags w :
  (∃ s, cipher_str = Some s ∧ crypto_cipher_id s = CIPHER_NONE)
  ∨ (∀ uid, hex_read_arbitrary_buf uid_str = Some uid → blen uid ≠ UID_LEN)
  ∨ (Z.land flags RVAULT_FLAG_NOAUTH = 0 ∧ server = None) →
  let r := rvault_init path server pwd uid_str cipher_str flags w in
  r.1 ≠ Ok tt
  ∧ w_fs r.2 = w_fs w
  ∧ w_srv r.2 = w_srv w
  ∧ (∀ s, cipher_str = Some s → crypto_cipher_id s = CIPHER_NONE →
       r = (Fail, mk_world (w_fs w) (w_srv w) (w_log w ++ [MSG_invalid_cipher s]))).
Proof.
  intros Hbad. cbn zeta.
  assert (∀ hdr flen w1,
    rvault_init_record server pwd uid_str cipher_str flags w ≠ (Ok (hdr, flen), w1))
    as Hno.
  { intros hdr flen w1 Hrec.
    destruct (init_record_Ok _ _ _ _ _ _ _ _ _ Hrec)
      as (cipher & c0 & iv & c1 & kp & c2 & h0 & uid & h1 & c3 & tag & off & Hc & _ & _
          & _ & _ & _ & _ & _ & _ & Hu & Hul & _ & Hm & _).
    destruct Hbad as [(s & -> & Hs)|[Hb|[Ha ->]]].
    - destruct Hc as [-> ?]. done.
    - by apply (Hb uid).
    - apply Z.eqb_eq in Ha. rewrite Ha in Hm. by destruct Hm as (? & ? & _). }
  pose proof (init_record_fs server pwd uid_str cipher_str flags w) as Hfs.
  pose proof (init_record_srv server pwd uid_str cipher_str flags w) as Hsrv.
  cbn zeta in Hsrv. rewrite init_unfold.
  destruct (rvault_init_record server pwd uid_str cipher_str flags w)
    as [[[hdr flen]| |] w1] eqn:Hrec; [by destruct (Hno hdr flen w1)|..].
  - simpl in *. split_and!; try done.
    + destruct Hsrv as [?|(Ha & url & uid & c2 & c3 & -> & Hc & Hu & Hul & _)]; [done|].
      destruct Hbad as [(s & -> & Hs)|[Hb|[_ [=]]]].
      * by destruct (Hc s).
      * by destruct (Hb uid).
    + intros s -> Hs. unfold rvault_init_record in Hrec.
      unfold mbind, M_bind, app_log, fail in Hrec. rewrite Hs in Hrec.
      simpl in Hrec. by injection Hrec as <-.
  - simpl in *. split_and!; try done.
    + destruct Hsrv as [?|(Ha & url & uid & c2 & c3 & -> & Hc & Hu & Hul & _)]; [done|].
      destruct Hbad as [(s & -> & Hs)|[Hb|[_ [=]]]].
      * by destruct (Hc s).
      * by destruct (Hb uid).
    + intros s -> Hs. unfold rvault_init_record in Hrec.
      unfold mbind, M_bind, app_log, fail in Hrec. rewrite Hs in Hrec.
      simpl in Hrec. by injection Hrec.
Qed.
End InitOutcomes.

(** ** Opening: failures and frames *)

Section OpenOutcomes.
Context `{P : Platform}.
Implicit Types w : world.

(** Mapping the metadata, outcome by outcome. *)
Lemma open_metadata_mmap_run path w :
  open_metadata_mmap path w
  = if bool_decide (is_Some (fs_dirs (w_fs w) !! path)) then
      match fs_files (w_fs w) !! meta_path path with
      | Some f =>
          if blen (f_data f) <? RVAULT_HDR_LEN
          then (Fail, mk_world (w_fs w) (w_srv w) (w_log w ++ [MSG_metadata_corrupted]))
          else (Ok (f_data f, path, blen (f_data f)), w)
      | None =>
          match fs_dirs (w_fs w) !! meta_path path with
          | Some entries =>
              if dir_st_size entries <? RVAULT_HDR_LEN
              then (Fail, mk_world (w_fs w) (w_srv w)
                            (w_log w ++ [MSG_metadata_corrupted]))
              else (Fail, w)
          | None =>
              (Fail, mk_world (w_fs w) (w_srv w)
                       (w_log w ++ [MSG_could_not "open" (meta_path path) ENOENT]))
          end
      end
    else
      (Fail, mk_world (w_fs w) (w_srv w)
               (w_log w ++ [if bool_decide (is_Some (fs_dirs (w_fs w) !! path)
                                            ∨ is_Some (fs_files (w_fs w) !! path))
                            then MSG_not_a_directory path
                            else MSG_location_not_found path])).
Proof.
  unfold open_metadata_mmap, mbind at 1, M_bind. rewrite open_metadata_rdonly.
  case_bool_decide as Hd; [|done].
  destruct (fs_files (w_fs w) !! meta_path path) as [f|] eqn:Hf.
  - rewrite bool_decide_eq_true_2 by (left; done).
    unfold mbind, M_bind, get_fs, fs_file_size, safe_mmap, app_log, fail, lift,
      mret, M_ret. simpl. rewrite Hf. simpl.
    by destruct (_ <? _).
  - destruct (fs_dirs (w_fs w) !! meta_path path) as [entries|] eqn:He.
    + rewrite bool_decide_eq_true_2 by (right; done).
      unfold mbind, M_bind, get_fs, fs_file_size, safe_mmap, app_log, fail, lift,
        mret, M_ret. simpl. rewrite Hf, He. simpl.
      by destruct (_ <? _).
    + rewrite bool_decide_eq_false_2; [done|]. by intros [[? [=]]|[? [=]]].
Qed.

Lemma open_run path server pwd w :
  rvault_open path server pwd w
  = match rvault_open_key path server pwd w with
    | (Ok (hdr, vault, crypto), w1) =>
        match rvault_hmac_verify crypto hdr with
        | Ok _ => (Ok vault, w1)
        | Fail => (app_log MSG_verification_failed;; close_and_fail vault) w1
        | Fault => (Fault, w1)
        end
    | (Fail, w1) => (Fail, w1)
    | (Fault, w1) => (Fault, w1)
    end.
Proof.
  unfold rvault_open, mbind at 1, M_bind.
  destruct (rvault_open_key path server pwd w) as [[[[hdr v] c]| |] w1]; try done.
  by destruct (rvault_hmac_verify c hdr).
Qed.

Lemma open_key_run path server pwd w :
  rvault_open_key path server pwd w
  = match open_metadata_mmap path w with
    | (Ok (hdr, base_path, file_len), w1) =>
        (vault ← rvault_open_hdr hdr server file_len;
         let vault := set_base_path (Some base_path) vault in
         crypto ← lift (match v_crypto vault with Some c => Ok c | None => Fault end);
         '(kp, kp_len) ← lift (hdr_kp host_endian hdr);
         match crypto_set_passphrasekey crypto pwd kp kp_len with
         | None => close_and_fail vault
         | Some crypto =>
             let vault := set_crypto (Some crypto) vault in
             flags ← lift (hdr_flags hdr);
             if Z.land flags RVAULT_FLAG_NOAUTH =? 0 then
               match server with
               | None => app_log MSG_usage_srvurl;; close_and_fail vault
               | Some _ =>
                   srv ← get_srv;
                   match rvault_key_get srv vault with
                   | None => close_and_fail vault
                   | Some (srv', crypto') =>
                       put_srv srv';;
                       mret (hdr, set_crypto (Some crypto') vault, crypto')
                   end
               end
             else mret (hdr, vault, crypto)
         end) w1
    | (Fail, w1) => (Fail, w1)
    | (Fault, w1) => (Fault, w1)
    end.
Proof.
  unfold rvault_open_key, mbind at 1, M_bind.
  by destruct (open_metadata_mmap path w) as [[[[hdr bp] fl]| |] w1].
Qed.

(** A failure of the mapping is the failure of [rvault_open]. *)
Lemma open_mmap_failed path server pwd w w1 :
  open_metadata_mmap path w = (Fail, w1) →
  rvault_open path server pwd w = (Fail, w1).
Proof. intros H. by rewrite open_run, open_key_run, H. Qed.

(** X10.  [rvault_open] on a path that does not exist, on a path that
    is not a directory, and on a directory that holds nothing under the
    name of the metadata file: each returns [NULL], adds exactly one
    message ("location not found", "is not a directory", "could not
    open" with [ENOENT]) and changes nothing else.  Where the name of
    the metadata file is itself a directory, [open] with [O_RDONLY]
    succeeds: [rvault_open] returns [NULL] and changes nothing but the
    log, which gets "metadata file corrupted" when the directory reports
    a size below the 64 bytes of the header and no message otherwise,
    the mapping having failed. *)
Theorem open_path_errors path server pwd w :
  let r := rvault_open path server pwd w in
  let failed m := r = (Fail, mk_world (w_fs w) (w_srv w) (w_log w ++ [m])) in
  (fs_dirs (w_fs w) !! path = None → fs_files (w_fs w) !! path = None →
   failed (MSG_location_not_found path))
  ∧ (fs_dirs (w_fs w) !! path = None → is_Some (fs_files (w_fs w) !! path) →
     failed (MSG_not_a_directory path))
  ∧ (is_Some (fs_dirs (w_fs w) !! path) →
     fs_files (w_fs w) !! meta_path path = None →
     fs_dirs (w_fs w) !! meta_path path = None →
     failed (MSG_could_not "open" (meta_path path) ENOENT))
  ∧ (∀ entries,
       is_Some (fs_dirs (w_fs w) !! path) →
       fs_files (w_fs w) !! meta_path path = None →
       fs_dirs (w_fs w) !! meta_path path = Some entries →
       if dir_st_size entries <? RVAULT_HDR_LEN
       then failed MSG_metadata_corrupted
       else r = (Fail, w)).
Proof.
  cbn zeta. split_and!.
  - intros Hd Hf. apply open_mmap_failed. rewrite open_metadata_mmap_run.
    rewrite !bool_decide_eq_false_2; [done|rewrite Hd, Hf|rewrite Hd].
    + by intros [[? [=]]|[? [=]]].
    + by intros [? [=]].
  - intros Hd Hf. apply open_mmap_failed. rewrite open_metadata_mmap_run.
    rewrite bool_decide_eq_false_2 by (rewrite Hd; by intros [? [=]]).
    by rewrite bool_decide_eq_true_2 by (by right).
  - intros Hd Hf He. apply open_mmap_failed. rewrite open_metadata_mmap_run.
    by rewrite bool_decide_eq_true_2, Hf, He by done.
  - intros entries Hd Hf He.
    destruct (dir_st_size entries <? RVAULT_HDR_LEN) eqn:Hsz.
    + apply open_mmap_failed. rewrite open_metadata_mmap_run.
      by rewrite bool_decide_eq_true_2, Hf, He, Hsz by done.
    + apply open_mmap_failed. rewrite open_metadata_mmap_run.
      by rewrite bool_decide_eq_true_2, Hf, He, Hsz by done.
Qed.

Lemma open_hdr_run path server pwd w f :
  is_Some (fs_dirs (w_fs w) !! path) →
  fs_files (w_fs w) !! meta_path path = Some f →
  RVAULT_HDR_LEN ≤ blen (f_data f) →
  ∀ w1, rvault_open_hdr (f_data f) server (blen (f_data f)) w = (Fail, w1) →
  rvault_open path server pwd w = (Fail, w1).
Proof.
  intros Hd Hf Hlen w1 Hhdr. rewrite open_run, open_key_run, open_metadata_mmap_run.
  rewrite bool_decide_eq_true_2, Hf by done.
  destruct (_ <? _) eqn:E; [lia|].
  by rewrite (bind_Fail _ _ _ _ Hhdr).
Qed.

(** X11.  [rvault_open] rejects a malformed metadata file before any
    crypto state is created: a file shorter than the 64-byte header and
    a file whose length differs from [RVAULT_FILE_LEN], so a truncated
    or an extended one, are "metadata file corrupted"; a version byte
    other than the ABI version is "incompatible vault version", and is
    tested before the length.  Each returns [NULL] with that one
    message and changes nothing else. *)
Theorem open_rejects_malformed_metadata path server pwd w f :
  is_Some (fs_dirs (w_fs w) !! path) →
  fs_files (w_fs w) !! meta_path path = Some f →
  let r := rvault_open path server pwd w in
  let failed m := r = (Fail, mk_world (w_fs w) (w_srv w) (w_log w ++ [m])) in
  (blen (f_data f) < RVAULT_HDR_LEN → failed MSG_metadata_corrupted)
  ∧ (∀ ver, RVAULT_HDR_LEN ≤ blen (f_data f) →
       hdr_ver (f_data f) = Ok ver → ver ≠ RVAULT_ABI_VER →
       failed (MSG_incompatible_version ver))
  ∧ (∀ n, RVAULT_HDR_LEN ≤ blen (f_data f) →
       hdr_ver (f_data f) = Ok RVAULT_ABI_VER →
       RVAULT_FILE_LEN host_endian (f_data f) = Ok n → n ≠ blen (f_data f) →
       failed MSG_metadata_corrupted).
Proof.
  intros Hd Hf. cbn zeta. split_and!.
  - intros Hlen. apply open_mmap_failed. rewrite open_metadata_mmap_run.
    rewrite bool_decide_eq_true_2, Hf by done.
    destruct (_ <? _) eqn:E; [done|lia].
  - intros ver Hlen Hv Hne. apply (open_hdr_run _ _ _ _ f); try done.
    unfold rvault_open_hdr, mbind, M_bind, lift, app_log, fail. rewrite Hv.
    destruct (ver =? RVAULT_ABI_VER) eqn:E; [lia|done].
  - intros n Hlen Hv Hn Hne. apply (open_hdr_run _ _ _ _ f); try done.
    unfold rvault_open_hdr, mbind, M_bind, lift, app_log, fail. rewrite Hv, Z.eqb_refl, Hn.
    simpl. destruct (n =? blen (f_data f)) eqn:E; [lia|done].
Qed.

Lemma open_metadata_mmap_fs path : preserves w_fs (open_metadata_mmap path).
Proof.
  intros w. rewrite open_metadata_mmap_run. repeat case_match; done.
Qed.

Lemma open_metadata_mmap_srv path : preserves w_srv (open_metadata_mmap path).
Proof.
  intros w. rewrite open_metadata_mmap_run. repeat case_match; done.
Qed.

Lemma open_key_fs path server pwd : preserves w_fs (rvault_open_key path server pwd).
Proof.
  unfold rvault_open_key.
  repeat first [apply app_log_fs | apply put_srv_fs | apply open_metadata_mmap_fs
               | apply open_hdr_fs | preserves_step].
Qed.

(** X12.  [rvault_open] never changes the file system, whatever its
    outcome. *)
Theorem open_never_writes path server pwd w :
  w_fs (rvault_open path server pwd w).2 = w_fs w.
Proof.
  revert w. change (preserves w_fs (rvault_open path server pwd)).
  unfold rvault_open.
  repeat first [apply app_log_fs | apply open_key_fs | preserves_step].
Qed.

(** The key server is touched by the fetch of the key only. *)
Lemma open_key_srv path server pwd w r w' :
  rvault_open_key path server pwd w = (r, w') →
  w_srv w' = w_srv w
  ∨ ∃ url f flags v c',
      server = Some url
      ∧ fs_files (w_fs w) !! meta_path path = Some f
      ∧ hdr_flags (f_data f) = Ok flags
      ∧ Z.land flags RVAULT_FLAG_NOAUTH = 0
      ∧ v_server_url v = Some url
      ∧ v_base_path v = Some path
      ∧ hdr_uid (f_data f) = Ok (v_uid v)
      ∧ rvault_key_get (w_srv w) v = Some (w_srv w', c').
Proof.
  rewrite open_key_run, open_metadata_mmap_run. intros H.
  case_bool_decide as Hd; [|injection H as <- <-; by left].
  destruct (fs_files (w_fs w) !! meta_path path) as [f|] eqn:Hf;
    [|destruct (fs_dirs (w_fs w) !! meta_path path) as [entries|];
        [destruct (dir_st_size entries <? RVAULT_HDR_LEN)|];
        injection H as <- <-; by left].
  destruct (_ <? _); [injection H as <- <-; by left|].
  unfold mbind at 1, M_bind in H.
  pose proof (open_hdr_srv (f_data f) server (blen (f_data f)) w) as Hs1.
  destruct (rvault_open_hdr (f_data f) server (blen (f_data f)) w) as [[v| |] w1] eqn:Hhdr;
    simpl in Hs1; [|injection H as <- <-; by left..].
  apply open_hdr_Ok in Hhdr
    as (cipher & uid & iv & c0 & c1 & Hv & Hl & Hc & Hu & Hcr & Hiv & Hset & -> & ->).
  cbn [set_base_path v_crypto v_uid v_cipher v_server_url v_file_list v_file_count] in H.
  unfold close_and_fail, mbind, M_bind, lift, fail, app_log, get_srv, put_srv, mret, M_ret
    in H.
  repeat (case_match; simplify_eq; cbn [fst snd w_srv]; try (by left)).
  right.
  match goal with H : (Z.land _ _ =? _) = true |- _ => apply Z.eqb_eq in H end.
  eexists _, f, _, _, _. split_and!; try done.
  all: try reflexivity.
  exact Hu.
Qed.

(** X13.  [rvault_open] changes the state of the key server only
    through [rvault_key_get], called when the flags of the metadata have
    [RVAULT_FLAG_NOAUTH] clear and a URL is given, on a vault that
    carries the URL, the path and the UID of the header; without a URL,
    or on a vault whose flags have [RVAULT_FLAG_NOAUTH] set, the server
    is left as it was even when a URL is given. *)
Theorem open_server_contact path server pwd w :
  let r := rvault_open path server pwd w in
  (w_srv r.2 = w_srv w
   ∨ ∃ url f flags v c',
       server = Some url
       ∧ fs_files (w_fs w) !! meta_path path = Some f
       ∧ hdr_flags (f_data f) = Ok flags
       ∧ Z.land flags RVAULT_FLAG_NOAUTH = 0
       ∧ v_server_url v = Some url
       ∧ v_base_path v = Some path
       ∧ hdr_uid (f_data f) = Ok (v_uid v)
       ∧ rvault_key_get (w_srv w) v = Some (w_srv r.2, c'))
  ∧ (server = None → w_srv r.2 = w_srv w)
  ∧ (∀ f flags, fs_files (w_fs w) !! meta_path path = Some f →
       hdr_flags (f_data f) = Ok flags →
       Z.land flags RVAULT_FLAG_NOAUTH ≠ 0 →
       w_srv r.2 = w_srv w).
Proof.
  cbn zeta.
  assert (w_srv (rvault_open path server pwd w).2
          = w_srv (rvault_open_key path server pwd w).2) as ->.
  { rewrite open_run.
    destruct (rvault_open_key path server pwd w) as [[[[hdr v] c]| |] w1]; try done.
    destruct (rvault_hmac_verify c hdr); try done.
    unfold mbind, M_bind, app_log, close_and_fail. simpl.
    by destruct (rvault_close 0 v) as [[]|]. }
  destruct (rvault_open_key path server pwd w) as [rk wk] eqn:Hk.
  destruct (open_key_srv path server pwd w rk wk Hk)
    as [Hs|(url & f & flags & v & c' & -> & Hf & Hfl & Ha & Hurl & Hbp & Hu & Hget)].
  - split_and!; auto.
  - split_and!.
    + right. by exists url, f, flags, v, c'.
    + done.
    + intros f' flags' Hf' Hfl' Hna. rewrite Hf in Hf'. injection Hf' as <-.
      rewrite Hfl in Hfl'. injection Hfl' as <-. done.
Qed.
End OpenOutcomes.

(** ** Opening: the reads stay within the record *)

Section Bounds.
Context `{P : Platform}.
Implicit Types w : world.

Lemma peek_defined off len buf :
  0 ≤ off → 0 ≤ len → off + len ≤ blen buf → ∃ l, peek off len buf = Ok l.
Proof. intros. eexists. apply peek_Ok. done. Qed.

Lemma peek8_defined off buf :
  0 ≤ off → off + 1 ≤ blen buf → ∃ x, peek8 off buf = Ok x.
Proof.
  intros. unfold peek8. destruct (peek_defined off 1 buf) as [l ->]; [lia..|].
  by eexists.
Qed.

Lemma peek16_defined e off buf :
  0 ≤ off → off + 2 ≤ blen buf → ∃ x, peek16 e off buf = Ok x.
Proof.
  intros. unfold peek16. destruct (peek_defined off 2 buf) as [l ->]; [lia..|].
  by eexists.
Qed.

(** The members of the header lie within the first
    [RVAULT_HDR_LEN] bytes. *)
Lemma header_reads_defined e h :
  RVAULT_HDR_LEN ≤ blen h →
  ∃ ver cipher flags uid n,
    hdr_ver h = Ok ver ∧ hdr_cipher h = Ok cipher ∧ hdr_flags h = Ok flags
    ∧ hdr_uid h = Ok uid ∧ RVAULT_FILE_LEN e h = Ok n.
Proof.
  unfold RVAULT_HDR_LEN. intros Hlen.
  destruct (peek8_defined OFF_VER h) as [ver Hv]; [unfold OFF_VER; lia..|].
  destruct (peek8_defined OFF_CIPHER h) as [cipher Hc]; [unfold OFF_CIPHER; lia..|].
  destruct (peek8_defined OFF_FLAGS h) as [flags Hf]; [unfold OFF_FLAGS; lia..|].
  destruct (peek_defined OFF_UID UID_LEN h) as [uid Hu]; [unfold OFF_UID, UID_LEN; lia..|].
  destruct (peek16_defined e OFF_IV_LEN h) as [ivr Hi]; [unfold OFF_IV_LEN; lia..|].
  destruct (peek16_defined e OFF_KP_LEN h) as [kpr Hk]; [unfold OFF_KP_LEN; lia..|].
  exists ver, cipher, flags, uid. eexists. split_and!; try done.
  unfold RVAULT_FILE_LEN, RVAULT_HMAC_DATALEN, hdr_iv_len, hdr_kp_len.
  rewrite Hi, Hk. done.
Qed.

(** After the length check of [rvault_open_hdr] the IV, the tag and the
    data of the HMAC lie within the record. *)
Lemma checked_reads_defined h :
  RVAULT_FILE_LEN host_endian h = Ok (blen h) →
  ∃ iv tag data,
    hdr_iv host_endian h = Ok iv
    ∧ hdr_hmac host_endian h = Ok tag
    ∧ hdr_hmac_data host_endian h = Ok data.
Proof.
  intros Hlen.
  destruct (file_len_Ok _ _ Hlen) as (ivr & kpr & Hi & Hk & ? & ? & ? & Hn).
  unfold hdr_iv, hdr_hmac, hdr_hmac_data, RVAULT_HDR_TO_HMAC, RVAULT_HDR_TO_KP,
    RVAULT_HMAC_DATALEN, RVAULT_HDR_TO_IV.
  rewrite Hi, Hk. cbn [res_bind].
  unfold RVAULT_HDR_LEN, HMAC_SHA3_256_BUFLEN in *.
  destruct (peek_defined 64 (be16toh host_endian ivr) h) as [iv ->]; [lia..|].
  destruct (peek_defined (64 + be16toh host_endian ivr + be16toh host_endian kpr) 32 h)
    as [tag ->]; [lia..|].
  destruct (peek_defined 0 (64 + be16toh host_endian ivr + be16toh host_endian kpr) h)
    as [data ->]; [lia..|].
  by exists iv, tag, data.
Qed.

(** On a big-endian host the raw [kp_len] is the decoded one, so the
    KDF parameters handed to the key derivation lie within the record
    as well, before the tag. *)
Lemma checked_kp_big_endian h :
  host_endian = BigEndian →
  RVAULT_FILE_LEN host_endian h = Ok (blen h) →
  ∃ kp off, hdr_kp host_endian h = Ok (kp, blen kp)
            ∧ RVAULT_HDR_TO_KP host_endian h = Ok off
            ∧ peek off (blen kp) h = Ok kp
            ∧ off + blen kp + HMAC_SHA3_256_BUFLEN = blen h.
Proof.
  intros He Hlen.
  destruct (file_len_Ok _ _ Hlen) as (ivr & kpr & Hi & Hk & ? & ? & ? & Hn).
  unfold hdr_kp, RVAULT_HDR_TO_KP, RVAULT_HDR_TO_IV. rewrite Hi, Hk. cbn [res_bind].
  assert (be16toh host_endian kpr = kpr) as Hbe.
  { rewrite He. unfold be16toh, htobe16. by apply u16_small. }
  unfold RVAULT_HDR_LEN, HMAC_SHA3_256_BUFLEN in *.
  destruct (peek_defined (64 + be16toh host_endian ivr) kpr h) as [kp Hkp]; [lia..|].
  pose proof (peek_length _ _ _ _ Hkp) as Hbl.
  rewrite (peek_take_drop _ _ _ _ Hkp).
  exists kp, (64 + be16toh host_endian ivr). rewrite Hbl. split_and!; try done. lia.
Qed.

Lemma open_hdr_no_fault h server w :
  RVAULT_HDR_LEN ≤ blen h →
  (rvault_open_hdr h server (blen h) w).1 ≠ Fault.
Proof.
  intros Hlen.
  destruct (header_reads_defined host_endian h Hlen)
    as (ver & cipher & flags & uid & n & Hv & Hc & Hf & Hu & Hn).
  unfold rvault_open_hdr, mbind, M_bind, lift, app_log, fail. rewrite Hv.
  destruct (ver =? RVAULT_ABI_VER); [|done]. cbn [negb]. rewrite Hn.
  destruct (n =? blen h) eqn:E; [|done]. cbn [negb]. apply Z.eqb_eq in E. subst n.
  rewrite Hc, Hu. cbn zeta.
  destruct (checked_reads_defined h Hn) as (iv & tag & data & Hiv & _ & _).
  destruct (crypto_create cipher) as [c|]; [|by rewrite close_and_fail_fresh; simpl].
  cbn [set_crypto v_base_path v_uid v_cipher v_crypto v_server_url v_file_list
       v_file_count].
  rewrite Hiv. destruct (crypto_set_iv c iv); [done|].
  unfold set_crypto. cbn [v_base_path v_uid v_cipher v_crypto v_server_url v_file_list
       v_file_count]. by rewrite close_and_fail_fresh.
Qed.

Lemma verify_no_fault c h :
  RVAULT_FILE_LEN host_endian h = Ok (blen h) →
  is_Some (crypto_get_key c) →
  rvault_hmac_verify c h ≠ Fault.
Proof.
  intros Hlen [key Hkey].
  destruct (checked_reads_defined h Hlen) as (iv & tag & data & _ & Htag & Hdata).
  unfold rvault_hmac_verify, rvault_hmac_compute. rewrite Hkey, Hdata.
  cbn [mbind res_mbind res_bind].
  destruct (hmac_sha3_256 key data); [|done].
  cbn [mbind res_mbind res_bind]. rewrite Htag. cbn [mbind res_mbind res_bind].
  by case_match.
Qed.

(** X14.  On a big-endian host [rvault_open] never reads outside the
    mapped metadata and trips no [ASSERT], whatever the file holds,
    provided the crypto state has a key once [crypto_set_passphrasekey]
    or [rvault_key_get] has succeeded; and the [kp_len] bytes it hands
    to [crypto_set_passphrasekey], once the length of the file is
    checked, lie inside the mapping, before the tag. *)
Theorem open_no_fault_big_endian path server pwd w :
  host_endian = BigEndian →
  (∀ c pw kp kp_len c', crypto_set_passphrasekey c pw kp kp_len = Some c' →
     is_Some (crypto_get_key c')) →
  (∀ srv v srv' c', rvault_key_get srv v = Some (srv', c') →
     is_Some (crypto_get_key c')) →
  (rvault_open path server pwd w).1 ≠ Fault
  ∧ (∀ h, RVAULT_FILE_LEN host_endian h = Ok (blen h) →
       ∃ kp off, hdr_kp host_endian h = Ok (kp, blen kp)
                 ∧ RVAULT_HDR_TO_KP host_endian h = Ok off
                 ∧ peek off (blen kp) h = Ok kp
                 ∧ off + blen kp + HMAC_SHA3_256_BUFLEN = blen h).
Proof.
  intros He Hkdf Hget. split; [|intros h; by apply checked_kp_big_endian].
  rewrite open_run.
  destruct (rvault_open_key path server pwd w) as [[[[hdr v] c]| |] w1] eqn:Hk.
  - apply open_key_Ok in Hk.
    destruct Hk as (f & cipher & uid & iv & kp & kp_len & flags & c0 & c1 & c2 & Hd & Hf & ->
            & Hlen & Hv & Hl & Hc & Hu & Hcr & Hiv & Hset & Hkp & Hpk & Hfl & -> & Hkey).
    assert (is_Some (crypto_get_key c)) as Hc'.
    { destruct (Z.land flags RVAULT_FLAG_NOAUTH =? 0).
      - destruct Hkey as (_ & Hg & _). by eapply Hget.
      - destruct Hkey as [-> _]. by eapply Hkdf. }
    pose proof (verify_no_fault c (f_data f) Hl Hc') as Hver.
    destruct (rvault_hmac_verify c (f_data f)) as [[]| |]; [done| |done].
    unfold mbind, M_bind, app_log. by rewrite close_and_fail_fresh; simpl.
  - done.
  - exfalso. rewrite open_key_run, open_metadata_mmap_run in Hk.
    case_bool_decide; [|done].
    destruct (fs_files (w_fs w) !! meta_path path) as [f|];
      [|by repeat case_match].
    destruct (_ <? _) eqn:E; [done|]. apply Z.ltb_ge in E.
    unfold mbind at 1, M_bind in Hk.
    pose proof (open_hdr_no_fault (f_data f) server w E) as Hnf.
    destruct (rvault_open_hdr (f_data f) server (blen (f_data f)) w) as [[v| |] w2] eqn:Hh;
      [|done|done].
    apply open_hdr_Ok in Hh
      as (cipher & uid & iv & c0 & c1 & Hv & Hl & Hc & Hu & Hcr & Hiv & Hset & -> & ->).
    cbn [set_base_path v_crypto v_uid v_cipher v_server_url v_file_list v_file_count]
      in Hk.
    destruct (checked_kp_big_endian _ He Hl) as (kp & off & Hkp & _).
    destruct (header_reads_defined host_endian (f_data f) E)
      as (? & ? & flags & ? & ? & _ & _ & Hfl & _).
    unfold mbind, M_bind, lift, get_srv, put_srv, app_log, mret, M_ret in Hk.
    unfold set_crypto, set_base_path in Hk.
    cbn [v_base_path v_uid v_cipher v_crypto v_server_url v_file_list v_file_count] in Hk.
    rewrite Hkp in Hk.
    destruct (crypto_set_passphrasekey c1 pwd kp (blen kp));
      [|by rewrite close_and_fail_fresh in Hk].
    rewrite Hfl in Hk.
    destruct (Z.land flags RVAULT_FLAG_NOAUTH =? 0); [|done].
    destruct server; [|by rewrite close_and_fail_fresh in Hk].
    destruct (rvault_key_get _ _) as [[]|]; [done|].
    by rewrite close_and_fail_fresh in Hk.
Qed.
End Bounds.

Section LittleEndianOpen.
Context `{P : Platform}.
Implicit Types w : world.

(** X15.  On a little-endian host [rvault_open] reads [hdr->kp_len]
    without [be16toh] (rvault.c:428) after [rvault_open_hdr] has checked
    the length of the file with it.  For a header that passed the check
    and whose [kp_len] bytes [b0; b1] have [b0 < b1], so every
    big-endian length from 1 to 255, the record holds [256 * b0 + b1]
    bytes of KDF parameters, but the length handed to
    [crypto_set_passphrasekey] is [256 * b1 + b0]: a region that ends
    beyond the record, of which the record holds the KDF parameters
    and the tag and nothing more.  [rvault_open] itself reads none of
    it; when the key derivation rejects the call, [rvault_open] returns
    [NULL] and leaves no message. *)
Theorem open_kp_region_little_endian path server pwd w f v b0 b1 :
  host_endian = LittleEndian →
  is_Some (fs_dirs (w_fs w) !! path) →
  fs_files (w_fs w) !! meta_path path = Some f →
  RVAULT_HDR_LEN ≤ blen (f_data f) →
  rvault_open_hdr (f_data f) server (blen (f_data f)) w = (Ok v, w) →
  peek OFF_KP_LEN 2 (f_data f) = Ok [b0; b1] →
  0 ≤ b0 < b1 ∧ b1 ≤ 255 →
  ∃ kp_off hmac_off kp,
    RVAULT_HDR_TO_KP host_endian (f_data f) = Ok kp_off
    ∧ RVAULT_HDR_TO_HMAC host_endian (f_data f) = Ok hmac_off
    ∧ hmac_off - kp_off = 256 * b0 + b1
    ∧ hmac_off + HMAC_SHA3_256_BUFLEN = blen (f_data f)
    ∧ hdr_kp_len host_endian (f_data f) = Ok (256 * b1 + b0)
    ∧ blen (f_data f) < kp_off + (256 * b1 + b0)
    ∧ hdr_kp host_endian (f_data f) = Ok (kp, 256 * b1 + b0)
    ∧ kp = drop (Z.to_nat kp_off) (f_data f)
    ∧ blen kp = 256 * b0 + b1 + HMAC_SHA3_256_BUFLEN
    ∧ (∀ c, v_crypto v = Some c →
         crypto_set_passphrasekey c pwd kp (256 * b1 + b0) = None →
         rvault_open path server pwd w = (Fail, w)).
Proof.
  intros He Hd Hf Hlen Hhdr Hpk [Hb0 Hb1].
  pose proof Hhdr as Hhdr'.
  apply open_hdr_Ok in Hhdr'
    as (cipher & uid & iv & c0 & c1 & Hv & Hl & Hc & Hu & Hcr & Hiv & Hset & -> & _).
  destruct (file_len_Ok _ _ Hl) as (ivr & kpr & Hi & Hk & Hi0 & Hk0 & Hkr & Hn).
  assert (kpr = 256 * b1 + b0) as ->.
  { unfold hdr_kp_len, peek16 in Hk. rewrite Hpk in Hk. simpl in Hk.
    injection Hk as <-. rewrite He. unfold load16.
    rewrite lor_shiftl8, !u8_mod by (rewrite u8_mod; lia). lia. }
  assert (be16toh host_endian (256 * b1 + b0) = 256 * b0 + b1) as Hbe.
  { rewrite He. unfold be16toh, htobe16.
    rewrite bswap16_val, u16_mod, lo8_mod, hi8_div. lia. }
  set (kp_off := RVAULT_HDR_TO_IV + be16toh host_endian ivr).
  assert (hdr_kp host_endian (f_data f)
          = Ok (drop (Z.to_nat kp_off) (f_data f), 256 * b1 + b0)) as Hkp.
  { unfold hdr_kp, RVAULT_HDR_TO_KP. rewrite Hi, Hk. cbn [res_bind]. fold kp_off.
    rewrite take_ge; [done|]. rewrite length_drop.
    unfold kp_off, blen, RVAULT_HDR_TO_IV, RVAULT_HDR_LEN, HMAC_SHA3_256_BUFLEN in *.
    lia. }
  exists kp_off, (kp_off + be16toh host_endian (256 * b1 + b0)),
    (drop (Z.to_nat kp_off) (f_data f)).
  split_and!.
  - unfold RVAULT_HDR_TO_KP. by rewrite Hi.
  - unfold RVAULT_HDR_TO_HMAC, RVAULT_HDR_TO_KP. by rewrite Hi, Hk.
  - lia.
  - unfold kp_off, RVAULT_HDR_TO_IV, RVAULT_HDR_LEN, HMAC_SHA3_256_BUFLEN in *. lia.
  - done.
  - unfold kp_off, RVAULT_HDR_TO_IV, RVAULT_HDR_LEN, HMAC_SHA3_256_BUFLEN in *. lia.
  - done.
  - done.
  - unfold blen in *. rewrite length_drop.
    unfold kp_off, RVAULT_HDR_TO_IV, RVAULT_HDR_LEN, HMAC_SHA3_256_BUFLEN in *. lia.
  - intros c [= <-] Hrej.
    rewrite open_run, open_key_run, open_metadata_mmap_run.
    rewrite bool_decide_eq_true_2, Hf by done.
    destruct (_ <? _) eqn:E; [lia|].
    rewrite (bind_step _ _ _ _ _ Hhdr).
    unfold mbind, M_bind, lift. unfold set_base_path, set_crypto.
    cbn [v_base_path v_uid v_cipher v_crypto v_server_url v_file_list v_file_count].
    rewrite Hkp, Hrej. by rewrite close_and_fail_fresh.
Qed.
End LittleEndianOpen.

(** ** The header HMAC *)

Section Hmac.
Context `{P : Platform}.

Lemma hmac_compute_Ok c h tag :
  rvault_hmac_compute c h = Ok tag →
  ∃ key data hmac,
    crypto_get_key c = Some key
    ∧ hdr_hmac_data host_endian h = Ok data
    ∧ hmac_sha3_256 key data = Some hmac
    ∧ tag = resize (Z.to_nat HMAC_SHA3_256_BUFLEN) 0 hmac
    ∧ blen tag = HMAC_SHA3_256_BUFLEN.
Proof.
  unfold rvault_hmac_compute. intros H.
  destruct (crypto_get_key c) as [key|] eqn:Hkey; [|done].
  destruct (hdr_hmac_data host_endian h) as [data| |] eqn:Hdata; try done.
  cbn [mbind res_mbind res_bind] in H.
  destruct (hmac_sha3_256 key data) as [hmac|] eqn:Hh; [|done].
  injection H as <-. exists key, data, hmac. split_and!; try done.
  unfold blen. by rewrite length_resize.
Qed.

(** X16.  The tag does not cover itself.  Storing the tag that
    [rvault_hmac_compute] yields at [RVAULT_HDR_TO_HMAC], as
    [rvault_init] does, leaves the data covered by the HMAC unchanged,
    so the tag of the completed record is the same and
    [rvault_hmac_verify] accepts it, on every host. *)
Theorem hmac_store_then_verify c h tag off h' :
  rvault_hmac_compute c h = Ok tag →
  RVAULT_HDR_TO_HMAC host_endian h = Ok off →
  poke off tag h = Ok h' →
  hdr_hmac_data host_endian h' = hdr_hmac_data host_endian h
  ∧ rvault_hmac_compute c h' = Ok tag
  ∧ hdr_hmac host_endian h' = Ok tag
  ∧ rvault_hmac_verify c h' = Ok tt.
Proof.
  intros Hcomp Hoff Hpoke.
  destruct (hmac_compute_Ok _ _ _ Hcomp) as (key & data & hmac & Hkey & Hdata & Hh & _ & Htl).
  unfold RVAULT_HDR_TO_HMAC, RVAULT_HDR_TO_KP in Hoff.
  destruct (hdr_iv_len host_endian h) as [ivr| |] eqn:Hi; try done.
  destruct (hdr_kp_len host_endian h) as [kpr| |] eqn:Hk; try done.
  cbn [res_bind] in Hoff. injection Hoff as <-.
  pose proof (htobe16_range host_endian ivr) as Hr1.
  pose proof (htobe16_range host_endian kpr) as Hr2.
  fold (be16toh host_endian ivr) in Hr1. fold (be16toh host_endian kpr) in Hr2.
  unfold RVAULT_HDR_TO_IV, RVAULT_HDR_LEN in *.
  assert (hdr_iv_len host_endian h' = Ok ivr) as Hi'.
  { unfold hdr_iv_len in *. rewrite (peek16_poke_other _ _ _ _ _ _ Hpoke); [done|].
    unfold OFF_IV_LEN. lia. }
  assert (hdr_kp_len host_endian h' = Ok kpr) as Hk'.
  { unfold hdr_kp_len in *. rewrite (peek16_poke_other _ _ _ _ _ _ Hpoke); [done|].
    unfold OFF_KP_LEN. lia. }
  assert (hdr_hmac_data host_endian h' = hdr_hmac_data host_endian h) as Hd'.
  { unfold hdr_hmac_data, RVAULT_HMAC_DATALEN. rewrite Hi', Hk', Hi, Hk. cbn [res_bind].
    apply (peek_poke_other _ _ _ _ _ _ Hpoke). unfold RVAULT_HDR_LEN. lia. }
  assert (hdr_hmac host_endian h' = Ok tag) as Ht'.
  { unfold hdr_hmac, RVAULT_HDR_TO_HMAC, RVAULT_HDR_TO_KP. rewrite Hi', Hk'.
    cbn [res_bind]. unfold RVAULT_HDR_TO_IV, RVAULT_HDR_LEN.
    apply (peek_poke_same' _ _ _ _ _ Hpoke). by rewrite Htl. }
  assert (rvault_hmac_compute c h' = Ok tag) as Hc'.
  { unfold rvault_hmac_compute in *. by rewrite Hd'. }
  split_and!; try done.
  unfold rvault_hmac_verify. rewrite Hc', Ht'. cbn [mbind res_mbind res_bind].
  unfold memcmp_eq. by rewrite bool_decide_eq_true_2.
Qed.
End Hmac.

(** ** Initialisation: the metadata file it creates *)

Section InitResult.
Context `{P : Platform}.
Implicit Types w : world.

Lemma be16toh_small_ge e v : 0 ≤ v ≤ UINT8_MAX → v ≤ be16toh e v.
Proof.
  unfold UINT8_MAX. intros Hv. destruct e.
  - rewrite be16toh_little_small by lia. lia.
  - unfold be16toh, htobe16. rewrite u16_mod. lia.
Qed.

(** The record of [rvault_init] on any host, before the HMAC is stored:
    what the read side finds in it. *)
Lemma init_record_reads_any cipher flags iv kp h0 file_len uid h1 :
  rvault_init_hdr cipher flags iv kp = Ok (h0, file_len) →
  blen iv ≤ UINT16_MAX →
  blen kp ≤ UINT8_MAX →
  poke OFF_UID uid h0 = Ok h1 →
  blen uid = UID_LEN →
  blen h1 = RVAULT_HDR_LEN + blen iv + blen kp + HMAC_SHA3_256_BUFLEN
  ∧ file_len = blen h1
  ∧ hdr_ver h1 = Ok (u8 RVAULT_ABI_VER)
  ∧ hdr_cipher h1 = Ok (u8 cipher)
  ∧ hdr_flags h1 = Ok (u8 flags)
  ∧ hdr_uid h1 = Ok uid
  ∧ peek OFF_IV_LEN 2 h1 = Ok (be16_bytes (blen iv))
  ∧ hdr_iv host_endian h1 = Ok iv
  ∧ peek (RVAULT_HDR_LEN + blen iv) (blen kp) h1 = Ok kp
  ∧ RVAULT_HDR_TO_HMAC host_endian h1
    = Ok (RVAULT_HDR_LEN + blen iv + be16toh host_endian (blen kp)).
Proof.
  intros Hhdr Hiv Hkp Hpoke Huid.
  destruct (init_hdr_fields _ _ _ _ _ _ Hhdr Hiv)
    as (Hfl & Hlen & Hver & Hcip & Hflg & Hivb & _ & Hpiv & Hpkp).
  destruct (init_hdr_lengths _ _ _ _ _ _ Hhdr Hiv) as [Hivl Hkpl].
  pose proof (blen_nonneg iv). pose proof (blen_nonneg kp).
  pose proof (poke_blen _ _ _ _ Hpoke) as Hbl.
  assert (hdr_iv_len host_endian h1 = Ok (htobe16 host_endian (blen iv))) as Hivl'.
  { unfold hdr_iv_len in *. rewrite (peek16_poke_other _ _ _ _ _ _ Hpoke); [done|].
    unfold OFF_IV_LEN, OFF_UID. lia. }
  assert (hdr_kp_len host_endian h1 = Ok (u16 (blen kp))) as Hkpl'.
  { unfold hdr_kp_len in *. rewrite (peek16_poke_other _ _ _ _ _ _ Hpoke); [done|].
    unfold OFF_KP_LEN, OFF_UID. lia. }
  assert (be16toh host_endian (htobe16 host_endian (blen iv)) = blen iv) as Hbiv.
  { by rewrite be16toh_htobe16, u16_small by lia. }
  assert (u16 (blen kp) = blen kp) as Hukp.
  { apply u16_small. unfold UINT8_MAX, UINT16_MAX in *. lia. }
  unfold UID_LEN, RVAULT_HDR_LEN, HMAC_SHA3_256_BUFLEN in *.
  split_and!.
  - lia.
  - lia.
  - unfold hdr_ver. rewrite (peek8_poke_other _ _ _ _ _ Hpoke)
      by (unfold OFF_VER, OFF_UID; lia).
    rewrite (peek8_of_byte _ _ _ Hver). by rewrite u8_idemp.
  - unfold hdr_cipher. rewrite (peek8_poke_other _ _ _ _ _ Hpoke)
      by (unfold OFF_CIPHER, OFF_UID; lia).
    rewrite (peek8_of_byte _ _ _ Hcip). by rewrite u8_idemp.
  - unfold hdr_flags. rewrite (peek8_poke_other _ _ _ _ _ Hpoke)
      by (unfold OFF_FLAGS, OFF_UID; lia).
    rewrite (peek8_of_byte _ _ _ Hflg). by rewrite u8_idemp.
  - unfold hdr_uid. apply (peek_poke_same' _ _ _ _ _ Hpoke). by rewrite Huid.
  - rewrite (peek_poke_other _ _ _ _ _ _ Hpoke); [done|].
    unfold OFF_IV_LEN, OFF_UID. lia.
  - unfold hdr_iv. rewrite Hivl'. cbn [res_bind]. rewrite Hbiv.
    rewrite (peek_poke_other _ _ _ _ _ _ Hpoke); [done|].
    unfold RVAULT_HDR_TO_IV, RVAULT_HDR_LEN, OFF_UID. lia.
  - rewrite (peek_poke_other _ _ _ _ _ _ Hpoke); [done|].
    unfold OFF_UID. lia.
  - unfold RVAULT_HDR_TO_HMAC, RVAULT_HDR_TO_KP. rewrite Hivl', Hkpl'. cbn [res_bind].
    rewrite Hbiv, Hukp. done.
Qed.

(** The same once the HMAC is stored. *)
Lemma init_record_final server pwd uid_str cipher_str flags w hdr flen w1 :
  rvault_init_record server pwd uid_str cipher_str flags w = (Ok (hdr, flen), w1) →
  ∃ cipher iv kp uid c0,
    match cipher_str with
    | Some s => cipher = crypto_cipher_id s ∧ cipher ≠ CIPHER_NONE
    | None => cipher = CRYPTO_CIPHER_PRIMARY
    end
    ∧ crypto_create cipher = Some c0
    ∧ crypto_gen_iv c0 = Some iv
    ∧ kdf_create_params = Some kp
    ∧ hex_read_arbitrary_buf uid_str = Some uid
    ∧ flen = blen hdr
    ∧ blen hdr = RVAULT_HDR_LEN + blen iv + blen kp + HMAC_SHA3_256_BUFLEN
    ∧ hdr_ver hdr = Ok (u8 RVAULT_ABI_VER)
    ∧ hdr_cipher hdr = Ok (u8 cipher)
    ∧ hdr_flags hdr = Ok (u8 flags)
    ∧ hdr_uid hdr = Ok uid
    ∧ peek OFF_IV_LEN 2 hdr = Ok (be16_bytes (blen iv))
    ∧ hdr_iv host_endian hdr = Ok iv
    ∧ peek (RVAULT_HDR_LEN + blen iv) (blen kp) hdr = Ok kp
    ∧ w_fs w1 = w_fs w
    ∧ w_log w1 = w_log w.
Proof.
  intros Hrec.
  destruct (init_record_Ok _ _ _ _ _ _ _ _ _ Hrec)
    as (cipher & c0 & iv & c1 & kp & c2 & h0 & uid & h1 & c3 & tag & off & Hc & Hcr & Hgen
        & Hset & Hkdf & Hkpl & Hivl & Hpk & Hhdr & Hu & Hul & Hpoke & Hm & Hcomp & Hoff
        & Hpoke2).
  destruct (init_record_reads_any _ _ _ _ _ _ _ _ Hhdr Hivl Hkpl Hpoke Hul)
    as (Hbl & Hfl & Rver & Rcip & Rflg & Ruid & Rivb & Riv & Rkp & Rhm).
  rewrite Hoff in Rhm. injection Rhm as ->.
  pose proof (poke_blen _ _ _ _ Hpoke2) as Hbl2.
  pose proof (blen_nonneg iv). pose proof (blen_nonneg kp).
  pose proof (be16toh_small_ge host_endian (blen kp)) as Hge.
  assert (hdr_iv_len host_endian hdr = hdr_iv_len host_endian h1) as Hil.
  { unfold hdr_iv_len. apply (peek16_poke_other _ _ _ _ _ _ Hpoke2).
    unfold OFF_IV_LEN, RVAULT_HDR_LEN. lia. }
  exists cipher, iv, kp, uid, c0.
  unfold UID_LEN, RVAULT_HDR_LEN, HMAC_SHA3_256_BUFLEN in *.
  split_and!; try done.
  - lia.
  - lia.
  - rewrite <- Rver. unfold hdr_ver. apply (peek8_poke_other _ _ _ _ _ Hpoke2).
    unfold OFF_VER. lia.
  - rewrite <- Rcip. unfold hdr_cipher. apply (peek8_poke_other _ _ _ _ _ Hpoke2).
    unfold OFF_CIPHER. lia.
  - rewrite <- Rflg. unfold hdr_flags. apply (peek8_poke_other _ _ _ _ _ Hpoke2).
    unfold OFF_FLAGS. lia.
  - rewrite <- Ruid. unfold hdr_uid. apply (peek_poke_other _ _ _ _ _ _ Hpoke2).
    unfold OFF_UID, UID_LEN. lia.
  - rewrite <- Rivb. apply (peek_poke_other _ _ _ _ _ _ Hpoke2).
    unfold OFF_IV_LEN. lia.
  - rewrite <- Riv. unfold hdr_iv. rewrite Hil.
    destruct (hdr_iv_len host_endian h1) as [ivr| |] eqn:E; try done. cbn [res_bind].
    unfold hdr_iv in Riv. rewrite E in Riv. cbn [res_bind] in Riv.
    pose proof (peek_length _ _ _ _ Riv) as Hl.
    apply (peek_poke_other _ _ _ _ _ _ Hpoke2). unfold RVAULT_HDR_TO_IV, RVAULT_HDR_LEN. lia.
  - rewrite <- Rkp. apply (peek_poke_other _ _ _ _ _ _ Hpoke2). lia.
  - destruct (Z.land flags RVAULT_FLAG_NOAUTH =? 0).
    + destruct Hm as (? & _ & _ & ->). done.
    + by destruct Hm as [_ ->].
  - destruct (Z.land flags RVAULT_FLAG_NOAUTH =? 0).
    + destruct Hm as (? & _ & _ & ->). done.
    + by destruct Hm as [_ ->].
Qed.

Lemma init_Ok path server pwd uid_str cipher_str flags w w1 :
  rvault_init path server pwd uid_str cipher_str flags w = (Ok tt, w1) →
  ∃ hdr w0,
    rvault_init_record server pwd uid_str cipher_str flags w = (Ok (hdr, blen hdr), w0)
    ∧ rvault_init_store path hdr (blen hdr) w0 = (Ok tt, w1).
Proof.
  rewrite init_unfold. intros H.
  destruct (rvault_init_record server pwd uid_str cipher_str flags w)
    as [[[hdr flen]| |] w0] eqn:Hrec; try done.
  destruct (init_record_final _ _ _ _ _ _ _ _ _ Hrec)
    as (? & ? & ? & ? & ? & _ & _ & _ & _ & _ & -> & _).
  by exists hdr, w0.
Qed.

(** A successful store found no metadata file and had room for the
    record. *)
Lemma init_store_Ok_fresh path hdr w w1 :
  0 < blen hdr →
  rvault_init_store path hdr (blen hdr) w = (Ok tt, w1) →
  fs_files (w_fs w) !! meta_path path = None
  ∧ blen hdr ≤ fs_free (w_fs w).
Proof.
  unfold rvault_init_store, open_metadata. intros Hpos H.
  apply bind_Ok in H as ([fd rpath] & w0 & Hopen & H).
  apply bind_Ok in Hopen as (rp & w2 & Hp & Hopen).
  apply get_vault_path_Ok in Hp as (-> & -> & Hd).
  unfold mbind, M_bind, get_fs, put_fs, sys_open, fs_write in *. simpl in *.
  case_bool_decide as Hpres; simpl in *; [done|].
  injection Hopen as <- <- <-. simpl in H.
  rewrite lookup_insert_eq in H. simpl in H.
  destruct (_ =? _) eqn:Hn; [|done]. apply Z.eqb_eq in Hn.
  split; [|lia].
  destruct (fs_files (w_fs w) !! meta_path path) eqn:E; [|done].
  destruct Hpres. left. done.
Qed.

(** X17.  When [rvault_init] returns 0 the directory existed and held
    no metadata file; exactly that file was created, with mode 0600,
    and nothing was logged.  The file is
    [64 + iv_len + kp_len + 32] bytes long, which the device had room
    for, and holds the ABI version, the cipher, the flags, the UID parsed
    from [uid_str], [iv_len] in big-endian order, the generated IV at
    offset 64 and the KDF parameters after it. *)
Theorem init_success_creates_metadata path server pwd uid_str cipher_str flags w w1 :
  rvault_init path server pwd uid_str cipher_str flags w = (Ok tt, w1) →
  ∃ hdr cipher iv kp uid c0,
    is_Some (fs_dirs (w_fs w) !! path)
    ∧ fs_files (w_fs w) !! meta_path path = None
    ∧ fs_files (w_fs w1)
      = <[meta_path path := mk_file RVAULT_META_MODE hdr]> (fs_files (w_fs w))
    ∧ blen hdr ≤ fs_free (w_fs w)
    ∧ fs_free (w_fs w1) = fs_free (w_fs w) - blen hdr
    ∧ w_log w1 = w_log w
    ∧ match cipher_str with
      | Some s => cipher = crypto_cipher_id s ∧ cipher ≠ CIPHER_NONE
      | None => cipher = CRYPTO_CIPHER_PRIMARY
      end
    ∧ crypto_create cipher = Some c0
    ∧ crypto_gen_iv c0 = Some iv
    ∧ kdf_create_params = Some kp
    ∧ hex_read_arbitrary_buf uid_str = Some uid
    ∧ blen hdr = RVAULT_HDR_LEN + blen iv + blen kp + HMAC_SHA3_256_BUFLEN
    ∧ hdr_ver hdr = Ok (u8 RVAULT_ABI_VER)
    ∧ hdr_cipher hdr = Ok (u8 cipher)
    ∧ hdr_flags hdr = Ok (u8 flags)
    ∧ hdr_uid hdr = Ok uid
    ∧ peek OFF_IV_LEN 2 hdr = Ok (be16_bytes (blen iv))
    ∧ hdr_iv host_endian hdr = Ok iv
    ∧ peek (RVAULT_HDR_LEN + blen iv) (blen kp) hdr = Ok kp.
Proof.
  intros Hinit. destruct (init_Ok _ _ _ _ _ _ _ _ Hinit) as (hdr & w0 & Hrec & Hstore).
  destruct (init_record_final _ _ _ _ _ _ _ _ _ Hrec)
    as (cipher & iv & kp & uid & c0 & Hc & Hcr & Hgen & Hkdf & Hu & _ & Hbl & Rver & Rcip
        & Rflg & Ruid & Rivb & Riv & Rkp & Hfs & Hlog).
  assert (0 < blen hdr) as Hpos.
  { pose proof (blen_nonneg iv). pose proof (blen_nonneg kp).
    rewrite Hbl. unfold RVAULT_HDR_LEN, HMAC_SHA3_256_BUFLEN. lia. }
  destruct (init_store_Ok_fresh _ _ _ _ Hpos Hstore) as [Hnone Hroom].
  apply init_store_Ok in Hstore as [Hd ->].
  rewrite Hfs in *. cbn [w_fs w_log fs_files fs_free].
  exists hdr, cipher, iv, kp, uid, c0. split_and!; done.
Qed.

(** X18.  A vault is never overwritten: after [rvault_init] has
    returned 0, a second [rvault_init] on the same directory, with any
    arguments, does not succeed and leaves the file system as it is. *)
Theorem init_refuses_second_init path server pwd uid_str cipher_str flags w w1
    server' pwd' uid_str' cipher_str' flags' :
  rvault_init path server pwd uid_str cipher_str flags w = (Ok tt, w1) →
  let r := rvault_init path server' pwd' uid_str' cipher_str' flags' w1 in
  r.1 ≠ Ok tt ∧ w_fs r.2 = w_fs w1.
Proof.
  intros Hinit. cbn zeta.
  destruct (init_Ok _ _ _ _ _ _ _ _ Hinit) as (hdr & w0 & Hrec & Hstore).
  apply init_store_Ok in Hstore as [[ents Hd] ->].
  set (w1 := mk_world _ _ _).
  pose proof (init_record_fs server' pwd' uid_str' cipher_str' flags' w1) as Hfs.
  rewrite init_unfold.
  destruct (rvault_init_record server' pwd' uid_str' cipher_str' flags' w1)
    as [[[hdr' flen']| |] w2]; simpl in Hfs; [|simpl; by rewrite Hfs..].
  rewrite (init_store_exists _ _ _ _ ents (mk_file RVAULT_META_MODE hdr)).
  - by rewrite Hfs.
  - by rewrite Hfs.
  - rewrite Hfs. subst w1. cbn [w_fs fs_files]. by rewrite lookup_insert_eq.
Qed.

(** X19.  When the device takes fewer than 64 bytes of the record,
    [rvault_init] returns [-1] and the stub it leaves blocks the
    directory: every [rvault_open] fails with "metadata file corrupted",
    and no later [rvault_init] succeeds or changes the file system. *)
Theorem init_short_write_blocks_directory path server pwd uid_str cipher_str flags w
    hdr flen w0 ents :
  rvault_init_record server pwd uid_str cipher_str flags w = (Ok (hdr, flen), w0) →
  fs_dirs (w_fs w) !! path = Some ents →
  fs_files (w_fs w) !! meta_path path = None →
  fs_dirs (w_fs w) !! meta_path path = None →
  0 ≤ fs_free (w_fs w) < RVAULT_HDR_LEN →
  let r := rvault_init path server pwd uid_str cipher_str flags w in
  r.1 = Fail
  ∧ fs_files (w_fs r.2) !! meta_path path
    = Some (mk_file RVAULT_META_MODE (take (Z.to_nat (fs_free (w_fs w))) hdr))
  ∧ (∀ server' pwd',
       rvault_open path server' pwd' r.2
       = (Fail, mk_world (w_fs r.2) (w_srv r.2)
                  (w_log r.2 ++ [MSG_metadata_corrupted])))
  ∧ (∀ server' pwd' uid_str' cipher_str' flags',
       let r' := rvault_init path server' pwd' uid_str' cipher_str' flags' r.2 in
       r'.1 ≠ Ok tt ∧ w_fs r'.2 = w_fs r.2).
Proof.
  intros Hrec Hd Hf Hnd Hfree. cbn zeta.
  destruct (init_record_final _ _ _ _ _ _ _ _ _ Hrec)
    as (cipher & iv & kp & uid & c0 & _ & _ & _ & _ & _ & -> & Hbl & _ & _ & _ & _ & _ & _
        & _ & Hfs & _).
  pose proof (blen_nonneg iv). pose proof (blen_nonneg kp).
  rewrite init_unfold, Hrec.
  destruct (init_store_fresh path hdr (blen hdr) w0 ents) as (Hr & Hfile & _);
    try (by rewrite Hfs).
  destruct (init_store_frame path hdr (blen hdr) w0) as (_ & Hdirs & _ & _).
  cbn zeta in *. rewrite Hfs in Hr, Hfile, Hdirs.
  unfold RVAULT_HDR_LEN, HMAC_SHA3_256_BUFLEN in *.
  replace (Z.max 0 (Z.min (blen hdr) (fs_free (w_fs w)))) with (fs_free (w_fs w))
    in Hr, Hfile by lia.
  destruct (rvault_init_store path hdr (blen hdr) w0) as [rr w1]. simpl in *.
  assert (is_Some (fs_dirs (w_fs w1) !! path)) as Hd1 by (by rewrite Hdirs, Hd).
  split_and!.
  - rewrite Hr. destruct (_ =? _) eqn:E; [lia|done].
  - done.
  - intros server' pwd'. apply open_mmap_failed. rewrite open_metadata_mmap_run.
    rewrite bool_decide_eq_true_2, Hfile by done. cbn [f_data].
    destruct (_ <? _) eqn:E; [done|]. apply Z.ltb_ge in E.
    unfold blen, RVAULT_HDR_LEN in E. rewrite length_take in E. lia.
  - intros server' pwd' uid_str' cipher_str' flags'.
    pose proof (init_record_fs server' pwd' uid_str' cipher_str' flags' w1) as Hfs'.
    rewrite init_unfold.
    destruct (rvault_init_record server' pwd' uid_str' cipher_str' flags' w1)
      as [[[hdr' flen']| |] w2]; simpl in Hfs'; [|simpl; by rewrite Hfs'..].
    rewrite (init_store_exists _ _ _ _ ents
               (mk_file RVAULT_META_MODE (take (Z.to_nat (fs_free (w_fs w))) hdr))).
    + by rewrite Hfs'.
    + by rewrite Hfs', Hdirs.
    + by rewrite Hfs'.
Qed.

Lemma get_vault_path_missing path w :
  fs_dirs (w_fs w) !! path = None →
  get_vault_path path w
  = (Fail, mk_world (w_fs w) (w_srv w)
             (w_log w ++ [if bool_decide (is_Some (fs_files (w_fs w) !! path))
                          then MSG_not_a_directory path
                          else MSG_location_not_found path])).
Proof.
  intros Hd. unfold get_vault_path, realpath, is_directory.
  unfold mbind, M_bind, get_fs, app_log, fail, mret, M_ret. simpl.
  rewrite Hd.
  assert (¬ is_Some (@None (list string))) as Hn by (by intros [? [=]]).
  case_bool_decide as Hr.
  - rewrite Hd, (bool_decide_eq_false_2 _ Hn).
    destruct Hr as [Hr|Hr]; [done|]. by rewrite bool_decide_eq_true_2.
  - rewrite bool_decide_eq_false_2; [done|]. tauto.
Qed.

(** X20.  [rvault_init] looks at the target directory last.  In
    authenticated mode, once the record is built, the key has been
    registered with the server; when the path then turns out not to be
    an existing directory, [rvault_init] returns [-1] with "location
    not found" or "is not a directory", and the registration stays on
    the server. *)
Theorem init_registers_before_directory_check path url pwd uid_str cipher_str flags w
    hdr flen w1 :
  Z.land flags RVAULT_FLAG_NOAUTH = 0 →
  rvault_init_record (Some url) pwd uid_str cipher_str flags w = (Ok (hdr, flen), w1) →
  fs_dirs (w_fs w) !! path = None →
  ∃ uid c2 c3 srv',
    hex_read_arbitrary_buf uid_str = Some uid
    ∧ rvault_key_set (w_srv w) (mk_rvault None uid 0 (Some c2) (Some url) [] 0)
      = Some (srv', c3)
    ∧ rvault_init path (Some url) pwd uid_str cipher_str flags w
      = (Fail, mk_world (w_fs w) srv'
                 (w_log w ++ [if bool_decide (is_Some (fs_files (w_fs w) !! path))
                              then MSG_not_a_directory path
                              else MSG_location_not_found path])).
Proof.
  intros Hauth Hrec Hd.
  destruct (init_record_Ok _ _ _ _ _ _ _ _ _ Hrec)
    as (cipher & c0 & iv & c1 & kp & c2 & h0 & uid & h1 & c3 & tag & off & _ & _ & _
        & _ & _ & _ & _ & _ & _ & Hu & _ & _ & Hm & _).
  apply Z.eqb_eq in Hauth. rewrite Hauth in Hm.
  destruct Hm as (url' & [= <-] & Hset & Hw1).
  exists uid, c2, c3, (w_srv w1). split_and!; try done.
  rewrite init_unfold, Hrec, Hw1.
  unfold rvault_init_store, open_metadata.
  erewrite bind_Fail; [done|]. erewrite bind_Fail; [done|].
  by rewrite get_vault_path_missing.
Qed.
End InitResult.

(** ** Round trips with the server and with a recovery file *)

Section AuthRoundTrip.
Context `{P : Platform}.
Implicit Types w : world.

(** X21.  The round trip in authenticated mode, where the byte
    orders agree.  On a big-endian host, if fetching the key right after
    its registration, with the same UID and passphrase key, yields the
    crypto state the registration left and leaves the server as it is,
    then a vault that [rvault_init] has written is opened by
    [rvault_open] with the same passphrase and URL; the handle carries
    the path, the UID given to [rvault_init], the cipher, the URL and
    the crypto state under which the header HMAC was made. *)
Theorem roundtrip_authenticated_big_endian path url pwd uid_str cipher_str flags w w1 :
  host_endian = BigEndian →
  0 ≤ RVAULT_ABI_VER ≤ UINT8_MAX →
  (∀ c, is_Some (crypto_create c) → 0 ≤ c) →
  0 ≤ flags →
  Z.land flags RVAULT_FLAG_NOAUTH = 0 →
  (∀ srv uid c srv' c' cipher,
     rvault_key_set srv (mk_rvault None uid 0 (Some c) (Some url) [] 0)
       = Some (srv', c') →
     rvault_key_get srv' (mk_rvault (Some path) uid cipher (Some c) (Some url) [] 0)
       = Some (srv', c')) →
  rvault_init path (Some url) pwd uid_str cipher_str flags w = (Ok tt, w1) →
  ∃ uid cipher c2 c,
    hex_read_arbitrary_buf uid_str = Some uid
    ∧ rvault_key_set (w_srv w) (mk_rvault None uid 0 (Some c2) (Some url) [] 0)
      = Some (w_srv w1, c)
    ∧ rvault_open path (Some url) pwd w1
      = (Ok (mk_rvault (Some path) uid cipher (Some c) (Some url) [] 0), w1).
Proof.
  intros He Hver Hcip Hfl0 Hauth Hlaw Hinit.
  destruct (init_Ok _ _ _ _ _ _ _ _ Hinit) as (hdr & w0 & Hrec & Hstore).
  destruct (init_record_Ok _ _ _ _ _ _ _ _ _ Hrec)
    as (cipher & c0 & iv & c1 & kp & c2 & h0 & uid & h1 & c3 & tag & off & Hc & Hcr & Hgen
        & Hiv & Hkdf & Hkpl & Hivl & Hpk & Hhdr & Hu & Huid & Hpoke & Hm & Htag & Hoff
        & Hpoke2).
  pose proof Hauth as Hauth'. apply Z.eqb_eq in Hauth'. rewrite Hauth' in Hm.
  destruct Hm as (url' & [= <-] & Hset & Hw0).
  destruct (init_record_reads _ _ _ _ _ _ _ _ He Hhdr Hivl Hkpl Hpoke Huid)
    as (Hbl & Rver & Rcip & Rflg & Ruid & Rlen & Riv & Rkp & Rhm).
  rewrite Rhm in Hoff. injection Hoff as <-.
  destruct (hmac_compute_Ok _ _ _ Htag) as (key & data & hm & _ & _ & _ & _ & Htl).
  destruct (tamper_reads _ _ _ Rlen Hpoke2 Htl)
    as (Hbl' & Tver & Tcip & Tflg & Tuid & Tlen & Tiv & Tkp & Tdata & Thmac).
  apply init_store_Ok in Hstore as [Hd ->].
  assert (u8 RVAULT_ABI_VER = RVAULT_ABI_VER) as Uver by (by apply u8_small).
  assert (cipher ≤ UINT8_MAX ∧ flags ≤ UINT8_MAX) as [Hcl Hfl].
  { pose proof Hhdr as Hh'. unfold rvault_init_hdr in Hh'. minv. lia. }
  assert (u8 cipher = cipher) as Ucip.
  { apply u8_small. split; [|done]. apply Hcip. by rewrite Hcr. }
  assert (u8 flags = flags) as Uflg by (by apply u8_small).
  exists uid, cipher, c2, c3. split_and!; [done|done|].
  rewrite Hw0. cbn [w_fs w_srv w_log].
  apply open_Ok. exists hdr, c3. split.
  - exists (mk_file RVAULT_META_MODE hdr), cipher, uid, iv, kp, (blen kp), flags, c0, c1, c2.
    cbn [w_fs w_srv w_log fs_files fs_dirs f_data].
    rewrite lookup_insert_eq, Tver, Tcip, Tflg, Tuid, Tiv, Rver, Rcip, Rflg, Ruid,
      Uver, Ucip, Uflg.
    split_and!; try done.
    + by replace (w_fs w) with (w_fs w0) by (by rewrite Hw0).
    + rewrite Hbl', Hbl.
      destruct (init_hdr_fields _ _ _ _ _ _ Hhdr Hivl) as (-> & _).
      pose proof (blen_nonneg iv). pose proof (blen_nonneg kp).
      unfold HMAC_SHA3_256_BUFLEN. lia.
    + by apply Tkp.
    + rewrite Hauth'. split_and!; [by eexists| |done].
      by apply (Hlaw (w_srv w)).
  - unfold rvault_hmac_verify. 
    assert (rvault_hmac_compute c3 hdr = Ok tag) as ->.
    { unfold rvault_hmac_compute in *. by rewrite Tdata. }
    rewrite Thmac. cbn [mbind res_mbind res_bind]. unfold memcmp_eq.
    by rewrite bool_decide_eq_true_2.
Qed.
End AuthRoundTrip.

Section RecoveryTag.
Context `{P : Platform}.
Implicit Types w : world.

Lemma open_hdr_tampered h tag h' server w :
  RVAULT_FILE_LEN host_endian h = Ok (blen h) →
  poke (blen h - HMAC_SHA3_256_BUFLEN) tag h = Ok h' →
  blen tag = HMAC_SHA3_256_BUFLEN →
  rvault_open_hdr h' server (blen h') w = rvault_open_hdr h server (blen h) w.
Proof.
  intros Hlen Hpoke Htag.
  destruct (tamper_reads _ _ _ Hlen Hpoke Htag)
    as (Hbl & Tver & Tcip & _ & Tuid & Tlen & Tiv & _).
  unfold rvault_open_hdr. by rewrite Tver, Tlen, Tcip, Tuid, Tiv, Hlen, Hbl.
Qed.

Lemma bind_cong {A B} (m m' : M A) (k k' : A → M B) w :
  m w = m' w → (∀ a w1, k a w1 = k' a w1) → (m ≫= k) w = (m' ≫= k') w.
Proof.
  intros Hm Hk. unfold mbind, M_bind. rewrite Hm.
  destruct (m' w) as [[a| |] w1]; [apply Hk|done..].
Qed.

Lemma open_ekey_run path recovery w f s :
  fs_files (w_fs w) !! recovery = Some f →
  rvault_recovery_import (f_data f) = Some s →
  rvault_open_ekey path recovery w
  = (base_path ← get_vault_path path;
     vault ← rvault_open_hdr (RECOVERY_METADATA s) None (blen (RECOVERY_METADATA s));
     let vault := set_base_path (Some base_path) vault in
     crypto ← lift (match v_crypto vault with Some c => Ok c | None => Fault end);
     match crypto_set_key crypto (RECOVERY_EKEY s) with
     | None => close_and_fail vault
     | Some crypto' => mret (set_crypto (Some crypto') vault)
     end) w.
Proof.
  intros Hf Hs. unfold rvault_open_ekey.
  rewrite (bind_step _ _ w (w_fs w) w) by done. by rewrite Hf, Hs.
Qed.

(** X22.  [rvault_open_ekey] does not authenticate the metadata: two
    recovery files with the same key whose METADATA sections differ
    only in the 32 bytes of the HMAC give the same result. *)
Theorem open_ekey_ignores_tag path recovery recovery' w f f' s s' tag :
  fs_files (w_fs w) !! recovery = Some f →
  fs_files (w_fs w) !! recovery' = Some f' →
  rvault_recovery_import (f_data f) = Some s →
  rvault_recovery_import (f_data f') = Some s' →
  RECOVERY_EKEY s' = RECOVERY_EKEY s →
  RVAULT_FILE_LEN host_endian (RECOVERY_METADATA s) = Ok (blen (RECOVERY_METADATA s)) →
  blen tag = HMAC_SHA3_256_BUFLEN →
  poke (blen (RECOVERY_METADATA s) - HMAC_SHA3_256_BUFLEN) tag (RECOVERY_METADATA s)
    = Ok (RECOVERY_METADATA s') →
  rvault_open_ekey path recovery' w = rvault_open_ekey path recovery w.
Proof.
  intros Hf Hf' Hs Hs' Hkey Hlen Htag Hpoke.
  rewrite (open_ekey_run _ _ _ _ _ Hf Hs), (open_ekey_run _ _ _ _ _ Hf' Hs'), Hkey.
  apply bind_cong; [done|]. intros bp w1.
  apply bind_cong; [|done].
  apply (open_hdr_tampered _ _ _ _ _ Hlen Hpoke Htag).
Qed.
End RecoveryTag.

(** ** Hidden directory entries *)

Section IterDirHidden.
Context `{P : Platform}.
Implicit Types v : rvault_t crypto_t.

Lemma iter_dir_loop_listed {A} v (f : A → string → string → A) entries arg :
  iter_dir_loop v f (filter (λ x, listed x = true) entries) arg
  = iter_dir_loop v f entries arg.
Proof.
  revert arg. induction entries as [|vname rest IH]; intros arg; [done|].
  rewrite filter_cons, (iter_dir_loop_cons v f vname rest).
  destruct (decide (listed vname = true)) as [Hl|Hl]; unfold listed in Hl.
  - rewrite iter_dir_loop_cons. case_bool_decide; [apply IH|].
    simpl in Hl. rewrite Hl. destruct (rvault_resolve_vname v vname); [apply IH|done].
  - apply not_true_is_false, orb_false_iff in Hl as [Hd ->].
    apply bool_decide_eq_false_1 in Hd. rewrite bool_decide_eq_false_2 by done.
    apply IH.
Qed.

(** X23.  Dot-files other than [.] and [..] and entries named with the
    metadata prefix are invisible to [rvault_iter_dir]: removing them
    from the directory changes neither the calls of the callback nor
    the return value. *)
Theorem iter_dir_hidden_entries_invisible {A} fs fs' v path vpath entries
    (iterfunc : A → string → string → A) (arg : A) :
  rvault_resolve_path v path = Some vpath →
  fs_dirs fs !! vpath = Some entries →
  fs_dirs fs' !! vpath = Some (filter (λ x, listed x = true) entries) →
  rvault_iter_dir fs' v path arg iterfunc = rvault_iter_dir fs v path arg iterfunc.
Proof.
  intros Hp Hd Hd'. unfold rvault_iter_dir. rewrite Hp, Hd, Hd'.
  apply iter_dir_loop_listed.
Qed.
End IterDirHidden.

Section RecoveryRoundTrip.
Context `{P : Platform}.
Implicit Types w : world.

(** X24.  A vault written by [rvault_init] on a big-endian host is
    recoverable: with a recovery file whose METADATA section is the
    metadata file, [rvault_open_ekey] returns a handle exactly when
    [crypto_set_key] accepts the EKEY section, and the handle carries
    the UID, the cipher and the IV of [rvault_init] and that key. *)
Theorem recovery_after_init_big_endian path server pwd uid_str cipher_str flags w w1
    hdr w2 recovery f s :
  host_endian = BigEndian →
  0 ≤ RVAULT_ABI_VER ≤ UINT8_MAX →
  (∀ c, is_Some (crypto_create c) → 0 ≤ c) →
  rvault_init path server pwd uid_str cipher_str flags w = (Ok tt, w1) →
  fs_files (w_fs w1) !! meta_path path = Some (mk_file RVAULT_META_MODE hdr) →
  is_Some (fs_dirs (w_fs w2) !! path) →
  fs_files (w_fs w2) !! recovery = Some f →
  rvault_recovery_import (f_data f) = Some s →
  RECOVERY_METADATA s = hdr →
  ∃ uid cipher c0 iv c1,
    hex_read_arbitrary_buf uid_str = Some uid
    ∧ crypto_create cipher = Some c0
    ∧ crypto_gen_iv c0 = Some iv
    ∧ crypto_set_iv c0 iv = Some c1
    ∧ rvault_open_ekey path recovery w2
      = match crypto_set_key c1 (RECOVERY_EKEY s) with
        | Some c => (Ok (mk_rvault (Some path) uid cipher (Some c) None [] 0), w2)
        | None => (Fail, w2)
        end.
Proof.
  intros He Hver Hcip Hinit Hfile [ents Hd] Hf Hs Hmeta.
  destruct (init_Ok _ _ _ _ _ _ _ _ Hinit) as (hdr' & w0 & Hrec & Hstore).
  destruct (init_record_Ok _ _ _ _ _ _ _ _ _ Hrec)
    as (cipher & c0 & iv & c1 & kp & c2 & h0 & uid & h1 & c3 & tag & off & Hc & Hcr & Hgen
        & Hiv & Hkdf & Hkpl & Hivl & Hpk & Hhdr & Hu & Huid & Hpoke & Hm & Htag & Hoff
        & Hpoke2).
  destruct (init_record_reads _ _ _ _ _ _ _ _ He Hhdr Hivl Hkpl Hpoke Huid)
    as (Hbl & Rver & Rcip & Rflg & Ruid & Rlen & Riv & Rkp & Rhm).
  rewrite Rhm in Hoff. injection Hoff as <-.
  destruct (hmac_compute_Ok _ _ _ Htag) as (key & data & hm & _ & _ & _ & _ & Htl).
  destruct (tamper_reads _ _ _ Rlen Hpoke2 Htl)
    as (Hbl' & Tver & Tcip & Tflg & Tuid & Tlen & Tiv & Tkp & Tdata & Thmac).
  apply init_store_Ok in Hstore as [_ ->].
  cbn [w_fs fs_files] in Hfile. rewrite lookup_insert_eq in Hfile.
  injection Hfile as <-.
  assert (u8 RVAULT_ABI_VER = RVAULT_ABI_VER) as Uver by (by apply u8_small).
  assert (cipher ≤ UINT8_MAX) as Hcl.
  { pose proof Hhdr as Hh'. unfold rvault_init_hdr in Hh'. minv. lia. }
  assert (u8 cipher = cipher) as Ucip.
  { apply u8_small. split; [|done]. apply Hcip. by rewrite Hcr. }
  exists uid, cipher, c0, iv, c1. split_and!; try done.
  rewrite (open_ekey_run _ _ _ _ _ Hf Hs), Hmeta.
  rewrite (bind_step _ _ _ _ _ (get_vault_path_dir _ _ _ Hd)).
  assert (rvault_open_hdr hdr' None (blen hdr') w2
          = (Ok (mk_rvault None uid cipher (Some c1) None [] 0), w2)) as Hopen.
  { apply open_hdr_Ok. exists cipher, uid, iv, c0, c1.
    rewrite Tver, Tcip, Tuid, Tiv, Rver, Rcip, Ruid, Uver, Ucip. split_and!; done. }
  rewrite (bind_step _ _ _ _ _ Hopen).
  cbn [set_base_path v_crypto v_uid v_cipher v_server_url v_file_list v_file_count].
  unfold mbind, M_bind, lift.
  destruct (crypto_set_key c1 (RECOVERY_EKEY s)); [done|].
  apply close_and_fail_fresh.
Qed.
End RecoveryRoundTrip.

(** ** Enumeration and recovery: the failures *)

Section IterDirResult.
Context `{P : Platform}.
Implicit Types v : rvault_t crypto_t.

Lemma iter_dir_loop_calls v entries calls :
  (length (iter_dir_loop v record_call entries calls).2
   ≤ length calls + length entries)%nat.
Proof.
  revert calls. induction entries as [|vname rest IH]; intros calls; [simpl; lia|].
  rewrite iter_dir_loop_cons. cbn [length].
  case_bool_decide.
  - etransitivity; [apply IH|]. unfold record_call. rewrite length_app. simpl. lia.
  - destruct (surfaceable vname).
    + destruct (rvault_resolve_vname v vname).
      * etransitivity; [apply IH|]. unfold record_call. rewrite length_app. simpl. lia.
      * simpl. lia.
    + etransitivity; [apply IH|]. lia.
Qed.

(** X25.  [rvault_iter_dir] returns 0 or [-1]; it returns 0 exactly
    when the path resolves, the directory opens and every entry that
    reaches the resolver resolves.  When the path does not resolve or
    the directory does not open, the callback is never invoked; in any
    case it is invoked at most once for each directory entry. *)
Theorem iter_dir_return_value {A} fs v path (iterfunc : A → string → string → A)
    (arg : A) :
  let r := rvault_iter_dir fs v path arg iterfunc in
  (r.1 = 0 ∨ r.1 = -1)
  ∧ (r.1 = 0 ↔
     ∃ vpath entries,
       rvault_resolve_path v path = Some vpath
       ∧ fs_dirs fs !! vpath = Some entries
       ∧ all_resolve v entries)
  ∧ (rvault_resolve_path v path = None → r = (-1, arg))
  ∧ (∀ vpath, rvault_resolve_path v path = Some vpath →
       fs_dirs fs !! vpath = None → r = (-1, arg))
  ∧ (∀ vpath entries, rvault_resolve_path v path = Some vpath →
       fs_dirs fs !! vpath = Some entries →
       (length (rvault_iter_dir fs v path [] record_call).2 ≤ length entries)%nat).
Proof.
  cbn zeta. unfold rvault_iter_dir.
  destruct (rvault_resolve_path v path) as [vpath|] eqn:Hp.
  - destruct (fs_dirs fs !! vpath) as [entries|] eqn:Hd.
    + split_and!.
      * apply iter_dir_loop_code.
      * split.
        -- intros H0. exists vpath, entries. split_and!; try done.
           by eapply iter_dir_loop_zero.
        -- intros (vpath' & entries' & [= <-] & Hd' & Hall).
           rewrite Hd in Hd'. injection Hd' as <-.
           by rewrite iter_dir_loop_all_resolve.
      * done.
      * intros vpath' [= <-]. by rewrite Hd.
      * intros vpath' entries' [= <-] Hd'. rewrite Hd in Hd'. injection Hd' as <-.
        apply (iter_dir_loop_calls v entries []).
    + split_and!; try done.
      * by right.
      * split; [done|]. intros (vpath' & entries' & [= <-] & Hd' & _).
        by rewrite Hd in Hd'.
      * intros vpath' entries' [= <-] Hd'. by rewrite Hd in Hd'.
  - split_and!; try done.
    + by right.
    + split; [done|]. by intros (? & ? & ? & _).
Qed.
End IterDirResult.

Section RecoveryFailures.
Context `{P : Platform}.
Implicit Types w : world.

End RecoveryFailures.

(** ** Messages *)

Section Quiet.
Context `{P : Platform}.
Implicit Types w : world.

Lemma quiet_bind {A B} (m : M A) (k : A → M B) :
  quiet m → (∀ a, quiet (k a)) → quiet (m ≫= k).
Proof.
  intros Hm Hk w. specialize (Hm w). unfold mbind, M_bind.
  destruct (m w) as [[a| |] w1]; simpl in *; [|done..].
  specialize (Hk a w1). rewrite Hm in Hk. done.
Qed.

Lemma quiet_lift {A} (r : res A) : quiet (lift r).
Proof. intros w. unfold lift. simpl. destruct r; auto. Qed.

Lemma quiet_mret {A} (a : A) : quiet (mret a).
Proof. intros w. done. Qed.

Lemma quiet_fail {A} : quiet (fail (A := A)).
Proof. intros w. by left. Qed.

Lemma quiet_get_fs : quiet get_fs.
Proof. intros w. done. Qed.

Lemma quiet_get_srv : quiet get_srv.
Proof. intros w. done. Qed.

Lemma quiet_put_fs fs : quiet (put_fs fs).
Proof. intros w. done. Qed.

Lemma quiet_put_srv s : quiet (put_srv s).
Proof. intros w. done. Qed.

Lemma silent_fail {A} : silent_failure (fail (A := A)).
Proof. intros w. done. Qed.

Lemma silent_close_and_fail {A} v : silent_failure (close_and_fail (A := A) v).
Proof.
  intros w. unfold close_and_fail. by destruct (rvault_close 0 v) as [[]|].
Qed.

Lemma quiet_silent {A} (m : M A) : silent_failure m → quiet m.
Proof.
  intros Hm w. destruct (Hm w) as [Hno Hlog].
  destruct (m w).1 eqn:E; [by destruct (Hno a)|by left..].
Qed.

(** One message, then a failure. *)
Lemma quiet_log_then {A} msg (m : M A) :
  silent_failure m → quiet (app_log msg;; m).
Proof.
  intros Hm w. unfold mbind, M_bind, app_log.
  destruct (Hm (mk_world (w_fs w) (w_srv w) (w_log w ++ [msg]))) as [Hno Hlog].
  destruct (m _) as [[a| |] w1]; simpl in *; [by destruct (Hno a)|right..];
    by exists msg.
Qed.
End Quiet.

Ltac quiet_step :=
  first
  [ apply quiet_log_then; first [apply silent_fail | apply silent_close_and_fail]
  | apply quiet_bind; [|intros ?]
  | apply quiet_lift
  | apply quiet_mret
  | apply quiet_fail
  | apply quiet_get_fs
  | apply quiet_get_srv
  | apply quiet_put_fs
  | apply quiet_put_srv
  | apply quiet_silent; apply silent_close_and_fail
  | match goal with
    | |- quiet (match ?x with _ => _ end) => destruct x eqn:?
    | |- quiet (if ?b then _ else _) => destruct b eqn:?
    | |- quiet (let '(_, _) := ?x in _) => destruct x eqn:?
    end ].

Section QuietEntryPoints.
Context `{P : Platform}.
Implicit Types w : world.

Lemma quiet_get_vault_path path : quiet (get_vault_path path).
Proof. unfold get_vault_path. repeat quiet_step. Qed.

Lemma quiet_open_metadata path flags : quiet (open_metadata path flags).
Proof.
  unfold open_metadata. repeat first [apply quiet_get_vault_path | quiet_step].
Qed.

Lemma quiet_open_metadata_mmap path : quiet (open_metadata_mmap path).
Proof.
  unfold open_metadata_mmap. repeat first [apply quiet_open_metadata | quiet_step].
Qed.

Lemma quiet_open_hdr hdr server file_len : quiet (rvault_open_hdr hdr server file_len).
Proof. unfold rvault_open_hdr. repeat quiet_step. Qed.

Lemma quiet_open_key path server pwd : quiet (rvault_open_key path server pwd).
Proof.
  unfold rvault_open_key.
  repeat first [apply quiet_open_metadata_mmap | apply quiet_open_hdr | quiet_step].
Qed.

Lemma quiet_open path server pwd : quiet (rvault_open path server pwd).
Proof.
  unfold rvault_open. repeat first [apply quiet_open_key | quiet_step].
Qed.

Lemma quiet_open_ekey path recovery : quiet (rvault_open_ekey path recovery).
Proof.
  unfold rvault_open_ekey.
  repeat first [apply quiet_get_vault_path | apply quiet_open_hdr | quiet_step].
Qed.

Lemma quiet_init_record server pwd uid_str cipher_str flags :
  quiet (rvault_init_record server pwd uid_str cipher_str flags).
Proof. unfold rvault_init_record. repeat quiet_step. Qed.

Lemma quiet_init_store path hdr file_len : quiet (rvault_init_store path hdr file_len).
Proof.
  unfold rvault_init_store. repeat first [apply quiet_open_metadata | quiet_step].
Qed.

Lemma quiet_init path server pwd uid_str cipher_str flags :
  quiet (rvault_init path server pwd uid_str cipher_str flags).
Proof.
  unfold rvault_init.
  repeat first [apply quiet_init_record | apply quiet_init_store | quiet_step].
Qed.

(** X27.  [rvault_init], [rvault_open] and [rvault_open_ekey] log
    nothing when they succeed and at most one message when they do
    not. *)
Theorem entry_points_log_at_most_once :
  (∀ path server pwd uid_str cipher_str flags,
     quiet (rvault_init path server pwd uid_str cipher_str flags))
  ∧ (∀ path server pwd, quiet (rvault_open path server pwd))
  ∧ (∀ path recovery, quiet (rvault_open_ekey path recovery)).
Proof.
  split_and!; intros.
  - apply quiet_init.
  - apply quiet_open.
  - apply quiet_open_ekey.
Qed.
End QuietEntryPoints.

(** ** Runs on the executable platform *)

Section LayoutRuns.
Lemma storage_align_least_multiple_witness :
  STORAGE_ALIGN 23 `mod` STORAGE_ALIGNMENT = 0
  ∧ 23 ≤ STORAGE_ALIGN 23 < 23 + STORAGE_ALIGNMENT
  ∧ (∀ y, 23 ≤ y → y `mod` STORAGE_ALIGNMENT = 0 → STORAGE_ALIGN 23 ≤ y)
  ∧ STORAGE_ALIGN (STORAGE_ALIGN 23) = STORAGE_ALIGN 23.
Proof. apply (storage_align_least_multiple 23). unfold UINT64_MAX. lia. Defined.

Lemma metadata_lengths_any_host_witness :
  RVAULT_HDR_TO_KP LittleEndian Toy.metadata1 = Ok 80
  ∧ RVAULT_HDR_TO_HMAC LittleEndian Toy.metadata1 = Ok 117
  ∧ RVAULT_HMAC_DATALEN LittleEndian Toy.metadata1 = Ok 117
  ∧ RVAULT_FILE_LEN LittleEndian Toy.metadata1 = Ok 149.
Proof.
  destruct (metadata_lengths_any_host LittleEndian Toy.metadata1 [0; 16] [0; 37])
    as (_ & _ & H1 & H2 & H3 & H4 & _).
  - vm_compute; reflexivity.
  - vm_compute; reflexivity.
  - split_and!; [exact H1|exact H2|exact H3|exact H4].
Defined.

Lemma metadata_record_partition_witness :
  ∃ pad iv kp tag,
    Toy.metadata1 = pad ++ iv ++ kp ++ tag
    ∧ blen pad = RVAULT_HDR_LEN
    ∧ blen tag = HMAC_SHA3_256_BUFLEN
    ∧ RVAULT_HDR_TO_KP BigEndian Toy.metadata1 = Ok (RVAULT_HDR_LEN + blen iv)
    ∧ RVAULT_HDR_TO_HMAC BigEndian Toy.metadata1
      = Ok (RVAULT_HDR_LEN + blen iv + blen kp)
    ∧ hdr_iv BigEndian Toy.metadata1 = Ok iv
    ∧ peek (RVAULT_HDR_LEN + blen iv) (blen kp) Toy.metadata1 = Ok kp
    ∧ hdr_hmac BigEndian Toy.metadata1 = Ok tag
    ∧ hdr_hmac_data BigEndian Toy.metadata1 = Ok (pad ++ iv ++ kp).
Proof.
  apply (metadata_record_partition BigEndian Toy.metadata1). vm_compute; reflexivity.
Defined.

Lemma fileobj_lengths_any_host_witness :
  FILEOBJ_EDATA_LEN LittleEndian Toy.fileobj_hdr = Ok 300
  ∧ FILEOBJ_HMAC_DATALEN LittleEndian Toy.fileobj_hdr = Ok 364
  ∧ FILEOBJ_FILE_LEN LittleEndian Toy.fileobj_hdr = Ok 396.
Proof.
  destruct (fileobj_lengths_any_host LittleEndian Toy.fileobj_hdr [0; 32]
              [0; 0; 0; 0; 0; 0; 1; 44]) as (_ & _ & H1 & H2 & _ & _ & H3).
  - vm_compute; reflexivity.
  - vm_compute; reflexivity.
  - split_and!; [exact H1|exact H2|].
    apply H3. vm_compute. discriminate.
Defined.

Lemma fileobj_datalen_wraps_witness :
  ∃ n, FILEOBJ_HMAC_DATALEN BigEndian Toy.fileobj_hdr_huge = Ok n
       ∧ n = be_value (replicate 8 255) - (UINT64_MAX + 1 - FILEOBJ_HDR_LEN)
       ∧ 0 ≤ n < FILEOBJ_HDR_LEN
       ∧ n < be_value (replicate 8 255).
Proof.
  apply (fileobj_datalen_wraps BigEndian Toy.fileobj_hdr_huge (replicate 8 255)).
  - vm_compute; reflexivity.
  - vm_compute; reflexivity.
Defined.
End LayoutRuns.

Section InitWitnesses.
Local Existing Instance Toy.be.

Lemma init_touches_only_metadata_file_witness :
  fs_files (w_fs (rvault_init "/v" None "pw" Toy.UID0 None RVAULT_FLAG_NOAUTH
                    (Toy.world_recovery Toy.metadata1)).2) !! "/r"%string
  = fs_files (w_fs (Toy.world_recovery Toy.metadata1)) !! "/r"%string.
Proof.
  apply (init_touches_only_metadata_file (P := Toy.be)).
  vm_compute. intros H. discriminate H.
Defined.

Lemma init_server_contact_witness :
  w_srv (rvault_init "/v" (Some Toy.URL) "pw" Toy.UID0 None RVAULT_FLAG_NOAUTH
           (Toy.world0 BigEndian 4096)).2
  = w_srv (Toy.world0 BigEndian 4096).
Proof.
  destruct (init_server_contact (P := Toy.be) "/v" (Some Toy.URL) "pw" Toy.UID0 None
              RVAULT_FLAG_NOAUTH (Toy.world0 BigEndian 4096)) as (_ & H & _).
  apply H. vm_compute. intros E. discriminate E.
Defined.

Lemma init_rejects_bad_arguments_witness :
  let w := Toy.world0 BigEndian 4096 in
  let r := rvault_init "/v" None "pw" Toy.UID0 (Some "rot13"%string)
             RVAULT_FLAG_NOAUTH w in
  r.1 ≠ Ok tt
  ∧ w_fs r.2 = w_fs w
  ∧ w_srv r.2 = w_srv w
  ∧ r = (Fail, mk_world (w_fs w) (w_srv w) (w_log w ++ [MSG_invalid_cipher "rot13"])).
Proof.
  cbn zeta.
  destruct (init_rejects_bad_arguments (P := Toy.be) "/v" None "pw" Toy.UID0
              (Some "rot13"%string) RVAULT_FLAG_NOAUTH (Toy.world0 BigEndian 4096))
    as (H1 & H2 & H3 & H4).
  - left. exists "rot13"%string. split; [reflexivity|vm_compute; reflexivity].
  - split_and!; [exact H1|exact H2|exact H3|].
    apply H4; [reflexivity|vm_compute; reflexivity].
Defined.

Lemma init_success_creates_metadata_witness :
  ∃ hdr cipher iv kp uid c0,
    is_Some (fs_dirs (w_fs (Toy.world0 BigEndian 4096)) !! "/v"%string)
    ∧ fs_files (w_fs (Toy.world0 BigEndian 4096)) !! meta_path "/v" = None
    ∧ fs_files (w_fs Toy.world1)
      = <[meta_path "/v" := mk_file RVAULT_META_MODE hdr]>
          (fs_files (w_fs (Toy.world0 BigEndian 4096)))
    ∧ blen hdr ≤ fs_free (w_fs (Toy.world0 BigEndian 4096))
    ∧ fs_free (w_fs Toy.world1) = fs_free (w_fs (Toy.world0 BigEndian 4096)) - blen hdr
    ∧ w_log Toy.world1 = w_log (Toy.world0 BigEndian 4096)
    ∧ cipher = CRYPTO_CIPHER_PRIMARY
    ∧ crypto_create cipher = Some c0
    ∧ crypto_gen_iv c0 = Some iv
    ∧ kdf_create_params = Some kp
    ∧ hex_read_arbitrary_buf Toy.UID0 = Some uid
    ∧ blen hdr = RVAULT_HDR_LEN + blen iv + blen kp + HMAC_SHA3_256_BUFLEN
    ∧ hdr_ver hdr = Ok (u8 RVAULT_ABI_VER)
    ∧ hdr_cipher hdr = Ok (u8 cipher)
    ∧ hdr_flags hdr = Ok (u8 RVAULT_FLAG_NOAUTH)
    ∧ hdr_uid hdr = Ok uid
    ∧ peek OFF_IV_LEN 2 hdr = Ok (be16_bytes (blen iv))
    ∧ hdr_iv host_endian hdr = Ok iv
    ∧ peek (RVAULT_HDR_LEN + blen iv) (blen kp) hdr = Ok kp.
Proof.
  apply (init_success_creates_metadata (P := Toy.be) "/v" None "pw" Toy.UID0 None
           RVAULT_FLAG_NOAUTH (Toy.world0 BigEndian 4096) Toy.world1).
  vm_compute; reflexivity.
Defined.

Lemma init_refuses_second_init_witness :
  let r := rvault_init "/v" None "other" Toy.UID0 (Some "chacha20"%string)
             RVAULT_FLAG_NOAUTH Toy.world1 in
  r.1 ≠ Ok tt ∧ w_fs r.2 = w_fs Toy.world1.
Proof.
  apply (init_refuses_second_init (P := Toy.be) "/v" None "pw" Toy.UID0 None
           RVAULT_FLAG_NOAUTH (Toy.world0 BigEndian 4096) Toy.world1).
  vm_compute; reflexivity.
Defined.

Lemma init_short_write_blocks_directory_witness :
  let w := Toy.world0 BigEndian 10 in
  let r := rvault_init "/v" None "pw" Toy.UID0 None RVAULT_FLAG_NOAUTH w in
  r.1 = Fail
  ∧ rvault_open "/v" None "pw" r.2
    = (Fail, mk_world (w_fs r.2) (w_srv r.2) (w_log r.2 ++ [MSG_metadata_corrupted]))
  ∧ (rvault_init "/v" None "pw" Toy.UID0 None RVAULT_FLAG_NOAUTH r.2).1 ≠ Ok tt.
Proof.
  cbn zeta.
  edestruct (init_short_write_blocks_directory (P := Toy.be) "/v" None "pw" Toy.UID0 None
               RVAULT_FLAG_NOAUTH (Toy.world0 BigEndian 10))
    as (H1 & _ & H3 & H4).
  - vm_compute; reflexivity.
  - vm_compute; reflexivity.
  - vm_compute; reflexivity.
  - vm_compute; reflexivity.
  - vm_compute. split; [discriminate|reflexivity].
  - split_and!; [exact H1|apply H3|].
    apply (H4 None "pw"%string Toy.UID0 None RVAULT_FLAG_NOAUTH).
Defined.

Lemma init_registers_before_directory_check_witness :
  ∃ uid c2 c3 srv',
    hex_read_arbitrary_buf Toy.UID0 = Some uid
    ∧ rvault_key_set [] (mk_rvault None uid 0 (Some c2) (Some Toy.URL) [] 0)
      = Some (srv', c3)
    ∧ srv' ≠ []
    ∧ rvault_init "/nowhere" (Some Toy.URL) "pw" Toy.UID0 None 0
        (Toy.world0 BigEndian 4096)
      = (Fail, mk_world (Toy.fs0 4096) srv' [MSG_location_not_found "/nowhere"]).
Proof.
  edestruct (init_registers_before_directory_check (P := Toy.be) "/nowhere" Toy.URL "pw"
               Toy.UID0 None 0 (Toy.world0 BigEndian 4096))
    as (uid & c2 & c3 & srv' & H1 & H2 & H3).
  - reflexivity.
  - vm_compute; reflexivity.
  - vm_compute; reflexivity.
  - exists uid, c2, c3, srv'. split_and!; [exact H1|exact H2| |exact H3].
    intros ->. vm_compute in H2. 
    revert H2. vm_compute in H1. injection H1 as <-. vm_compute.
    destruct c2 as [? ? [k|]]; discriminate.
Defined.
End InitWitnesses.

Section OpenWitnesses.
Local Existing Instance Toy.be.

Lemma open_path_errors_witness :
  rvault_open "/nowhere" None "pw" Toy.world1
  = (Fail, mk_world (w_fs Toy.world1) (w_srv Toy.world1)
             (w_log Toy.world1 ++ [MSG_location_not_found "/nowhere"]))
  ∧ rvault_open "/v/rvault.metadata" None "pw" Toy.world1
    = (Fail, mk_world (w_fs Toy.world1) (w_srv Toy.world1)
               (w_log Toy.world1 ++ [MSG_not_a_directory "/v/rvault.metadata"]))
  ∧ rvault_open "/v" None "pw" (Toy.world0 BigEndian 4096)
    = (Fail, mk_world (Toy.fs0 4096) [] [MSG_could_not "open" (meta_path "/v") ENOENT])
  ∧ (let w := mk_world (mk_fs ∅ {[ "/v"%string := ["."; ".."; "rvault.metadata"]%string;
                                   "/v/rvault.metadata"%string := ["."; ".."]%string ]} 0)
                       [] [] in
     rvault_open "/v" None "pw" w = (Fail, w)).
Proof.
  split_and!.
  - apply (open_path_errors (P := Toy.be) "/nowhere" None "pw" Toy.world1);
      vm_compute; reflexivity.
  - apply (open_path_errors (P := Toy.be) "/v/rvault.metadata" None "pw" Toy.world1).
    + vm_compute; reflexivity.
    + vm_compute. by eexists.
  - apply (open_path_errors (P := Toy.be) "/v" None "pw" (Toy.world0 BigEndian 4096)).
    + vm_compute. by eexists.
    + vm_compute; reflexivity.
    + vm_compute; reflexivity.
  - cbn zeta.
    destruct (open_path_errors (P := Toy.be) "/v" None "pw"
                (mk_world
                   (mk_fs ∅ {[ "/v"%string := ["."; ".."; "rvault.metadata"]%string;
                               "/v/rvault.metadata"%string := ["."; ".."]%string ]} 0)
                   [] [])) as (_ & _ & _ & H).
    apply (H ["."; ".."]%string).
    + vm_compute. by eexists.
    + vm_compute; reflexivity.
    + vm_compute; reflexivity.
Defined.

Lemma open_rejects_malformed_metadata_witness :
  let failed data m :=
    rvault_open "/v" None "pw" (replace_metadata "/v" data Toy.world1)
    = (Fail, mk_world (w_fs (replace_metadata "/v" data Toy.world1)) []
               [m]) in
  failed (take 40 Toy.metadata1) MSG_metadata_corrupted
  ∧ failed (<[0%nat := 9]> Toy.metadata1) (MSG_incompatible_version 9)
  ∧ failed (take 100 Toy.metadata1) MSG_metadata_corrupted
  ∧ failed (Toy.metadata1 ++ [0]) MSG_metadata_corrupted.
Proof.
  cbn zeta. split_and!.
  - edestruct (open_rejects_malformed_metadata (P := Toy.be) "/v" None "pw"
                 (replace_metadata "/v" (take 40 Toy.metadata1) Toy.world1))
      as (H & _ & _).
    + vm_compute. by eexists.
    + vm_compute; reflexivity.
    + apply H. vm_compute; reflexivity.
  - edestruct (open_rejects_malformed_metadata (P := Toy.be) "/v" None "pw"
                 (replace_metadata "/v" (<[0%nat := 9]> Toy.metadata1) Toy.world1))
      as (_ & H & _).
    + vm_compute. by eexists.
    + vm_compute; reflexivity.
    + apply (H 9).
      * vm_compute. discriminate.
      * vm_compute; reflexivity.
      * vm_compute. intros E. discriminate E.
  - edestruct (open_rejects_malformed_metadata (P := Toy.be) "/v" None "pw"
                 (replace_metadata "/v" (take 100 Toy.metadata1) Toy.world1))
      as (_ & _ & H).
    + vm_compute. by eexists.
    + vm_compute; reflexivity.
    + apply (H 149).
      * vm_compute. discriminate.
      * vm_compute; reflexivity.
      * vm_compute; reflexivity.
      * vm_compute. intros E. discriminate E.
  - edestruct (open_rejects_malformed_metadata (P := Toy.be) "/v" None "pw"
                 (replace_metadata "/v" (Toy.metadata1 ++ [0]) Toy.world1))
      as (_ & _ & H).
    + vm_compute. by eexists.
    + vm_compute; reflexivity.
    + apply (H 149).
      * vm_compute. discriminate.
      * vm_compute; reflexivity.
      * vm_compute; reflexivity.
      * vm_compute. intros E. discriminate E.
Defined.

Lemma open_server_contact_witness :
  w_srv (rvault_open "/v" (Some Toy.URL) "pw" Toy.world1).2 = w_srv Toy.world1.
Proof.
  destruct (open_server_contact (P := Toy.be) "/v" (Some Toy.URL) "pw" Toy.world1)
    as (_ & _ & H).
  eapply (H _ 1).
  - vm_compute; reflexivity.
  - vm_compute; reflexivity.
  - vm_compute. intros E. discriminate E.
Defined.

Lemma toy_kdf_key c pw kp kp_len c' :
  Toy.set_passphrasekey c pw kp kp_len = Some c' → is_Some (Toy.tc_key c').
Proof.
  unfold Toy.set_passphrasekey. case_bool_decide; [|done]. intros [= <-]. by eexists.
Qed.

Lemma toy_key_get_key srv v srv' c' :
  Toy.key_get srv v = Some (srv', c') → is_Some (Toy.tc_key c').
Proof.
  unfold Toy.key_get. intros H.
  destruct (v_crypto v) as [c|]; [|done]. simpl in H.
  destruct (Toy.tc_key c) as [kp|]; [|done]. simpl in H.
  destruct (Toy.find_key (v_uid v) srv) as [ks|]; [|done]. simpl in H.
  injection H as <- <-. by eexists.
Qed.

Lemma open_no_fault_big_endian_witness :
  (rvault_open "/v" None "pw" (replace_metadata "/v" (replicate 200 255) Toy.world1)).1
  ≠ Fault
  ∧ (rvault_open "/v" None "pw"
       (replace_metadata "/v" (take 116 Toy.metadata1) Toy.world1)).1 ≠ Fault
  ∧ ∃ kp off, hdr_kp host_endian Toy.metadata1 = Ok (kp, blen kp)
              ∧ RVAULT_HDR_TO_KP host_endian Toy.metadata1 = Ok off
              ∧ peek off (blen kp) Toy.metadata1 = Ok kp
              ∧ off + blen kp + HMAC_SHA3_256_BUFLEN = blen Toy.metadata1.
Proof.
  split_and!.
  - apply (open_no_fault_big_endian (P := Toy.be)); try reflexivity.
    + apply toy_kdf_key.
    + apply toy_key_get_key.
  - apply (open_no_fault_big_endian (P := Toy.be)); try reflexivity.
    + apply toy_kdf_key.
    + apply toy_key_get_key.
  - apply (open_no_fault_big_endian (P := Toy.be) "/v" None "pw" Toy.world1).
    + reflexivity.
    + apply toy_kdf_key.
    + apply toy_key_get_key.
    + vm_compute; reflexivity.
Defined.
End OpenWitnesses.

Section OpenWitnessesLE.
Local Existing Instance Toy.le.

Lemma open_kp_region_little_endian_witness :
  RVAULT_FILE_LEN LittleEndian Toy.metadata1 = Ok (blen Toy.metadata1)
  ∧ hdr_kp_len LittleEndian Toy.metadata1 = Ok (256 * 37)
  ∧ hdr_kp LittleEndian Toy.metadata1 = Ok (drop 80 Toy.metadata1, 256 * 37)
  ∧ blen (drop 80 Toy.metadata1) = 37 + HMAC_SHA3_256_BUFLEN
  ∧ @rvault_open Toy.le "/v" None "pw" Toy.world1 = (Fail, Toy.world1).
Proof.
  split; [vm_compute; reflexivity|].
  edestruct (open_kp_region_little_endian (P := Toy.le) "/v" None "pw" Toy.world1
               (mk_file RVAULT_META_MODE Toy.metadata1)
               (mk_rvault None (replicate 16 0) 1
                  (Some (Toy.mk_crypto 1 (Some (Z.of_nat <$> seq 1 16)) None)) None [] 0)
               0 37)
    as (kp_off & hmac_off & kp & _ & _ & _ & _ & H1 & _ & _ & _ & _ & H2).
  - reflexivity.
  - vm_compute. by eexists.
  - vm_compute; reflexivity.
  - vm_compute. discriminate.
  - vm_compute; reflexivity.
  - vm_compute; reflexivity.
  - lia.
  - split; [exact H1|]. split; [vm_compute; reflexivity|].
    split; [vm_compute; reflexivity|].
    eapply H2; [reflexivity|].
    cbn [crypto_set_passphrasekey Toy.le Toy.platform]. unfold Toy.set_passphrasekey.
    case_bool_decide as E; [|done]. destruct E as [E _]. vm_compute in E. discriminate E.
Defined.
End OpenWitnessesLE.

Section HmacWitness.
Local Existing Instance Toy.be.

Lemma hmac_store_then_verify_witness :
  let c := Toy.mk_crypto 1 (Some (Z.of_nat <$> seq 1 16))
             (Some (Toy.kdf "pw" (replicate 37 9))) in
  let tag := drop 117 Toy.metadata1 in
  rvault_hmac_compute c Toy.metadata1_no_hmac = Ok tag
  ∧ poke 117 tag Toy.metadata1_no_hmac = Ok Toy.metadata1
  ∧ rvault_hmac_compute c Toy.metadata1 = Ok tag
  ∧ hdr_hmac host_endian Toy.metadata1 = Ok tag
  ∧ rvault_hmac_verify c Toy.metadata1 = Ok tt.
Proof.
  cbn zeta. split; [vm_compute; reflexivity|].
  split; [vm_compute; reflexivity|].
  edestruct (hmac_store_then_verify (P := Toy.be)
               (Toy.mk_crypto 1 (Some (Z.of_nat <$> seq 1 16))
                  (Some (Toy.kdf "pw" (replicate 37 9))))
               Toy.metadata1_no_hmac (drop 117 Toy.metadata1) 117 Toy.metadata1)
    as (_ & H1 & H2 & H3).
  - vm_compute; reflexivity.
  - vm_compute; reflexivity.
  - vm_compute; reflexivity.
  - split_and!; [exact H1|exact H2|exact H3].
Defined.
End HmacWitness.

Section LastWitnesses.
Local Existing Instance Toy.be.

Lemma toy_xor_stream_twice key data :
  Toy.xor_stream key (Toy.xor_stream key data) = data.
Proof.
  revert key. induction data as [|d data IH]; intros [|k key]; simpl; try done.
  f_equal; [|apply IH]. by rewrite Z.lxor_assoc, Z.lxor_nilpotent, Z.lxor_0_r.
Qed.

(** The toy server hands back the key it was given. *)
Lemma toy_key_get_after_set path url srv uid c srv' c' cipher :
  Toy.key_set srv (mk_rvault None uid 0 (Some c) (Some url) [] 0) = Some (srv', c') →
  Toy.key_get srv' (mk_rvault (Some path) uid cipher (Some c) (Some url) [] 0)
  = Some (srv', c').
Proof.
  unfold Toy.key_set, Toy.key_get. simpl.
  destruct (Toy.tc_key c) as [kp|]; [|done]. simpl. intros [= <- <-]. simpl.
  rewrite bool_decide_eq_true_2 by done. simpl.
  by rewrite toy_xor_stream_twice.
Qed.

Lemma roundtrip_authenticated_big_endian_witness :
  ∃ uid cipher c2 c,
    hex_read_arbitrary_buf Toy.UID0 = Some uid
    ∧ rvault_key_set (w_srv (Toy.world0 BigEndian 4096))
        (mk_rvault None uid 0 (Some c2) (Some Toy.URL) [] 0)
      = Some (w_srv Toy.world_auth, c)
    ∧ rvault_open "/v" (Some Toy.URL) "pw" Toy.world_auth
      = (Ok (mk_rvault (Some "/v"%string) uid cipher (Some c) (Some Toy.URL) [] 0),
         Toy.world_auth).
Proof.
  apply (roundtrip_authenticated_big_endian (P := Toy.be) "/v" Toy.URL "pw" Toy.UID0
           None 0 (Toy.world0 BigEndian 4096) Toy.world_auth).
  - reflexivity.
  - vm_compute. split; discriminate.
  - intros c [x Hx]. unfold crypto_create in Hx. simpl in Hx. unfold Toy.create in Hx.
    case_bool_decide; [lia|done].
  - lia.
  - reflexivity.
  - intros srv uid c srv' c' cipher. apply toy_key_get_after_set.
  - vm_compute; reflexivity.
Defined.

Lemma open_ekey_ignores_tag_witness :
  rvault_open_ekey "/v" "/r0" Toy.world_recovery2
  = rvault_open_ekey "/v" "/r" Toy.world_recovery2.
Proof.
  eapply (open_ekey_ignores_tag (P := Toy.be) "/v" "/r" "/r0" Toy.world_recovery2
            _ _ (mk_rsections Toy.metadata1 Toy.K_E)
            (mk_rsections Toy.metadata1_no_hmac Toy.K_E) (replicate 32 0)).
  - vm_compute; reflexivity.
  - vm_compute; reflexivity.
  - vm_compute; reflexivity.
  - vm_compute; reflexivity.
  - reflexivity.
  - vm_compute; reflexivity.
  - reflexivity.
  - vm_compute; reflexivity.
Defined.

Lemma iter_dir_hidden_entries_invisible_witness :
  rvault_iter_dir (Toy.listing ["."; ".."; "enc-a"; "enc-b"]%string) Toy.vault "/" []
    record_call
  = rvault_iter_dir
      (Toy.listing ["."; ".git"; ".."; "rvault.metadata"; "enc-a"; ".cache"; "enc-b"]%string)
      Toy.vault "/" [] record_call.
Proof.
  apply (iter_dir_hidden_entries_invisible (P := Toy.be) _ _ Toy.vault "/" "/v/"
           ["."; ".git"; ".."; "rvault.metadata"; "enc-a"; ".cache"; "enc-b"]%string).
  - vm_compute; reflexivity.
  - vm_compute; reflexivity.
  - vm_compute; reflexivity.
Defined.

Lemma recovery_after_init_big_endian_witness :
  ∃ uid cipher c0 iv c1,
    hex_read_arbitrary_buf Toy.UID0 = Some uid
    ∧ crypto_create cipher = Some c0
    ∧ crypto_gen_iv c0 = Some iv
    ∧ crypto_set_iv c0 iv = Some c1
    ∧ rvault_open_ekey "/v" "/r" (Toy.world_recovery Toy.metadata1)
      = match crypto_set_key c1 Toy.K_E with
        | Some c =>
            (Ok (mk_rvault (Some "/v"%string) uid cipher (Some c) None [] 0),
             Toy.world_recovery Toy.metadata1)
        | None => (Fail, Toy.world_recovery Toy.metadata1)
        end.
Proof.
  eapply (recovery_after_init_big_endian (P := Toy.be) "/v" None "pw" Toy.UID0 None
            RVAULT_FLAG_NOAUTH (Toy.world0 BigEndian 4096) Toy.world1 Toy.metadata1
            (Toy.world_recovery Toy.metadata1) "/r" _
            (mk_rsections Toy.metadata1 Toy.K_E)).
  - reflexivity.
  - vm_compute. split; discriminate.
  - intros c [x Hx]. unfold crypto_create in Hx. simpl in Hx. unfold Toy.create in Hx.
    case_bool_decide; [lia|done].
  - vm_compute; reflexivity.
  - vm_compute; reflexivity.
  - vm_compute. by eexists.
  - vm_compute; reflexivity.
  - vm_compute; reflexivity.
  - reflexivity.
Defined.
End LastWitnesses.

Section MoreWitnesses.
Local Existing Instance Toy.be.

Lemma iter_dir_return_value_witness :
  rvault_iter_dir (Toy.listing ["."; ".."; "enc-a"]%string) Toy.vault "/missing" []
    record_call
  = (-1, []).
Proof.
  edestruct (iter_dir_return_value (P := Toy.be)
               (Toy.listing ["."; ".."; "enc-a"]%string) Toy.vault "/missing"
               record_call []) as (_ & _ & _ & H & _).
  apply (H "/v/missing"%string); vm_compute; reflexivity.
Defined.

End MoreWitnesses.
